(** * MetaQuery governance validator (V1)

    A shallow embedding of [src/metaquery/validator.py], of the loaders of
    [src/metaquery/loader.py] and of the command [build] of
    [src/metaquery/cli.py], together with the properties the specification
    states about [validate_v1] and further properties of the three modules.

    Conventions of the embedding:
    - a Python [str] is a [string]; string comparison is the byte-wise
      lexicographic order [String.le];
    - the catalog [fields_by_id : dict[str, Field]] is only ever looked up
      by key and listed through [sorted(...)], so it is a [gmap string Field];
    - the dictionaries whose iteration order is observable ([audit.controls],
      [duplicates], [sources]) are insertion-ordered association lists
      ([odict]);
    - the set [seen] is a [gset string];
    - an exception is a value of [exn]; a call either returns or raises
      ([outcome]);
    - the wall clock read by the [timestamp] default factory is the explicit
      argument [now];
    - [validate_v1] is the function on values; [validate_v1_store] is the
      same function on a store of mutable objects, with references and
      in-place updates, and is shown to refine it;
    - the library functions the loaders and [build] call ([str.strip],
      [Path.read_text], [yaml.safe_load], [json.dumps]) and
      [builder.build_sql_v1], whose module is not among the sources, are
      the fields of the classes [Loader_env] and [Cli_env];
    - what [build] prints and writes is the list of its events. *)

From Stdlib Require Import Ascii String.
From stdpp Require Import gmap strings list sorting pretty.

Local Open Scope string_scope.
Local Open Scope list_scope.

(** ** Python's insertion-ordered [dict] with string keys *)

Module odict.
Section odict.
Context {V : Type}.

(** [k in d] / [d.get(k)] *)
Fixpoint get (d : list (string * V)) (k : string) : option V :=
  match d with
  | [] => None
  | (k', v) :: d' => if decide (k' = k) then Some v else get d' k
  end.

(** [d[k] = v]: an existing key keeps its position, a new key goes last. *)
Fixpoint set (d : list (string * V)) (k : string) (v : V) : list (string * V) :=
  match d with
  | [] => [(k, v)]
  | (k', v') :: d' =>
      if decide (k' = k) then (k, v) :: d' else (k', v') :: set d' k v
  end.

(** [d.keys()], in iteration order *)
Definition keys (d : list (string * V)) : list string := d.*1.

Definition values (d : list (string * V)) : list V := d.*2.
End odict.
End odict.

Abbreviation odict V := (list (string * V)).

(** ** Regular expressions of the validator

    Both patterns have the shape [^[class]+$] and are used through
    [re.match] without flags.  In Python, [$] matches at the end of the
    string and also just before a newline that is the last character. *)

Definition newline : ascii := "010"%char.

Definition in_range (lo hi c : ascii) : bool :=
  bool_decide (nat_of_ascii lo ≤ nat_of_ascii c ≤ nat_of_ascii hi)%nat.

(** [[A-Z0-9_]] *)
Definition source_class (c : ascii) : bool :=
  in_range "A" "Z" c || in_range "0" "9" c || bool_decide (c = "_"%char).

(** [[A-Za-z0-9_]] *)
Definition field_id_class (c : ascii) : bool :=
  in_range "A" "Z" c || in_range "a" "z" c || in_range "0" "9" c
  || bool_decide (c = "_"%char).

(** The rest of [[class]+$] once one character of the class has been read. *)
Fixpoint re_plus_dollar (cls : ascii → bool) (s : string) : bool :=
  match s with
  | "" => true
  | String c "" => cls c || bool_decide (c = newline)
  | String c s' => cls c && re_plus_dollar cls s'
  end.

(** [re.compile("^[class]+$").match(s)] as a truth value *)
Definition re_match (cls : ascii → bool) (s : string) : bool :=
  match s with
  | "" => false
  | String c s' => cls c && re_plus_dollar cls s'
  end.

Definition SOURCE_RE : string → bool := re_match source_class.
Definition FIELD_ID_RE : string → bool := re_match field_id_class.

(** ** Data model *)

(** [loader.Field] (a frozen dataclass) *)
Record Field := mkField {
  field_id : string;
  datatable_id : string;
  sql_expr : string;
  label : option string;
}.

(** The warning dictionaries appended to [audit.warnings]; the only kind the
    validator emits has code [DUPLICATE_FIELDS]. *)
Inductive warning :=
| DUPLICATE_FIELDS (w_field_id : string) (w_count : nat) (w_message : string).

Definition warning_code (w : warning) : string :=
  match w with DUPLICATE_FIELDS _ _ _ => "DUPLICATE_FIELDS" end.
Definition warning_field_id (w : warning) : string :=
  match w with DUPLICATE_FIELDS fid _ _ => fid end.
Definition warning_count (w : warning) : nat :=
  match w with DUPLICATE_FIELDS _ n _ => n end.

(** The error dictionaries assigned to [audit.error], one constructor per
    dictionary literal of the source; the constructor is the ["code"]. *)
Inductive error_obj :=
| EMPTY_SELECTION (message : string)
| INVALID_FIELD_ID (invalid_field_ids : list string) (message : string)
| FIELD_NOT_FOUND (unknown_field_ids available_fields : list string)
    (message : string)
| MULTI_SOURCE_NOT_ALLOWED (sources_found : list string)
    (fields_by_source : odict (list string)) (message recommendation : string)
| INVALID_SOURCE_NAME (source_value : string) (message : string).

Definition error_code (e : error_obj) : string :=
  match e with
  | EMPTY_SELECTION _ => "EMPTY_SELECTION"
  | INVALID_FIELD_ID _ _ => "INVALID_FIELD_ID"
  | FIELD_NOT_FOUND _ _ _ => "FIELD_NOT_FOUND"
  | MULTI_SOURCE_NOT_ALLOWED _ _ _ _ => "MULTI_SOURCE_NOT_ALLOWED"
  | INVALID_SOURCE_NAME _ _ => "INVALID_SOURCE_NAME"
  end.

(** [validator.ValidationResult] *)
Record ValidationResult := mkValidationResult {
  metaquery_version : string;
  schema_version : Z;
  timestamp : string;
  decision : string;
  status : string;
  version : string;
  source : option string;
  fields_selected : list string;
  controls : odict string;
  warnings : list warning;
  error : option error_obj;
}.

(** [ValidationResult(metaquery_version=mv)]: every other attribute takes its
    default; [now] is what the [timestamp] factory reads from the clock. *)
Definition new_ValidationResult (now mv : string) : ValidationResult :=
  mkValidationResult mv 1 now "BLOCK" "ERROR" "V1" None [] [] [] None.

(** Attribute assignments on the audit record. *)
Definition set_fields_selected (a : ValidationResult) (l : list string) :=
  mkValidationResult (metaquery_version a) (schema_version a) (timestamp a)
    (decision a) (status a) (version a) (source a) l (controls a)
    (warnings a) (error a).
Definition set_control (a : ValidationResult) (k v : string) :=
  mkValidationResult (metaquery_version a) (schema_version a) (timestamp a)
    (decision a) (status a) (version a) (source a) (fields_selected a)
    (odict.set (controls a) k v) (warnings a) (error a).
Definition append_warning (a : ValidationResult) (w : warning) :=
  mkValidationResult (metaquery_version a) (schema_version a) (timestamp a)
    (decision a) (status a) (version a) (source a) (fields_selected a)
    (controls a) (warnings a ++ [w]) (error a).
Definition set_error (a : ValidationResult) (e : error_obj) :=
  mkValidationResult (metaquery_version a) (schema_version a) (timestamp a)
    (decision a) (status a) (version a) (source a) (fields_selected a)
    (controls a) (warnings a) (Some e).
Definition set_source (a : ValidationResult) (s : string) :=
  mkValidationResult (metaquery_version a) (schema_version a) (timestamp a)
    (decision a) (status a) (version a) (Some s) (fields_selected a)
    (controls a) (warnings a) (error a).
Definition set_decision (a : ValidationResult) (d : string) :=
  mkValidationResult (metaquery_version a) (schema_version a) (timestamp a)
    d (status a) (version a) (source a) (fields_selected a)
    (controls a) (warnings a) (error a).
Definition set_status (a : ValidationResult) (s : string) :=
  mkValidationResult (metaquery_version a) (schema_version a) (timestamp a)
    (decision a) s (version a) (source a) (fields_selected a)
    (controls a) (warnings a) (error a).
Definition set_warnings (a : ValidationResult) (ws : list warning) :=
  mkValidationResult (metaquery_version a) (schema_version a) (timestamp a)
    (decision a) (status a) (version a) (source a) (fields_selected a)
    (controls a) ws (error a).
Definition set_timestamp (a : ValidationResult) (t : string) :=
  mkValidationResult (metaquery_version a) (schema_version a) t
    (decision a) (status a) (version a) (source a) (fields_selected a)
    (controls a) (warnings a) (error a).

(** ** Exceptions *)

Inductive exn :=
| KeyError (k : string)
| StopIteration
| TypeError.

Inductive outcome (A : Type) :=
| Return (a : A)
| Raise (e : exn).
Arguments Return {A} a.
Arguments Raise {A} e.

Global Instance outcome_ret : MRet outcome := @Return.
Global Instance outcome_bind : MBind outcome := λ A B f m,
  match m with
  | Return a => f a
  | Raise e => Raise e
  end.

(** ** The validator *)

(** [sep.join(l)] *)
Fixpoint join (sep : string) (l : list string) : string :=
  match l with
  | [] => ""
  | [s] => s
  | s :: l' => s +:+ sep +:+ join sep l'
  end.

(** [sorted(l)] on strings *)
Definition sorted (l : list string) : list string := merge_sort String.le l.

(** [_finalize] *)
Definition _finalize (audit : ValidationResult) : ValidationResult :=
  let audit :=
    if decide (decision audit ≠ "ALLOW") then set_decision audit "BLOCK"
    else audit in
  let audit :=
    if decide (status audit ≠ "OK") then set_status audit "ERROR"
    else audit in
  audit.

(** [[fid for fid in selected_field_ids if not FIELD_ID_RE.match(fid)]] *)
Definition invalid_ids_of (selected_field_ids : list string) : list string :=
  filter (λ fid, ¬ FIELD_ID_RE fid) selected_field_ids.

(** [[fid for fid in selected_field_ids if fid not in fields_by_id]] *)
Definition unknown_of (fields_by_id : gmap string Field)
    (selected_field_ids : list string) : list string :=
  filter (λ fid, fields_by_id !! fid = None) selected_field_ids.

(** The de-duplication loop (Rule 4), started from the given values of
    [deduped], [seen] and [duplicates]. *)
Fixpoint dedupe_loop (fids : list string) (deduped : list string)
    (seen : gset string) (duplicates : odict nat)
    : list string * gset string * odict nat :=
  match fids with
  | [] => (deduped, seen, duplicates)
  | fid :: rest =>
      if decide (fid ∈ seen) then
        dedupe_loop rest deduped seen
          (odict.set duplicates fid (default 1 (odict.get duplicates fid) + 1))
      else
        dedupe_loop rest (deduped ++ [fid]) (seen ∪ {[fid]}) duplicates
  end.

Definition duplicate_message (fid : string) (count : nat) : string :=
  "field_id '" +:+ fid +:+ "' appears " +:+ pretty count
  +:+ " times. Auto-deduplicated to single occurrence.".

(** [for fid, count in duplicates.items(): audit.warnings.append({...})] *)
Fixpoint append_duplicate_warnings (audit : ValidationResult)
    (items : odict nat) : ValidationResult :=
  match items with
  | [] => audit
  | (fid, count) :: rest =>
      append_duplicate_warnings
        (append_warning audit
           (DUPLICATE_FIELDS fid count (duplicate_message fid count)))
        rest
  end.

(** [sources.setdefault(src, []).append(fid)] *)
Definition setdefault_append (sources : odict (list string))
    (src fid : string) : odict (list string) :=
  match odict.get sources src with
  | Some l => odict.set sources src (l ++ [fid])
  | None => odict.set sources src ([] ++ [fid])
  end.

(** The grouping loop (Rule 2); the subscript [fields_by_id[fid]] raises
    [KeyError] on a missing key. *)
Fixpoint group_loop (fields_by_id : gmap string Field) (deduped : list string)
    (sources : odict (list string)) : outcome (odict (list string)) :=
  match deduped with
  | [] => Return sources
  | fid :: rest =>
      match fields_by_id !! fid with
      | None => Raise (KeyError fid)
      | Some f =>
          group_loop fields_by_id rest
            (setdefault_append sources (datatable_id f) fid)
      end
  end.

(** [next(iter(d.keys()))] *)
Definition next_iter_keys {V} (d : odict V) : outcome string :=
  match odict.keys d with
  | k :: _ => Return k
  | [] => Raise StopIteration
  end.

Definition validate_v1 (now : string) (fields_by_id : gmap string Field)
    (selected_field_ids : list string) (metaquery_version : string)
    : outcome (list string * ValidationResult) :=
  let audit := new_ValidationResult now metaquery_version in
  let audit := set_fields_selected audit selected_field_ids in
  (* Rule 1: non-empty selection *)
  if decide (length selected_field_ids = 0) then
    let audit := set_control audit "non_empty_selection" "FAIL" in
    let audit := set_error audit (EMPTY_SELECTION
      "No fields selected in selection.yml. At least one field is required.") in
    Return (selected_field_ids, _finalize audit)
  else
  let audit := set_control audit "non_empty_selection" "PASS" in
  (* field id format *)
  let invalid_ids := invalid_ids_of selected_field_ids in
  if decide (invalid_ids ≠ []) then
    let audit := set_control audit "all_fields_exist" "FAIL" in
    let audit := set_error audit (INVALID_FIELD_ID invalid_ids
      "field_id must be alphanumeric + underscore only.") in
    Return (selected_field_ids, _finalize audit)
  else
  (* field existence *)
  let unknown := unknown_of fields_by_id selected_field_ids in
  if decide (unknown ≠ []) then
    let audit := set_control audit "all_fields_exist" "FAIL" in
    let audit := set_error audit (FIELD_NOT_FOUND unknown
      (sorted (map_to_list fields_by_id).*1)
      ("field_id(s) not defined in fields.yml: " +:+ join ", " unknown)) in
    Return (selected_field_ids, _finalize audit)
  else
  let audit := set_control audit "all_fields_exist" "PASS" in
  (* Rule 4: auto-dedupe with warnings *)
  let '(deduped, seen, duplicates) :=
    dedupe_loop selected_field_ids [] ∅ [] in
  let audit :=
    if decide (duplicates ≠ []) then
      let audit := set_control audit "no_duplicates" "PASS" in
      append_duplicate_warnings audit duplicates
    else set_control audit "no_duplicates" "PASS" in
  (* Rule 2: single source *)
  sources ← group_loop fields_by_id deduped [];
  if decide (length sources ≠ 1) then
    let audit := set_control audit "single_source" "FAIL" in
    let audit := set_error audit (MULTI_SOURCE_NOT_ALLOWED
      (sorted (odict.keys sources)) sources
      "Fields span multiple sources. V1 restriction: single-source queries only."
      "Create a pre-validated view (V2) or define explicit joins (V3).") in
    Return (deduped, _finalize audit)
  else
  let audit := set_control audit "single_source" "PASS" in
  only_source ← next_iter_keys sources;
  (* datatable_id format *)
  if decide (¬ SOURCE_RE only_source) then
    let audit := set_control audit "valid_source_name" "FAIL" in
    let audit := set_error audit (INVALID_SOURCE_NAME only_source
      "datatable_id must match pattern ^[A-Z0-9_]+$") in
    Return (deduped, _finalize audit)
  else
  let audit := set_control audit "valid_source_name" "PASS" in
  let audit := set_source audit only_source in
  let audit := set_decision audit "ALLOW" in
  let audit := set_status audit "OK" in
  let audit := set_fields_selected audit deduped in
  Return (deduped, _finalize audit).

(** ** The catalog of the test-suite *)

Definition _fields : gmap string Field :=
  <["model_id" := mkField "model_id" "MODELS" "model_id" (Some "Model ID")]>
  (<["run_date" := mkField "run_date" "MODELS" "run_date" (Some "Run Date")]>
  (<["pd" := mkField "pd" "MODELS" "pd" (Some "Probability of Default")]>
  (<["customer_age" :=
       mkField "customer_age" "CUSTOMERS" "age" (Some "Customer Age")]> ∅))).

(** ** What the specification calls the de-duplicated selection *)

(** The first occurrence of every element, in the order of the list. *)
Fixpoint first_occurrences (l : list string) : list string :=
  match l with
  | [] => []
  | x :: l' => x :: filter (λ y, y ≠ x) (first_occurrences l')
  end.

(** Total number of occurrences of [x] in [l]. *)
Definition occurrences (x : string) (l : list string) : nat :=
  length (filter (λ y, y = x) l).

(** * Vocabulary of the specification and of the proofs *)

(** Every character of [s] belongs to the class. *)
Fixpoint all_in_class (cls : ascii → bool) (s : string) : bool :=
  match s with
  | "" => true
  | String c s' => cls c && all_in_class cls s'
  end.

(** [deduped] and [duplicates] when the loop of Rule 4 ends. *)
Definition deduped_of (selected_field_ids : list string) : list string :=
  (dedupe_loop selected_field_ids [] ∅ []).1.1.

Definition duplicates_of (selected_field_ids : list string) : odict nat :=
  (dedupe_loop selected_field_ids [] ∅ []).2.

(** [duplicates] after the prefix [pre] of the selection has been scanned:
    one key per id seen at least twice, mapped to its number of occurrences. *)
Definition dups_inv (pre : list string) (dups : odict nat) : Prop :=
  NoDup (odict.keys dups) ∧
  ∀ k, odict.get dups k =
       if decide (2 ≤ occurrences k pre)%nat then Some (occurrences k pre)
       else None.

(** The source table of a field id, when the catalog knows it. *)
Definition source_of (fields_by_id : gmap string Field) (fid : string)
    : option string :=
  datatable_id <$> fields_by_id !! fid.

(** [sources] after the prefix [pre] of the de-duplicated list has been
    grouped: the keys are the sources of [pre] in order of first encounter,
    and each key maps to the ids of [pre] it owns, in the order of [pre]. *)
Definition groups_inv (fields_by_id : gmap string Field) (pre : list string)
    (sources : odict (list string)) : Prop :=
  odict.keys sources = first_occurrences (omap (source_of fields_by_id) pre) ∧
  ∀ k, odict.get sources k =
       let l := filter (λ fid, source_of fields_by_id fid = Some k) pre in
       if decide (l = []) then None else Some l.

(** The warnings appended for the items of [duplicates], in their order. *)
Definition duplicate_warnings (duplicates : odict nat) : list warning :=
  (λ '(fid, count), DUPLICATE_FIELDS fid count (duplicate_message fid count))
    <$> duplicates.

(** The audit of a blocked call. *)
Definition blocked (now mv : string) (sel : list string)
    (ctrls : odict string) (ws : list warning) (e : error_obj)
    : ValidationResult :=
  mkValidationResult mv 1 now "BLOCK" "ERROR" "V1" None sel ctrls ws (Some e).

(** The audit of an allowed call. *)
Definition allowed (now mv : string) (src : string) (deduped : list string)
    (ws : list warning) : ValidationResult :=
  mkValidationResult mv 1 now "ALLOW" "OK" "V1" (Some src) deduped
    [("non_empty_selection", "PASS"); ("all_fields_exist", "PASS");
     ("no_duplicates", "PASS"); ("single_source", "PASS");
     ("valid_source_name", "PASS")] ws None.

(** The six [return] statements of [validate_v1]: the path condition of
    each, and the pair it returns in closed form. *)
Inductive validate_v1_exit (now : string) (c : gmap string Field)
    (sel : list string) (mv : string)
    : list string * ValidationResult → Prop :=
| exit_empty :
    sel = [] →
    validate_v1_exit now c sel mv
      (sel, blocked now mv sel [("non_empty_selection", "FAIL")] []
         (EMPTY_SELECTION
            "No fields selected in selection.yml. At least one field is required."))
| exit_invalid_field_id :
    sel ≠ [] →
    invalid_ids_of sel ≠ [] →
    validate_v1_exit now c sel mv
      (sel, blocked now mv sel
         [("non_empty_selection", "PASS"); ("all_fields_exist", "FAIL")] []
         (INVALID_FIELD_ID (invalid_ids_of sel)
            "field_id must be alphanumeric + underscore only."))
| exit_field_not_found :
    sel ≠ [] →
    invalid_ids_of sel = [] →
    unknown_of c sel ≠ [] →
    validate_v1_exit now c sel mv
      (sel, blocked now mv sel
         [("non_empty_selection", "PASS"); ("all_fields_exist", "FAIL")] []
         (FIELD_NOT_FOUND (unknown_of c sel) (sorted (map_to_list c).*1)
            ("field_id(s) not defined in fields.yml: "
             +:+ join ", " (unknown_of c sel))))
| exit_multi_source sources :
    sel ≠ [] →
    invalid_ids_of sel = [] →
    unknown_of c sel = [] →
    group_loop c (deduped_of sel) [] = Return sources →
    length sources ≠ 1 →
    validate_v1_exit now c sel mv
      (deduped_of sel, blocked now mv sel
         [("non_empty_selection", "PASS"); ("all_fields_exist", "PASS");
          ("no_duplicates", "PASS"); ("single_source", "FAIL")]
         (duplicate_warnings (duplicates_of sel))
         (MULTI_SOURCE_NOT_ALLOWED (sorted (odict.keys sources)) sources
            "Fields span multiple sources. V1 restriction: single-source queries only."
            "Create a pre-validated view (V2) or define explicit joins (V3)."))
| exit_invalid_source_name only_source ids :
    sel ≠ [] →
    invalid_ids_of sel = [] →
    unknown_of c sel = [] →
    group_loop c (deduped_of sel) [] = Return [(only_source, ids)] →
    ¬ SOURCE_RE only_source →
    validate_v1_exit now c sel mv
      (deduped_of sel, blocked now mv sel
         [("non_empty_selection", "PASS"); ("all_fields_exist", "PASS");
          ("no_duplicates", "PASS"); ("single_source", "PASS");
          ("valid_source_name", "FAIL")]
         (duplicate_warnings (duplicates_of sel))
         (INVALID_SOURCE_NAME only_source
            "datatable_id must match pattern ^[A-Z0-9_]+$"))
| exit_allow only_source ids :
    sel ≠ [] →
    invalid_ids_of sel = [] →
    unknown_of c sel = [] →
    group_loop c (deduped_of sel) [] = Return [(only_source, ids)] →
    SOURCE_RE only_source →
    validate_v1_exit now c sel mv
      (deduped_of sel,
       allowed now mv only_source (deduped_of sel)
         (duplicate_warnings (duplicates_of sel))).

(** What remains of [validate_v1] once the first three checks have passed
    and the de-duplication loop has run, with the audit written out. *)
Definition after_dedupe (now : string) (c : gmap string Field)
    (sel : list string) (mv : string)
    : outcome (list string * ValidationResult) :=
  sources ← group_loop c (deduped_of sel) [];
  if decide (length sources ≠ 1) then
    Return (deduped_of sel, blocked now mv sel
         [("non_empty_selection", "PASS"); ("all_fields_exist", "PASS");
          ("no_duplicates", "PASS"); ("single_source", "FAIL")]
         (duplicate_warnings (duplicates_of sel))
         (MULTI_SOURCE_NOT_ALLOWED (sorted (odict.keys sources)) sources
            "Fields span multiple sources. V1 restriction: single-source queries only."
            "Create a pre-validated view (V2) or define explicit joins (V3)."))
  else
    only_source ← next_iter_keys sources;
    if decide (¬ SOURCE_RE only_source) then
      Return (deduped_of sel, blocked now mv sel
         [("non_empty_selection", "PASS"); ("all_fields_exist", "PASS");
          ("no_duplicates", "PASS"); ("single_source", "PASS");
          ("valid_source_name", "FAIL")]
         (duplicate_warnings (duplicates_of sel))
         (INVALID_SOURCE_NAME only_source
            "datatable_id must match pattern ^[A-Z0-9_]+$"))
    else
      Return (deduped_of sel,
       allowed now mv only_source (deduped_of sel)
         (duplicate_warnings (duplicates_of sel))).

(** The claim as the specification words it: a non-empty selection of
    well-formed, known ids that share the source [s] is allowed. *)
Definition allow_on_single_source (now : string) (c : gmap string Field)
    (sel : list string) (mv : string) : Prop :=
  ∀ s,
    sel ≠ [] →
    Forall (λ fid, FIELD_ID_RE fid) sel →
    Forall (λ fid, ∃ f, c !! fid = Some f ∧ datatable_id f = s) sel →
    ∃ a, validate_v1 now c sel mv = Return (first_occurrences sel, a) ∧
         decision a = "ALLOW" ∧ status a = "OK" ∧ source a = Some s ∧
         fields_selected a = first_occurrences sel.

(** A catalog that [load_fields] accepts: the loader only asks for
    non-empty strings, so a lower-case table name gets in. *)
Definition lowercase_fields : gmap string Field :=
  {["pd" := mkField "pd" "models" "pd" None]}.

(** The six checks of the validator. *)
Inductive check :=
| non_empty_selection
| field_id_syntax
| field_existence
| no_duplicates
| single_source
| valid_source_name.

(** The order in which the source runs them. *)
Definition check_order : list check :=
  [non_empty_selection; field_id_syntax; field_existence; no_duplicates;
   single_source; valid_source_name].

(** The key of [audit.controls] a check writes to. *)
Definition control_key (ch : check) : string :=
  match ch with
  | non_empty_selection => "non_empty_selection"
  | field_id_syntax => "all_fields_exist"
  | field_existence => "all_fields_exist"
  | no_duplicates => "no_duplicates"
  | single_source => "single_source"
  | valid_source_name => "valid_source_name"
  end.

(** The check whose failure attaches the given error. *)
Definition failing_check (e : error_obj) : check :=
  match e with
  | EMPTY_SELECTION _ => non_empty_selection
  | INVALID_FIELD_ID _ _ => field_id_syntax
  | FIELD_NOT_FOUND _ _ _ => field_existence
  | MULTI_SOURCE_NOT_ALLOWED _ _ _ _ => single_source
  | INVALID_SOURCE_NAME _ _ => valid_source_name
  end.

(** The checks a call evaluates before it returns, read off the guards of
    [validate_v1]: each [return] is preceded by a prefix of [check_order]. *)
Definition checks_executed (fields_by_id : gmap string Field)
    (selected_field_ids : list string) : list check :=
  if decide (length selected_field_ids = 0) then take 1 check_order
  else if decide (invalid_ids_of selected_field_ids ≠ []) then
    take 2 check_order
  else if decide (unknown_of fields_by_id selected_field_ids ≠ []) then
    take 3 check_order
  else
    match group_loop fields_by_id (deduped_of selected_field_ids) [] with
    | Return sources =>
        if decide (length sources ≠ 1) then take 5 check_order
        else take 6 check_order
    | Raise _ => take 5 check_order
    end.

(** The claim as the specification words it: [controls] has exactly one
    entry per check executed, in execution order. *)
Definition one_control_per_check (now : string) (c : gmap string Field)
    (sel : list string) (mv : string) : Prop :=
  ∀ r a, validate_v1 now c sel mv = Return (r, a) →
         odict.keys (controls a) = control_key <$> checks_executed c sel.

(** The claim as the specification words it: two calls with the same catalog,
    selection and version return equal results.  The two calls read the
    clock separately, hence the two readings. *)
Definition same_inputs_same_result (c : gmap string Field)
    (sel : list string) (mv : string) : Prop :=
  ∀ now1 now2, validate_v1 now1 c sel mv = validate_v1 now2 c sel mv.

(** * The validator over a store of mutable objects

    The same function, statement by statement, with Python's references:
    the catalog, the selection and every container the call creates are
    objects in a store, variables and attributes hold locations, and
    in-place updates ([append], [add], item assignment, attribute
    assignment) write to the store. *)

Definition loc := nat.

(** The attributes of a [ValidationResult] instance; the containers are
    references. *)
Record audit_obj := mkAuditObj {
  o_metaquery_version : string;
  o_schema_version : Z;
  o_timestamp : string;
  o_decision : string;
  o_status : string;
  o_version : string;
  o_source : option string;
  o_fields_selected : loc;
  o_controls : loc;
  o_warnings : loc;
  o_error : option error_obj;
}.

Inductive obj :=
| OList (items : list string)
| OFields (fields : gmap string Field)
| OSet (elems : gset string)
| OCounts (counts : odict nat)
| OGroups (groups : odict loc)
| OControls (ctrls : odict string)
| OWarnings (ws : list warning)
| OAudit (a : audit_obj).

(** A store is the sequence of the objects allocated so far; a location is
    an index into it. *)
Definition M (A : Type) : Type := list obj → outcome (A * list obj).

Definition ret {A} (a : A) : M A := λ σ, Return (a, σ).
Definition seq_ {A B} (m : M A) (f : A → M B) : M B := λ σ,
  match m σ with
  | Return (a, σ') => f a σ'
  | Raise e => Raise e
  end.
Definition raise {A} (e : exn) : M A := λ _, Raise e.

Notation "x ⇐ m ;; k" := (seq_ m (λ x, k))
  (at level 100, m at next level, right associativity,
   format "'[v' x  ⇐  m  ;;  '/' k ']'").
Notation "m ;;; k" := (seq_ m (λ _, k))
  (at level 100, right associativity).

Definition alloc (o : obj) : M loc := λ σ, Return (length σ, σ ++ [o]).
Definition load (l : loc) : M obj := λ σ,
  match σ !! l with
  | Some o => Return (o, σ)
  | None => Raise TypeError
  end.
Definition store (l : loc) (o : obj) : M unit := λ σ,
  Return ((), <[l := o]> σ).

Definition get_list (l : loc) : M (list string) :=
  o ⇐ load l;; match o with OList xs => ret xs | _ => raise TypeError end.
Definition get_fields (l : loc) : M (gmap string Field) :=
  o ⇐ load l;; match o with OFields m => ret m | _ => raise TypeError end.
Definition get_set (l : loc) : M (gset string) :=
  o ⇐ load l;; match o with OSet s => ret s | _ => raise TypeError end.
Definition get_counts (l : loc) : M (odict nat) :=
  o ⇐ load l;; match o with OCounts d => ret d | _ => raise TypeError end.
Definition get_groups (l : loc) : M (odict loc) :=
  o ⇐ load l;; match o with OGroups d => ret d | _ => raise TypeError end.
Definition get_controls (l : loc) : M (odict string) :=
  o ⇐ load l;; match o with OControls d => ret d | _ => raise TypeError end.
Definition get_warnings (l : loc) : M (list warning) :=
  o ⇐ load l;; match o with OWarnings ws => ret ws | _ => raise TypeError end.
Definition get_audit (l : loc) : M audit_obj :=
  o ⇐ load l;; match o with OAudit a => ret a | _ => raise TypeError end.

(** [ValidationResult(metaquery_version=mv)] *)
Definition new_audit (now mv : string) : M loc :=
  fs ⇐ alloc (OList []);;
  cs ⇐ alloc (OControls []);;
  ws ⇐ alloc (OWarnings []);;
  alloc (OAudit (mkAuditObj mv 1 now "BLOCK" "ERROR" "V1" None fs cs ws None)).

(** [audit.fields_selected = l] *)
Definition assign_fields_selected (audit l : loc) : M unit :=
  a ⇐ get_audit audit;;
  store audit (OAudit (mkAuditObj (o_metaquery_version a) (o_schema_version a)
    (o_timestamp a) (o_decision a) (o_status a) (o_version a) (o_source a)
    l (o_controls a) (o_warnings a) (o_error a))).
(** [audit.error = e] *)
Definition assign_error (audit : loc) (e : error_obj) : M unit :=
  a ⇐ get_audit audit;;
  store audit (OAudit (mkAuditObj (o_metaquery_version a) (o_schema_version a)
    (o_timestamp a) (o_decision a) (o_status a) (o_version a) (o_source a)
    (o_fields_selected a) (o_controls a) (o_warnings a) (Some e))).
(** [audit.source = s] *)
Definition assign_source (audit : loc) (s : string) : M unit :=
  a ⇐ get_audit audit;;
  store audit (OAudit (mkAuditObj (o_metaquery_version a) (o_schema_version a)
    (o_timestamp a) (o_decision a) (o_status a) (o_version a) (Some s)
    (o_fields_selected a) (o_controls a) (o_warnings a) (o_error a))).
(** [audit.decision = d] *)
Definition assign_decision (audit : loc) (d : string) : M unit :=
  a ⇐ get_audit audit;;
  store audit (OAudit (mkAuditObj (o_metaquery_version a) (o_schema_version a)
    (o_timestamp a) d (o_status a) (o_version a) (o_source a)
    (o_fields_selected a) (o_controls a) (o_warnings a) (o_error a))).
(** [audit.status = s] *)
Definition assign_status (audit : loc) (s : string) : M unit :=
  a ⇐ get_audit audit;;
  store audit (OAudit (mkAuditObj (o_metaquery_version a) (o_schema_version a)
    (o_timestamp a) (o_decision a) s (o_version a) (o_source a)
    (o_fields_selected a) (o_controls a) (o_warnings a) (o_error a))).
(** [audit.controls[k] = v] *)
Definition assign_control (audit : loc) (k v : string) : M unit :=
  a ⇐ get_audit audit;;
  d ⇐ get_controls (o_controls a);;
  store (o_controls a) (OControls (odict.set d k v)).
(** [audit.warnings.append(w)] *)
Definition warnings_append (audit : loc) (w : warning) : M unit :=
  a ⇐ get_audit audit;;
  ws ⇐ get_warnings (o_warnings a);;
  store (o_warnings a) (OWarnings (ws ++ [w])).

(** [_finalize(audit)] *)
Definition finalize_store (audit : loc) : M unit :=
  a ⇐ get_audit audit;;
  (if decide (o_decision a ≠ "ALLOW") then assign_decision audit "BLOCK"
   else ret ());;;
  a ⇐ get_audit audit;;
  if decide (o_status a ≠ "OK") then assign_status audit "ERROR" else ret ().

(** The de-duplication loop over the objects [deduped], [seen] and
    [duplicates]. *)
Fixpoint dedupe_loop_store (fids : list string) (deduped seen duplicates : loc)
    : M unit :=
  match fids with
  | [] => ret ()
  | fid :: rest =>
      s ⇐ get_set seen;;
      (if decide (fid ∈ s) then
         d ⇐ get_counts duplicates;;
         store duplicates
           (OCounts (odict.set d fid (default 1 (odict.get d fid) + 1)))
       else
         store seen (OSet (s ∪ {[fid]}));;;
         xs ⇐ get_list deduped;;
         store deduped (OList (xs ++ [fid])));;;
      dedupe_loop_store rest deduped seen duplicates
  end.

Fixpoint append_duplicate_warnings_store (audit : loc) (items : odict nat)
    : M unit :=
  match items with
  | [] => ret ()
  | (fid, count) :: rest =>
      warnings_append audit
        (DUPLICATE_FIELDS fid count (duplicate_message fid count));;;
      append_duplicate_warnings_store audit rest
  end.

(** The grouping loop over the object [sources], whose values are
    references to lists.  ([setdefault] is given a new empty list at every
    call; the one it does not keep is unreachable at once and is not
    allocated here.) *)
Fixpoint group_loop_store (fields_by_id : loc) (fids : list string)
    (sources : loc) : M unit :=
  match fids with
  | [] => ret ()
  | fid :: rest =>
      c ⇐ get_fields fields_by_id;;
      match c !! fid with
      | None => raise (KeyError fid)
      | Some f =>
          d ⇐ get_groups sources;;
          l ⇐ match odict.get d (datatable_id f) with
              | Some l => ret l
              | None =>
                  l ⇐ alloc (OList []);;
                  store sources (OGroups (odict.set d (datatable_id f) l));;;
                  ret l
              end;;
          xs ⇐ get_list l;;
          store l (OList (xs ++ [fid]));;;
          group_loop_store fields_by_id rest sources
      end
  end.

(** [{k: v for k, v in sources.items()}], read out for the error object *)
Fixpoint read_groups (d : odict loc) : M (odict (list string)) :=
  match d with
  | [] => ret []
  | (k, l) :: d' =>
      xs ⇐ get_list l;;
      rest ⇐ read_groups d';;
      ret ((k, xs) :: rest)
  end.

Definition validate_v1_store (now : string)
    (fields_by_id selected_field_ids : loc) (metaquery_version : string)
    : M (loc * loc) :=
  audit ⇐ new_audit now metaquery_version;;
  sel ⇐ get_list selected_field_ids;;
  copy ⇐ alloc (OList sel);;
  assign_fields_selected audit copy;;;
  sel ⇐ get_list selected_field_ids;;
  if decide (length sel = 0) then
    assign_control audit "non_empty_selection" "FAIL";;;
    assign_error audit (EMPTY_SELECTION
      "No fields selected in selection.yml. At least one field is required.");;;
    finalize_store audit;;;
    ret (selected_field_ids, audit)
  else
  assign_control audit "non_empty_selection" "PASS";;;
  sel ⇐ get_list selected_field_ids;;
  let invalid_ids := invalid_ids_of sel in
  if decide (invalid_ids ≠ []) then
    assign_control audit "all_fields_exist" "FAIL";;;
    assign_error audit (INVALID_FIELD_ID invalid_ids
      "field_id must be alphanumeric + underscore only.");;;
    finalize_store audit;;;
    ret (selected_field_ids, audit)
  else
  sel ⇐ get_list selected_field_ids;;
  c ⇐ get_fields fields_by_id;;
  let unknown := unknown_of c sel in
  if decide (unknown ≠ []) then
    assign_control audit "all_fields_exist" "FAIL";;;
    c ⇐ get_fields fields_by_id;;
    assign_error audit (FIELD_NOT_FOUND unknown
      (sorted (map_to_list c).*1)
      ("field_id(s) not defined in fields.yml: " +:+ join ", " unknown));;;
    finalize_store audit;;;
    ret (selected_field_ids, audit)
  else
  assign_control audit "all_fields_exist" "PASS";;;
  deduped ⇐ alloc (OList []);;
  seen ⇐ alloc (OSet ∅);;
  duplicates ⇐ alloc (OCounts []);;
  sel ⇐ get_list selected_field_ids;;
  dedupe_loop_store sel deduped seen duplicates;;;
  dups ⇐ get_counts duplicates;;
  (if decide (dups ≠ []) then
     assign_control audit "no_duplicates" "PASS";;;
     dups ⇐ get_counts duplicates;;
     append_duplicate_warnings_store audit dups
   else assign_control audit "no_duplicates" "PASS");;;
  sources ⇐ alloc (OGroups []);;
  fids ⇐ get_list deduped;;
  group_loop_store fields_by_id fids sources;;;
  d ⇐ get_groups sources;;
  if decide (length d ≠ 1) then
    assign_control audit "single_source" "FAIL";;;
    d ⇐ get_groups sources;;
    by_source ⇐ read_groups d;;
    assign_error audit (MULTI_SOURCE_NOT_ALLOWED
      (sorted (odict.keys d)) by_source
      "Fields span multiple sources. V1 restriction: single-source queries only."
      "Create a pre-validated view (V2) or define explicit joins (V3).");;;
    finalize_store audit;;;
    ret (deduped, audit)
  else
  assign_control audit "single_source" "PASS";;;
  d ⇐ get_groups sources;;
  only_source ⇐ match odict.keys d with
                | k :: _ => ret k
                | [] => raise StopIteration
                end;;
  if decide (¬ SOURCE_RE only_source) then
    assign_control audit "valid_source_name" "FAIL";;;
    assign_error audit (INVALID_SOURCE_NAME only_source
      "datatable_id must match pattern ^[A-Z0-9_]+$");;;
    finalize_store audit;;;
    ret (deduped, audit)
  else
  assign_control audit "valid_source_name" "PASS";;;
  assign_source audit only_source;;;
  assign_decision audit "ALLOW";;;
  assign_status audit "OK";;;
  fids ⇐ get_list deduped;;
  copy ⇐ alloc (OList fids);;
  assign_fields_selected audit copy;;;
  finalize_store audit;;;
  ret (deduped, audit).

(** What the caller sees through the returned references. *)
Definition read_list (σ : list obj) (l : loc) : option (list string) :=
  match σ !! l with Some (OList xs) => Some xs | _ => None end.
Definition read_controls (σ : list obj) (l : loc) : option (odict string) :=
  match σ !! l with Some (OControls d) => Some d | _ => None end.
Definition read_warnings (σ : list obj) (l : loc) : option (list warning) :=
  match σ !! l with Some (OWarnings ws) => Some ws | _ => None end.

Definition read_audit (σ : list obj) (l : loc) : option ValidationResult :=
  match σ !! l with
  | Some (OAudit a) =>
      fs ← read_list σ (o_fields_selected a);
      cs ← read_controls σ (o_controls a);
      ws ← read_warnings σ (o_warnings a);
      Some (mkValidationResult (o_metaquery_version a) (o_schema_version a)
              (o_timestamp a) (o_decision a) (o_status a) (o_version a)
              (o_source a) fs cs ws (o_error a))
  | _ => None
  end.

Definition read_result (σ : list obj) (r : loc * loc)
    : option (list string * ValidationResult) :=
  xs ← read_list σ r.1;
  a ← read_audit σ r.2;
  Some (xs, a).

(** The dictionary [sources] of the store: the i-th key refers to the i-th
    list allocated after [base]. *)
Fixpoint loc_dict (base : loc) (ks : list string) : odict loc :=
  match ks with
  | [] => []
  | k :: ks => (k, base) :: loc_dict (S base) ks
  end.

(** A store with the test catalog and a selection, and some other
    object. *)
Definition example_store : list obj :=
  [OFields _fields; OList ["model_id"; "model_id"; "pd"]; OList ["other"]].

(** ** Conditions on a catalog and a selection *)

(** Every id of [sel] is a key of the catalog and belongs to table [s]. *)
Definition all_from (c : gmap string Field) (s : string) (sel : list string)
    : Prop :=
  Forall (λ fid, ∃ f, c !! fid = Some f ∧ datatable_id f = s) sel.

(** Two ids of [sel] belong to different tables. *)
Definition spans_sources (c : gmap string Field) (sel : list string) : Prop :=
  ∃ fid1 fid2 f1 f2,
    fid1 ∈ sel ∧ fid2 ∈ sel ∧ c !! fid1 = Some f1 ∧ c !! fid2 = Some f2 ∧
    datatable_id f1 ≠ datatable_id f2.

(** [audit.error["code"]], when an error is attached *)
Definition code_of (a : ValidationResult) : option string :=
  error_code <$> error a.

(** ** Ids with a final newline *)

(** A non-empty word over [A-Za-z0-9_]: what the message of the validator,
    "field_id must be alphanumeric + underscore only.", asks of an id. *)
Definition is_field_id_word (s : string) : Prop :=
  s ≠ "" ∧ all_in_class field_id_class s = true.

(** The claim as the specification words it: a selection with an id that
    is not such a word is blocked with INVALID_FIELD_ID, and
    [invalid_field_ids] lists exactly the ids that are not, in input order
    and with their repetitions. *)
Definition malformed_ids_blocked (now : string) (c : gmap string Field)
    (sel : list string) (mv : string) : Prop :=
  (∃ fid, fid ∈ sel ∧ ¬ is_field_id_word fid) →
  ∃ a msg,
    validate_v1 now c sel mv = Return (sel, a) ∧
    decision a = "BLOCK" ∧
    error a = Some (INVALID_FIELD_ID
                      (filter (λ fid, ¬ is_field_id_word fid) sel) msg).

(** The id ["pd\n"] and the table name ["MODELS\n"] *)
Definition pd_newline : string := "pd" +:+ String newline "".
Definition models_newline : string := "MODELS" +:+ String newline "".

(** A catalog with that id as a key, on that table. *)
Definition newline_fields : gmap string Field :=
  {[ pd_newline := mkField pd_newline models_newline "m.pd" None ]}.

(** * The loaders ([loader.py])

    The loaders read two YAML files and check their shape.  Reading a file,
    [yaml.safe_load] and [str.strip] are library functions; the loaders are
    given them through [Loader_env]. *)

(** What [yaml.safe_load] returns, as far as the loaders look at it: [None],
    a string, a list, a mapping, or a value of another type.  The loaders
    look up string keys only, so a mapping is given by its string keys. *)
Inductive yaml :=
| YNone
| YStr (s : string)
| YList (items : list yaml)
| YDict (entries : gmap string yaml)
| YOther.

(** [path.read_text(encoding="utf-8")]: the text, [FileNotFoundError], or an
    exception of another class. *)
Inductive file_read :=
| FileText (text : string)
| FileNotFoundError
| FileOtherError.

(** How a loader ends: with a value, with [YamlLoadError(msg)], or with an
    exception of another class, which the loaders let through. *)
Inductive loaded (A : Type) :=
| Loaded (a : A)
| YamlLoadError (msg : string)
| OtherError.
Arguments Loaded {A} a.
Arguments YamlLoadError {A} msg.
Arguments OtherError {A}.

Global Instance loaded_ret : MRet loaded := @Loaded.
Global Instance loaded_bind : MBind loaded := λ A B f m,
  match m with
  | Loaded a => f a
  | YamlLoadError msg => YamlLoadError msg
  | OtherError => OtherError
  end.

Class Loader_env := {
  (** [s.strip()] *)
  strip : string → string;
  (** [Path(p).read_text(encoding="utf-8")], by the path as [str(p)] prints
      it *)
  read_text : string → file_read;
  (** [yaml.safe_load(text)]: the data, or [str(e)] of the [YAMLError] *)
  safe_load : string → string + yaml;
}.

(** [d.get(k)] *)
Definition dict_get (d : gmap string yaml) (k : string) : yaml :=
  default YNone (d !! k).

(** [isinstance(v, str) and v.strip()], the negation of the guard
    [not isinstance(v, str) or not v.strip()] *)
Definition non_empty_str `{Loader_env} (v : yaml) : option string :=
  match v with
  | YStr s => if decide (strip s = "") then None else Some s
  | _ => None
  end.

Definition _load_yaml `{Loader_env} (path : string)
    : loaded (gmap string yaml) :=
  match read_text path with
  | FileNotFoundError => YamlLoadError ("File not found: " +:+ path)
  | FileOtherError => OtherError
  | FileText text =>
      match safe_load text with
      | inl e => YamlLoadError ("Invalid YAML in " +:+ path +:+ ": " +:+ e)
      | inr data =>
          let data := match data with YNone => YDict ∅ | _ => data end in
          match data with
          | YDict d => Loaded d
          | _ =>
              YamlLoadError ("Top-level YAML must be a mapping in " +:+ path)
          end
      end
  end.

(** [isinstance(v, str)] *)
Definition is_str (v : yaml) : bool :=
  match v with YStr _ => true | _ => false end.

(** [v is None] *)
Definition is_None (v : yaml) : bool :=
  match v with YNone => true | _ => false end.

(** [v.strip() if isinstance(v, str) else None] *)
Definition strip_if_str `{Loader_env} (v : yaml) : option string :=
  match v with YStr s => Some (strip s) | _ => None end.

(** The body of the loop of [load_fields] at index [i]. *)
Definition load_fields_item `{Loader_env} (p : string) (i : nat)
    (item : yaml) (out : gmap string Field) : loaded (gmap string Field) :=
  match item with
  | YDict item =>
      let field_id := dict_get item "field_id" in
      let datatable_id := dict_get item "datatable_id" in
      let sql_expr := dict_get item "sql_expr" in
      let label := dict_get item "label" in
      match non_empty_str field_id with
      | None =>
          YamlLoadError ("fields[" +:+ pretty i
                         +:+ "].field_id must be a non-empty string in " +:+ p)
      | Some field_id =>
      match non_empty_str datatable_id with
      | None =>
          YamlLoadError ("fields[" +:+ pretty i
                         +:+ "].datatable_id must be a non-empty string in "
                         +:+ p)
      | Some datatable_id =>
      match non_empty_str sql_expr with
      | None =>
          YamlLoadError ("fields[" +:+ pretty i
                         +:+ "].sql_expr must be a non-empty string in " +:+ p)
      | Some sql_expr =>
          if negb (is_None label) && negb (is_str label) then
            YamlLoadError ("fields[" +:+ pretty i
                           +:+ "].label must be a string if provided in "
                           +:+ p)
          else
            Loaded (<[field_id := mkField (strip field_id)
                                    (strip datatable_id) (strip sql_expr)
                                    (strip_if_str label)]> out)
      end end end
  | _ => YamlLoadError ("fields[" +:+ pretty i +:+ "] must be a mapping in "
                        +:+ p)
  end.

(** [for i, item in enumerate(raw_fields): ...], from index [i] on *)
Fixpoint load_fields_loop `{Loader_env} (p : string) (i : nat)
    (raw_fields : list yaml) (out : gmap string Field)
    : loaded (gmap string Field) :=
  match raw_fields with
  | [] => Loaded out
  | item :: rest =>
      out ← load_fields_item p i item out;
      load_fields_loop p (S i) rest out
  end.

Definition load_fields `{Loader_env} (p : string)
    : loaded (gmap string Field) :=
  data ← _load_yaml p;
  match dict_get data "fields" with
  | YNone => YamlLoadError ("Missing 'fields' key in " +:+ p)
  | YList raw_fields => load_fields_loop p 0 raw_fields ∅
  | _ => YamlLoadError ("'fields' must be a list in " +:+ p)
  end.

(** [for i, item in enumerate(raw_sel): ...], from index [i] on *)
Fixpoint load_selection_loop `{Loader_env} (p : string) (i : nat)
    (raw_sel : list yaml) (out : list string) : loaded (list string) :=
  match raw_sel with
  | [] => Loaded out
  | item :: rest =>
      match non_empty_str item with
      | None =>
          YamlLoadError ("selected_field_ids[" +:+ pretty i
                         +:+ "] must be a non-empty string in " +:+ p)
      | Some item => load_selection_loop p (S i) rest (out ++ [strip item])
      end
  end.

Definition load_selection `{Loader_env} (p : string) : loaded (list string) :=
  data ← _load_yaml p;
  match dict_get data "selected_field_ids" with
  | YNone => YamlLoadError ("Missing 'selected_field_ids' key in " +:+ p)
  | YList raw_sel => load_selection_loop p 0 raw_sel []
  | _ => YamlLoadError ("'selected_field_ids' must be a list in " +:+ p)
  end.

(** ** Vocabulary for the loaders *)

(** The [field_id] an item of [fields] declares, when it is a string. *)
Definition declared_id (item : yaml) : option string :=
  match item with
  | YDict d => match d !! "field_id" with Some (YStr s) => Some s | _ => None end
  | _ => None
  end.

(** ** [str.strip] on ASCII text

    Python's [strip] removes the characters for which [str.isspace] holds
    from both ends; among the ASCII characters these are 9 to 13 and 28
    to 32. *)
Definition isspace (c : ascii) : bool :=
  in_range "009" "013" c || in_range "028" "032" c.

Fixpoint lstrip (s : string) : string :=
  match s with
  | "" => ""
  | String c s' => if isspace c then lstrip s' else s
  end.

Fixpoint rstrip (s : string) : string :=
  match s with
  | "" => ""
  | String c s' =>
      match rstrip s' with
      | "" => if isspace c then "" else String c ""
      | r => String c r
      end
  end.

Definition ascii_strip (s : string) : string := rstrip (lstrip s).

(** * The command line ([cli.py]) *)

(** What [build] does to the outside: panels and text printed on the
    console, files written. *)
Inductive style := red | green.

Inductive event :=
| console_print_panel (text title : string) (st : style)
| console_print (text : string)
| write_text (path content : string).

(** How [build] ends: [typer.Exit(code)], or an exception it does not
    catch. *)
Inductive termination :=
| Exit (code : Z)
| Uncaught.

Class Cli_env := {
  cli_loader_env :: Loader_env;
  (** the reading of the clock when the audit is created *)
  utc_now : string;
  (** [builder.build_sql_v1(source, deduped, fields_by_id)]: the text it
      returns, when it returns; the catalog is the map it is for the
      validator, which leaves out the order of its entries *)
  build_sql_v1 : string → list string → gmap string Field → string;
  (** whether that call raises an exception instead of returning *)
  build_sql_v1_raises : string → list string → gmap string Field → bool;
  (** [json.dumps(audit.__dict__, indent=2, ensure_ascii=False)] *)
  json_dumps_audit : ValidationResult → string;
  (** [json.dumps(audit.error, indent=2, ensure_ascii=False)] *)
  json_dumps_error : error_obj → string;
  (** whether the print or the write [e], attempted after the prints and
      writes [done], raises an exception ([OSError] or [UnicodeEncodeError]
      from [Path.write_text], an error of the console or of [json.dumps])
      instead of completing *)
  effect_raises : list event → event → bool;
}.

(** A command takes the prints and writes completed so far and gives those
    completed when it is over, with its value, or with how the program
    ends if it ends there. *)
Definition cmd (A : Type) : Type :=
  list event → list event * (termination + A).

Definition cmd_ret {A} (a : A) : cmd A := λ done, (done, inr a).

Definition cmd_bind {A B} (m : cmd A) (f : A → cmd B) : cmd B := λ done,
  match m done with
  | (done', inr a) => f a done'
  | (done', inl t) => (done', inl t)
  end.

(** [raise typer.Exit(code)], or an exception that is not caught *)
Definition stop {A} (t : termination) : cmd A := λ done, (done, inl t).

(** A print or a write: it completes and is recorded, or it raises. *)
Definition perform `{Cli_env} (e : event) : cmd unit := λ done,
  if effect_raises done e then (done, inl Uncaught)
  else (done ++ [e], inr ()).

Notation "m ▸ k" := (cmd_bind m (λ _, k))
  (at level 100, right associativity).

Definition warning_message (w : warning) : string :=
  match w with DUPLICATE_FIELDS _ _ m => m end.

(** [s.rstrip("\n")] *)
Fixpoint rstrip_newlines (s : string) : string :=
  match s with
  | "" => ""
  | String c s' =>
      match rstrip_newlines s' with
      | "" => if decide (c = newline) then "" else String c ""
      | r => String c r
      end
  end.

(** [_write_text(path, content)] *)
Definition _write_text `{Cli_env} (path content : string) : cmd unit :=
  perform (write_text path content).

(** [_write_json(path, audit.__dict__)] *)
Definition _write_json `{Cli_env} (path : string) (audit : ValidationResult)
    : cmd unit :=
  perform (write_text path (json_dumps_audit audit +:+ String newline "")).

(** The list [explain] of [build] *)
Definition explain_lines (audit : ValidationResult) (deduped : list string)
    (sql : string) : list string :=
  ["MetaQuery V1 Validation Report";
   "==============================";
   "Decision: " +:+ decision audit;
   "Status: " +:+ status audit;
   "Source: " +:+ default "None" (source audit);
   "Fields: " +:+ pretty (length deduped) +:+ " selected";
   "";
   "Controls:"]
  ++ ((λ kv, "  " +:+ (if decide (kv.2 = "PASS") then "✓" else "✗")
             +:+ " " +:+ kv.1) <$> controls audit)
  ++ (if decide (warnings audit ≠ []) then
        [""; "Warnings:"]
        ++ ((λ w, "  - " +:+ warning_code w +:+ ": " +:+ warning_message w)
            <$> warnings audit)
      else [])
  ++ [""; "Generated SQL:"; "--------------"; rstrip_newlines sql; ""].

(** The body of [build]; every path ends in [raise typer.Exit] or in an
    exception, so that it has no value to return. *)
Definition build_body `{Cli_env} (selection fields : string)
    : cmd Empty_set :=
  match (fields_by_id ← load_fields fields;
         selected ← load_selection selection;
         mret (fields_by_id, selected)) with
  | YamlLoadError e =>
      perform (console_print_panel e "YAML ERROR" red) ▸
      stop (Exit 2)
  | OtherError => stop Uncaught
  | Loaded (fields_by_id, selected) =>
      match validate_v1 utc_now fields_by_id selected "0.1.0" with
      | Raise _ => stop Uncaught
      | Return (deduped, audit) =>
          (* Always write audit.json (even on BLOCK) *)
          _write_json "audit.json" audit ▸
          if decide (decision audit ≠ "ALLOW") then
            let code :=
              match error audit with
              | Some e => error_code e
              | None => "VALIDATION_ERROR"
              end in
            perform (console_print_panel
                       ("ERROR: " +:+ code
                        +:+ String newline "Decision: BLOCK")
                       "VALIDATION" red) ▸
            match error audit with
            | Some e => perform (console_print (json_dumps_error e))
            | None => cmd_ret ()
            end ▸
            stop (Exit 1)
          else
            let source := default "" (source audit) in
            (if build_sql_v1_raises source deduped fields_by_id
             then stop Uncaught else cmd_ret ()) ▸
            let sql := build_sql_v1 source deduped fields_by_id in
            _write_text "query.sql" sql ▸
            _write_text "explain.txt"
              (join (String newline "") (explain_lines audit deduped sql)) ▸
            perform (console_print_panel
                       "OK: query.sql + audit.json + explain.txt generated"
                       "MetaQuery" green) ▸
            stop (Exit 0)
      end
  end.

(** [build], run from the start: the prints and writes it has completed
    when it ends, and how it ends. *)
Definition build `{Cli_env} (selection fields : string)
    : list event * termination :=
  match build_body selection fields [] with
  | (done, inl t) => (done, t)
  | (_, inr x) => match x with end
  end.

(** The paths of the files written, in order. *)
Definition files_written (events : list event) : list string :=
  omap (λ e, match e with write_text path _ => Some path | _ => None end)
       events.

(** ** An environment for the examples

    A disk with four files, a parser that knows their texts, [ascii_strip],
    and a builder that lists its arguments. *)
Definition example_fields_yaml : yaml :=
  YDict {[ "fields" :=
    YList [YDict {[ "field_id" := YStr "pd";
                    "datatable_id" := YStr " MODELS";
                    "sql_expr" := YStr "m.pd" ]};
           YDict {[ "field_id" := YStr "run_date ";
                    "datatable_id" := YStr "MODELS";
                    "sql_expr" := YStr "m.run_date";
                    "label" := YStr " Run date " ]};
           YDict {[ "field_id" := YStr "pd";
                    "datatable_id" := YStr "MODELS";
                    "sql_expr" := YStr "m.pd_12m" ]}] ]}.

Definition example_selection_yaml : yaml :=
  YDict {[ "selected_field_ids" := YList [YStr " pd"; YStr "pd "] ]}.

Definition example_bad_selection_yaml : yaml :=
  YDict {[ "selected_field_ids" := YList [YStr "pd"; YStr "  "; YOther] ]}.

Definition example_unknown_selection_yaml : yaml :=
  YDict {[ "selected_field_ids" := YList [YStr "run_date"] ]}.

Definition example_disk : list (string * string) :=
  [("fields.yml", "F"); ("selection.yml", "S"); ("bad.yml", "B");
   ("unknown.yml", "U"); ("empty.yml", "")].

Definition example_documents : list (string * yaml) :=
  [("F", example_fields_yaml); ("S", example_selection_yaml);
   ("B", example_bad_selection_yaml); ("U", example_unknown_selection_yaml);
   ("", YNone)].

Definition example_loader_env : Loader_env := {|
  strip := ascii_strip;
  read_text p :=
    match odict.get example_disk p with
    | Some text => FileText text
    | None => FileNotFoundError
    end;
  safe_load text :=
    match odict.get example_documents text with
    | Some data => inr data
    | None => inl "mapping values are not allowed here"
    end;
|}.

Definition example_cli_env : Cli_env := {|
  cli_loader_env := example_loader_env;
  utc_now := "2024-01-01T00:00:00Z";
  build_sql_v1 source deduped _ :=
    "SELECT " +:+ join ", " deduped +:+ " FROM " +:+ source;
  build_sql_v1_raises _ _ _ := false;
  json_dumps_audit _ := "{}";
  json_dumps_error _ := "{}";
  effect_raises _ _ := false;
|}.

(** The same environment on a disk that is full once [audit.json] is
    written. *)
Definition example_full_disk_env : Cli_env := {|
  cli_loader_env := example_loader_env;
  utc_now := "2024-01-01T00:00:00Z";
  build_sql_v1 source deduped _ :=
    "SELECT " +:+ join ", " deduped +:+ " FROM " +:+ source;
  build_sql_v1_raises _ _ _ := false;
  json_dumps_audit _ := "{}";
  json_dumps_error _ := "{}";
  effect_raises done e :=
    match e with
    | write_text _ _ => bool_decide (files_written done ≠ [])
    | _ => false
    end;
|}.

(** * Properties *)

(** ** The regular expressions *)

Lemma string_app_nil s : "" +:+ s = s.
Proof. reflexivity. Qed.

Lemma string_app_cons a w s : String a w +:+ s = String a (w +:+ s).
Proof. reflexivity. Qed.

Lemma string_app_not_nil w a s : w +:+ String a s ≠ "".
Proof. by destruct w. Qed.

Lemma re_plus_dollar_spec cls s :
  cls newline = false →
  re_plus_dollar cls s = true ↔
  all_in_class cls s = true ∨
  ∃ w, s = w +:+ String newline "" ∧ all_in_class cls w = true.
Proof.
  intros Hnl. induction s as [|c s IH]; [simpl; split; by auto|].
  destruct s as [|c' s'].
  - simpl. rewrite orb_true_iff, bool_decide_eq_true, andb_true_r. split.
    + intros [H| ->]; [by left|]. right. by exists "".
    + intros [H|[w [Hw Hall]]]; [by left|]. right.
      destruct w as [|a w].
      * rewrite string_app_nil in Hw. congruence.
      * rewrite string_app_cons in Hw. injection Hw as _ Hw.
        by apply symmetry, string_app_not_nil in Hw.
  - change (re_plus_dollar cls (String c (String c' s')))
      with (cls c && re_plus_dollar cls (String c' s')).
    rewrite andb_true_iff, IH. split.
    + intros [Hc [H|[w [Hw Hall]]]].
      * left. cbn [all_in_class] in *. by rewrite Hc.
      * right. exists (String c w). rewrite string_app_cons, Hw.
        split; [done|]. cbn [all_in_class]. by rewrite Hc.
    + intros [H|[w [Hw Hall]]].
      * cbn [all_in_class] in H. apply andb_true_iff in H as [Hc H].
        split; [done|]. by left.
      * destruct w as [|a w].
        { rewrite string_app_nil in Hw. congruence. }
        rewrite string_app_cons in Hw. injection Hw as -> Hw.
        cbn [all_in_class] in Hall.
        apply andb_true_iff in Hall as [Hc Hall]. split; [done|].
        right. by exists w.
Qed.

(** [re_match cls] accepts exactly the non-empty words over [cls], each
    optionally followed by one final newline. *)
Lemma re_match_spec cls s :
  cls newline = false →
  re_match cls s = true ↔
  ∃ w, w ≠ "" ∧ all_in_class cls w = true ∧
       (s = w ∨ s = w +:+ String newline "").
Proof.
  intros Hnl. destruct s as [|c s]; simpl.
  - split; [done|]. intros (w & Hw & _ & [?|H]); [congruence|].
    by apply symmetry, string_app_not_nil in H.
  - rewrite andb_true_iff, re_plus_dollar_spec by done. split.
    + intros [Hc [H|[w [-> Hall]]]].
      * exists (String c s). cbn [all_in_class]. rewrite Hc. auto.
      * exists (String c w). cbn [all_in_class]. rewrite Hc.
        rewrite string_app_cons. auto.
    + intros (w & Hw & Hall & [<-|H]).
      * cbn [all_in_class] in Hall.
        apply andb_true_iff in Hall as [??]. auto.
      * destruct w as [|a w]; [done|].
        rewrite string_app_cons in H. injection H as -> ->.
        cbn [all_in_class] in Hall. apply andb_true_iff in Hall as [??].
        split; [done|]. right. by exists w.
Qed.

(** ** Ordered dictionaries *)

Section odict_facts.
Context {V : Type}.
Implicit Types (d : odict V) (k : string) (v : V).

Lemma odict_get_None d k : odict.get d k = None ↔ k ∉ odict.keys d.
Proof.
  unfold odict.keys. induction d as [|[k' v'] d IH]; simpl.
  - split; [intros _; apply not_elem_of_nil | done].
  - rewrite not_elem_of_cons. case_decide; subst; [naive_solver|].
    rewrite IH. naive_solver.
Qed.

Lemma odict_get_Some_elem d k v : odict.get d k = Some v → (k, v) ∈ d.
Proof.
  induction d as [|[k' v'] d IH]; simpl; [done|].
  case_decide; subst.
  - intros [= ->]. left.
  - intros. right. auto.
Qed.

Lemma odict_elem_get d k v :
  NoDup (odict.keys d) → (k, v) ∈ d → odict.get d k = Some v.
Proof.
  unfold odict.keys. induction d as [|[k' v'] d IH]; simpl.
  - by intros _ ?%elem_of_nil.
  - rewrite NoDup_cons. intros [Hk Hd] [[= -> ->]|Hin]%elem_of_cons.
    + by rewrite decide_True.
    + rewrite decide_False; [auto|]. intros ->. apply Hk.
      apply list_elem_of_fmap. by exists (k, v).
Qed.

Lemma odict_get_set_eq d k v : odict.get (odict.set d k v) k = Some v.
Proof.
  induction d as [|[k' v'] d IH]; simpl.
  - by rewrite decide_True.
  - case_decide; simpl; [by rewrite decide_True | by rewrite decide_False].
Qed.

Lemma odict_get_set_ne d k k' v :
  k ≠ k' → odict.get (odict.set d k v) k' = odict.get d k'.
Proof.
  intros Hne. induction d as [|[k0 v0] d IH]; simpl.
  - by rewrite decide_False.
  - case_decide; subst; simpl.
    + by rewrite !decide_False.
    + case_decide; auto.
Qed.

Lemma odict_set_new d k v :
  odict.get d k = None → odict.set d k v = d ++ [(k, v)].
Proof.
  induction d as [|[k' v'] d IH]; simpl; [done|].
  case_decide; [done|]. intros. f_equal. auto.
Qed.

Lemma odict_keys_set_old d k v :
  is_Some (odict.get d k) → odict.keys (odict.set d k v) = odict.keys d.
Proof.
  unfold odict.keys. induction d as [|[k' v'] d IH]; simpl.
  - by intros [? ?].
  - case_decide; subst; simpl; [done|]. intros. f_equal. auto.
Qed.

Lemma odict_keys_set_new d k v :
  odict.get d k = None → odict.keys (odict.set d k v) = odict.keys d ++ [k].
Proof.
  intros H. rewrite odict_set_new by done. unfold odict.keys.
  by rewrite fmap_app.
Qed.
End odict_facts.

(** ** Filters *)

Section filter_facts.
Context {A : Type} (P : A → Prop) `{!∀ x, Decision (P x)}.

Lemma filter_all (l : list A) : (∀ x, x ∈ l → P x) → filter P l = l.
Proof.
  induction l as [|y l IH]; intros Hl; [done|].
  rewrite filter_cons_True by (apply Hl; left).
  f_equal. apply IH. intros x Hx. apply Hl. by right.
Qed.

Lemma filter_none (l : list A) : (∀ x, x ∈ l → ¬ P x) → filter P l = [].
Proof.
  induction l as [|y l IH]; intros Hl; [done|].
  rewrite filter_cons_False by (apply Hl; left).
  apply IH. intros x Hx. apply Hl. by right.
Qed.

Lemma filter_nil_iff (l : list A) : filter P l = [] ↔ ∀ x, x ∈ l → ¬ P x.
Proof.
  split; [|apply filter_none].
  intros Hl x Hx HP. by eapply filter_nil_not_elem_of.
Qed.
End filter_facts.

(** ** First occurrences *)

Lemma first_occurrences_elem x l : x ∈ first_occurrences l ↔ x ∈ l.
Proof.
  induction l as [|y l IH]; simpl; [done|].
  rewrite !elem_of_cons, list_elem_of_filter, IH.
  destruct (decide (x = y)); naive_solver.
Qed.

Lemma first_occurrences_NoDup l : NoDup (first_occurrences l).
Proof.
  induction l as [|y l IH]; simpl; [constructor|].
  apply NoDup_cons. split.
  - rewrite list_elem_of_filter. naive_solver.
  - by apply NoDup_filter.
Qed.



Lemma first_occurrences_filter (P : string → Prop) `{!∀ x, Decision (P x)} l :
  first_occurrences (filter P l) = filter P (first_occurrences l).
Proof.
  induction l as [|y l IH]; simpl; [done|].
  rewrite !filter_cons. case_decide as Hy; simpl.
  - rewrite IH, !list_filter_filter. f_equal.
    apply list_filter_iff. naive_solver.
  - rewrite IH, list_filter_filter. apply list_filter_iff.
    intros x. split; [|naive_solver]. intros Hx. split; [done|].
    by intros ->.
Qed.

Lemma first_occurrences_snoc l x :
  first_occurrences (l ++ [x]) =
  if decide (x ∈ l) then first_occurrences l else first_occurrences l ++ [x].
Proof.
  induction l as [|y l IH].
  - case_decide as Hx; [by apply elem_of_nil in Hx|done].
  - cbn [app first_occurrences]. rewrite IH.
    destruct (decide (x ∈ l)) as [Hl|Hl].
    + by rewrite decide_True by (by right).
    + rewrite filter_app, filter_cons, filter_nil.
      destruct (decide (x = y)) as [->|Hne].
      * rewrite decide_False by naive_solver.
        rewrite decide_True by left. by rewrite app_nil_r.
      * rewrite decide_True by done.
        rewrite decide_False; [done|].
        rewrite elem_of_cons. naive_solver.
Qed.

Lemma first_occurrences_sublist l : first_occurrences l `sublist_of` l.
Proof.
  induction l as [|y l IH]; simpl; [done|].
  apply sublist_skip. etrans; [apply sublist_filter|done].
Qed.

Lemma first_occurrences_nil l : first_occurrences l = [] ↔ l = [].
Proof. destruct l; naive_solver. Qed.

Lemma occurrences_NoDup x l : NoDup l → (occurrences x l ≤ 1)%nat.
Proof.
  unfold occurrences. induction 1 as [|y l Hy Hl IH]; simpl; [lia|].
  rewrite filter_cons. case_decide; subst; simpl; [|done].
  rewrite (filter_none _ l); [simpl; lia|]. by intros z Hz ->.
Qed.

Lemma occurrences_pos x l : (0 < occurrences x l)%nat ↔ x ∈ l.
Proof.
  unfold occurrences. induction l as [|y l IH]; simpl.
  - split; [lia|]. by intros ?%elem_of_nil.
  - rewrite filter_cons, elem_of_cons. case_decide; subst; simpl.
    + split; [auto|lia].
    + rewrite IH. naive_solver.
Qed.

Lemma occurrences_app x l1 l2 :
  occurrences x (l1 ++ l2) = (occurrences x l1 + occurrences x l2)%nat.
Proof. unfold occurrences. by rewrite filter_app, length_app. Qed.

Lemma occurrences_NoDup_iff l : NoDup l ↔ ∀ x, (occurrences x l ≤ 1)%nat.
Proof.
  split; [intros ??; by apply occurrences_NoDup|].
  induction l as [|y l IH]; intros H; [constructor|].
  apply NoDup_cons. split.
  - intros Hy%occurrences_pos. specialize (H y).
    change (y :: l) with ([y] ++ l) in H. rewrite occurrences_app in H.
    unfold occurrences at 1 in H. rewrite filter_cons, decide_True in H by done.
    simpl in H. lia.
  - apply IH. intros x. specialize (H x).
    change (y :: l) with ([y] ++ l) in H. rewrite occurrences_app in H. lia.
Qed.

(** ** The de-duplication loop *)

Lemma dedupe_loop_deduped fids deduped seen dups :
  (dedupe_loop fids deduped seen dups).1.1 =
  deduped ++ first_occurrences (filter (λ x, x ∉ seen) fids).
Proof.
  revert deduped seen dups.
  induction fids as [|fid rest IH]; intros deduped seen dups; simpl.
  - by rewrite app_nil_r.
  - case_decide as Hseen.
    + rewrite IH, filter_cons_False by naive_solver. done.
    + rewrite IH, filter_cons_True by done. simpl.
      rewrite <-(assoc_L (++)). simpl. do 2 f_equal.
      rewrite <-first_occurrences_filter, list_filter_filter. f_equal.
      apply list_filter_iff. set_solver.
Qed.

(** The loop refines the specification's de-duplicated list. *)
Lemma deduped_of_first_occurrences sel :
  deduped_of sel = first_occurrences sel.
Proof.
  unfold deduped_of. rewrite dedupe_loop_deduped. simpl. f_equal.
  apply filter_all. set_solver.
Qed.

Lemma odict_keys_set_NoDup {V} (d : odict V) k v :
  NoDup (odict.keys d) → NoDup (odict.keys (odict.set d k v)).
Proof.
  intros Hd. destruct (odict.get d k) as [v'|] eqn:Hget.
  - by rewrite odict_keys_set_old by eauto.
  - rewrite odict_keys_set_new by done. apply NoDup_app. split; [done|].
    split; [|apply NoDup_singleton].
    intros x Hx ->%list_elem_of_singleton. by apply odict_get_None in Hget.
Qed.

Lemma occurrences_snoc k pre fid :
  occurrences k (pre ++ [fid]) =
  (occurrences k pre + if decide (fid = k) then 1 else 0)%nat.
Proof.
  rewrite occurrences_app. f_equal. unfold occurrences.
  rewrite filter_cons, filter_nil. by case_decide.
Qed.

Lemma dedupe_loop_dups fids pre deduped seen dups :
  (∀ x, x ∈ seen ↔ x ∈ pre) →
  dups_inv pre dups →
  dups_inv (pre ++ fids) (dedupe_loop fids deduped seen dups).2.
Proof.
  revert pre deduped seen dups.
  induction fids as [|fid rest IH]; intros pre deduped seen dups Hseen Hinv.
  { simpl. by rewrite app_nil_r. }
  simpl. replace (pre ++ fid :: rest) with ((pre ++ [fid]) ++ rest)
    by (by rewrite <-(assoc_L (++))).
  destruct Hinv as [Hnd Hget].
  case_decide as Hfid; apply IH.
  - intros x. rewrite elem_of_app, list_elem_of_singleton, <-Hseen.
    naive_solver.
  - split; [by apply odict_keys_set_NoDup|].
    apply Hseen, occurrences_pos in Hfid.
    intros k. rewrite occurrences_snoc. destruct (decide (fid = k)) as [->|Hne].
    + rewrite odict_get_set_eq, Hget.
      repeat case_decide; simpl; try lia; f_equal; lia.
    + rewrite odict_get_set_ne, Hget, Nat.add_0_r by done. done.
  - intros x. rewrite elem_of_app, list_elem_of_singleton, <-Hseen.
    set_solver.
  - split; [done|].
    assert (occurrences fid pre = 0%nat) as Hocc.
    { destruct (decide (0 < occurrences fid pre)%nat) as [Hpos|]; [|lia].
      apply occurrences_pos, Hseen in Hpos. done. }
    intros k. rewrite occurrences_snoc, Hget.
    destruct (decide (fid = k)) as [->|Hne].
    + rewrite Hocc. by repeat case_decide; try lia.
    + by rewrite Nat.add_0_r.
Qed.

Lemma duplicates_of_spec sel : dups_inv sel (duplicates_of sel).
Proof.
  unfold duplicates_of. apply (dedupe_loop_dups sel []).
  - intros x. by rewrite elem_of_empty, elem_of_nil.
  - split; [constructor|]. intros k. by rewrite decide_False by (unfold occurrences; simpl; lia).
Qed.

Lemma duplicates_of_NoDup sel : NoDup sel → duplicates_of sel = [].
Proof.
  intros Hnd. destruct (duplicates_of_spec sel) as [_ Hget].
  destruct (duplicates_of sel) as [|[k n] d]; [done|].
  specialize (Hget k). simpl in Hget. rewrite decide_True in Hget by done.
  pose proof (occurrences_NoDup k sel Hnd). by case_decide; [lia|].
Qed.

(** ** The grouping loop *)

Lemma groups_inv_step c pre sources fid f :
  c !! fid = Some f →
  groups_inv c pre sources →
  groups_inv c (pre ++ [fid])
    (setdefault_append sources (datatable_id f) fid).
Proof.
  intros Hf [Hkeys Hget].
  assert (source_of c fid = Some (datatable_id f)) as Hsrc.
  { unfold source_of. by rewrite Hf. }
  assert (omap (source_of c) (pre ++ [fid])
          = omap (source_of c) pre ++ [datatable_id f]) as Homap.
  { rewrite omap_app. simpl. by rewrite Hsrc. }
  assert (∀ l : list string, setdefault_append sources (datatable_id f) fid
    = odict.set sources (datatable_id f)
        (default [] (odict.get sources (datatable_id f)) ++ [fid])) as Hset.
  { intros _. unfold setdefault_append. by destruct (odict.get _ _). }
  rewrite (Hset []). clear Hset.
  split.
  - rewrite Homap, first_occurrences_snoc.
    destruct (odict.get sources (datatable_id f)) as [l|] eqn:Hl.
    + rewrite odict_keys_set_old by (rewrite Hl; eauto).
      rewrite decide_True; [done|].
      apply first_occurrences_elem. rewrite <-Hkeys.
      destruct (decide (datatable_id f ∈ odict.keys sources)); [done|].
      apply odict_get_None in n. congruence.
    + rewrite odict_keys_set_new by done.
      rewrite decide_False; [by rewrite Hkeys|].
      rewrite <-first_occurrences_elem, <-Hkeys. by apply odict_get_None.
  - intros k. cbn zeta. rewrite filter_app, filter_cons, filter_nil, Hsrc.
    destruct (decide (Some (datatable_id f) = Some k)) as [[= <-]|Hne].
    + rewrite odict_get_set_eq.
      rewrite decide_False by (by intros [? ?]%app_eq_nil).
      rewrite Hget. cbn zeta. by case_decide as Hnil; [rewrite Hnil|].
    + rewrite odict_get_set_ne by congruence.
      rewrite app_nil_r. apply Hget.
Qed.

Lemma group_loop_spec c deduped pre sources :
  Forall (λ fid, is_Some (c !! fid)) deduped →
  groups_inv c pre sources →
  ∃ sources', group_loop c deduped sources = Return sources' ∧
              groups_inv c (pre ++ deduped) sources'.
Proof.
  revert pre sources.
  induction deduped as [|fid rest IH]; intros pre sources Hall Hinv.
  { exists sources. by rewrite app_nil_r. }
  apply Forall_cons in Hall as [[f Hf] Hall]. simpl. rewrite Hf.
  destruct (IH (pre ++ [fid]) (setdefault_append sources (datatable_id f) fid))
    as (sources' & Hrun & Hinv'); [done|by apply groups_inv_step|].
  exists sources'. split; [done|]. by rewrite <-(assoc_L (++)) in Hinv'.
Qed.

Lemma group_loop_total c deduped :
  Forall (λ fid, is_Some (c !! fid)) deduped →
  ∃ sources, group_loop c deduped [] = Return sources ∧
             groups_inv c deduped sources.
Proof.
  intros Hall. apply (group_loop_spec c deduped [] []); [done|].
  split; [done|]. intros k. done.
Qed.

Lemma groups_inv_NoDup c pre sources :
  groups_inv c pre sources → NoDup (odict.keys sources).
Proof. intros [-> _]. apply first_occurrences_NoDup. Qed.

(** Every entry of [sources] lists the ids of its source in the order of
    the de-duplicated list, and is non-empty. *)
Lemma groups_inv_entry c pre sources k l :
  groups_inv c pre sources →
  (k, l) ∈ sources →
  l = filter (λ fid, source_of c fid = Some k) pre ∧ l ≠ [].
Proof.
  intros Hinv Hin. pose proof (groups_inv_NoDup _ _ _ Hinv) as Hnd.
  apply (odict_elem_get _ _ _ Hnd) in Hin. destruct Hinv as [_ Hget].
  rewrite Hget in Hin. cbn zeta in Hin. case_decide; [done|].
  by injection Hin as <-.
Qed.

Lemma groups_inv_key c pre sources k :
  Forall (λ fid, is_Some (c !! fid)) pre →
  groups_inv c pre sources →
  k ∈ odict.keys sources ↔ ∃ fid, fid ∈ pre ∧ source_of c fid = Some k.
Proof.
  intros Hall [-> _]. rewrite first_occurrences_elem, list_elem_of_omap.
  naive_solver.
Qed.

(** The unknown ids are empty exactly when every selected id is a key. *)
Lemma unknown_of_nil c sel :
  unknown_of c sel = [] ↔ Forall (λ fid, is_Some (c !! fid)) sel.
Proof.
  unfold unknown_of. rewrite filter_nil_iff, Forall_forall.
  apply forall_proper; intros fid. rewrite <-not_eq_None_Some. done.
Qed.

Lemma invalid_ids_of_nil sel :
  invalid_ids_of sel = [] ↔ Forall (λ fid, FIELD_ID_RE fid = true) sel.
Proof.
  unfold invalid_ids_of. rewrite filter_nil_iff, Forall_forall.
  apply forall_proper; intros fid.
  destruct (FIELD_ID_RE fid); naive_solver.
Qed.

(** ** The exits of [validate_v1]

    [validate_v1] has six [return] statements.  [validate_v1_exit] gives,
    for each of them, the path condition and the returned pair in closed
    form; [validate_v1_exits] shows that every call leaves through one of
    them (and so never raises). *)

Lemma append_duplicate_warnings_eq a items :
  append_duplicate_warnings a items =
  set_warnings a (warnings a ++ duplicate_warnings items).
Proof.
  revert a. induction items as [|[fid n] items IH]; intros a; simpl.
  - rewrite app_nil_r. by destruct a.
  - rewrite IH. unfold set_warnings, append_warning. simpl.
    by rewrite <-(assoc_L (++)).
Qed.

Lemma deduped_of_unknown c sel :
  unknown_of c sel = [] →
  Forall (λ fid, is_Some (c !! fid)) (deduped_of sel).
Proof.
  rewrite unknown_of_nil, deduped_of_first_occurrences, !Forall_forall.
  intros Hsel fid Hfid. apply Hsel. by apply first_occurrences_elem.
Qed.

Lemma validate_v1_after_dedupe now c sel mv :
  sel ≠ [] → invalid_ids_of sel = [] → unknown_of c sel = [] →
  validate_v1 now c sel mv = after_dedupe now c sel mv.
Proof.
  intros Hsel Hinv Hunk. unfold validate_v1, after_dedupe.
  rewrite decide_False by (by destruct sel).
  rewrite decide_False by (by rewrite Hinv; intros ?).
  rewrite decide_False by (by rewrite Hunk; intros ?).
  unfold deduped_of, duplicates_of.
  destruct (dedupe_loop sel [] ∅ []) as [[deduped seen] duplicates].
  cbn [fst snd].
  destruct (group_loop c deduped []) as [sources|e]; [|done].
  cbn [mbind outcome_bind].
  assert (∀ a, (if decide (duplicates ≠ [])
                then append_duplicate_warnings (set_control a "no_duplicates" "PASS")
                       duplicates
                else set_control a "no_duplicates" "PASS")
               = set_warnings (set_control a "no_duplicates" "PASS")
                   (warnings a ++ duplicate_warnings duplicates))
    as ->.
  { intros a. case_decide as Hd.
    - by rewrite append_duplicate_warnings_eq.
    - rewrite Hd. simpl. rewrite app_nil_r.
      by destruct a. }
  destruct (decide (length sources ≠ 1)); [done|].
  destruct (next_iter_keys sources) as [only_source|e]; [|done].
  cbn [mbind outcome_bind].
  destruct (decide (¬ SOURCE_RE only_source)); done.
Qed.

Lemma validate_v1_exits now c sel mv :
  ∃ r, validate_v1 now c sel mv = Return r ∧ validate_v1_exit now c sel mv r.
Proof.
  destruct (decide (sel = [])) as [->|Hsel].
  { eexists. split; [done|]. by apply exit_empty. }
  destruct (decide (invalid_ids_of sel = [])) as [Hinv|Hinv]; cycle 1.
  { eexists. split; [|by apply exit_invalid_field_id].
    unfold validate_v1. rewrite decide_False by (by destruct sel).
    by rewrite decide_True. }
  destruct (decide (unknown_of c sel = [])) as [Hunk|Hunk]; cycle 1.
  { eexists. split; [|by apply exit_field_not_found].
    unfold validate_v1. rewrite decide_False by (by destruct sel).
    rewrite decide_False by (by rewrite Hinv; intros ?).
    by rewrite decide_True. }
  rewrite validate_v1_after_dedupe by done. unfold after_dedupe.
  destruct (group_loop_total c (deduped_of sel)) as (sources & Hrun & Hgrp).
  { by apply deduped_of_unknown. }
  rewrite Hrun. cbn [mbind outcome_bind].
  destruct (decide (length sources ≠ 1)) as [Hn|Hn%dec_stable].
  { eexists. split; [done|]. by eapply exit_multi_source. }
  destruct sources as [|[only_source ids] [|??]]; try done.
  cbn [next_iter_keys odict.keys fmap list_fmap fst mbind outcome_bind].
  destruct (decide (¬ SOURCE_RE only_source)) as [Hre|Hre%dec_stable].
  { eexists. split; [done|]. by eapply exit_invalid_source_name. }
  eexists. split; [done|]. by eapply exit_allow.
Qed.

(** The path conditions exclude one another, so an exit determines the
    result of the call. *)
Lemma validate_v1_exit_complete now c sel mv r :
  validate_v1_exit now c sel mv r → validate_v1 now c sel mv = Return r.
Proof.
  intros Hr. destruct (validate_v1_exits now c sel mv) as (r' & -> & Hr').
  destruct Hr; destruct Hr'; try done;
    repeat match goal with
    | H1 : group_loop ?c ?d ?a = _, H2 : group_loop ?c ?d ?a = _ |- _ =>
        rewrite H1 in H2; simplify_eq/=
    end; done.
Qed.

(** ** Selections over a single source *)

Lemma first_occurrences_const l s :
  l ≠ [] → Forall (λ x, x = s) l → first_occurrences l = [s].
Proof.
  destruct l as [|x l]; [done|]. intros _ [-> Hl]%Forall_cons. simpl.
  f_equal. apply filter_none. intros y Hy.
  apply (proj1 (first_occurrences_elem _ _)) in Hy.
  rewrite Forall_forall in Hl. intros Hne. by apply Hne, Hl.
Qed.

Lemma omap_source_of_const c l s :
  Forall (λ fid, ∃ f, c !! fid = Some f ∧ datatable_id f = s) l →
  omap (source_of c) l = replicate (length l) s.
Proof.
  induction 1 as [|fid l (f & Hf & <-) Hl IH]; simpl; [done|].
  unfold source_of at 1. rewrite Hf. simpl. f_equal. exact IH.
Qed.

Lemma group_loop_single c sel s :
  sel ≠ [] →
  Forall (λ fid, ∃ f, c !! fid = Some f ∧ datatable_id f = s) sel →
  group_loop c (deduped_of sel) [] = Return [(s, deduped_of sel)].
Proof.
  intros Hsel Hall.
  assert (Forall (λ fid, ∃ f, c !! fid = Some f ∧ datatable_id f = s)
            (deduped_of sel)) as Hded.
  { rewrite deduped_of_first_occurrences. rewrite Forall_forall in *.
    intros fid Hfid. apply Hall. by apply first_occurrences_elem. }
  assert (deduped_of sel ≠ []) as Hne.
  { rewrite deduped_of_first_occurrences. by rewrite first_occurrences_nil. }
  destruct (group_loop_total c (deduped_of sel)) as (sources & -> & Hinv).
  { eapply Forall_impl; [exact Hded|]. intros fid (f & -> & _). eauto. }
  f_equal. pose proof Hinv as [Hkeys Hget].
  rewrite (omap_source_of_const _ _ s) in Hkeys by done.
  rewrite (first_occurrences_const _ s) in Hkeys.
  - destruct sources as [|[k ids] [|??]]; simplify_eq/=.
    destruct (groups_inv_entry _ _ _ s ids Hinv) as [-> _]; [left|].
    do 2 f_equal. apply filter_all. intros fid Hfid.
    rewrite Forall_forall in Hded. destruct (Hded fid Hfid) as (f & Hf & <-).
    unfold source_of. by rewrite Hf.
  - destruct (deduped_of sel); [done|]. done.
  - apply Forall_forall. by intros x ->%elem_of_replicate_inv.
Qed.

(** * The claims of the specification *)

(** ** C1: a valid single-source selection is allowed *)

(** C1, counterexample: the one field of [lowercase_fields] is well-formed,
    known and trivially single-source, yet selecting it is blocked by the
    source-name check. *)
Lemma allow_on_single_source_fails :
  ¬ allow_on_single_source "2024-01-01T00:00:00Z" lowercase_fields ["pd"]
      "0.1.0".
Proof.
  intros H. destruct (H "models") as (a & Ha & Hdec & _).
  - done.
  - by repeat constructor.
  - repeat constructor. by eexists.
  - vm_compute in Ha. by simplify_eq.
Qed.

(** C1, amended: a non-empty selection whose ids all match
    [^[A-Za-z0-9_]+$], are all in the catalog and share one [datatable_id]
    that itself matches [^[A-Z0-9_]+$] is allowed: decision ALLOW, status OK,
    [source] that table, and both [fields_selected] and the returned list
    are the selection de-duplicated in first-occurrence order. *)
Theorem validate_v1_allows_single_source now c sel mv s :
  sel ≠ [] →
  Forall (λ fid, FIELD_ID_RE fid) sel →
  Forall (λ fid, ∃ f, c !! fid = Some f ∧ datatable_id f = s) sel →
  SOURCE_RE s →
  ∃ a, validate_v1 now c sel mv = Return (first_occurrences sel, a) ∧
       decision a = "ALLOW" ∧ status a = "OK" ∧ source a = Some s ∧
       fields_selected a = first_occurrences sel.
Proof.
  intros Hsel Hre Hall Hs.
  exists (allowed now mv s (deduped_of sel)
            (duplicate_warnings (duplicates_of sel))).
  rewrite <-deduped_of_first_occurrences. split; [|done].
  apply validate_v1_exit_complete.
  apply (exit_allow _ _ _ _ s (deduped_of sel)); try done.
  - apply invalid_ids_of_nil. eapply Forall_impl; [exact Hre|].
    intros fid. apply Is_true_true_1.
  - apply unknown_of_nil. eapply Forall_impl; [exact Hall|].
    intros fid (f & -> & _). eauto.
  - by apply group_loop_single.
Qed.

Lemma validate_v1_allows_single_source_witness :
  ∃ a, validate_v1 "2024-01-01T00:00:00Z" _fields
         ["model_id"; "model_id"; "run_date"] "0.1.0"
       = Return (first_occurrences ["model_id"; "model_id"; "run_date"], a) ∧
       decision a = "ALLOW" ∧ status a = "OK" ∧ source a = Some "MODELS" ∧
       fields_selected a
       = first_occurrences ["model_id"; "model_id"; "run_date"].
Proof.
  apply (validate_v1_allows_single_source _ _ _ _ "MODELS").
  - done.
  - repeat constructor.
  - repeat constructor; by eexists.
  - exact I.
Defined.

(** ** C2: order of the checks and the [controls] mapping *)

(** C2, counterexample: on an allowed selection all six checks run, but the
    syntax check and the existence check write the same key, so [controls]
    has five entries. *)
Lemma one_control_per_check_fails :
  ¬ one_control_per_check "2024-01-01T00:00:00Z" _fields ["model_id"; "pd"]
      "0.1.0".
Proof.
  intros H. specialize (H _ _ eq_refl). vm_compute in H. discriminate H.
Qed.

Lemma checks_executed_exit now c sel mv r :
  validate_v1_exit now c sel mv r →
  ∃ n, checks_executed c sel = take n check_order ∧ (1 ≤ n ≤ 6)%nat ∧
       odict.keys (controls r.2)
       = first_occurrences (control_key <$> take n check_order) ∧
       ((∃ e, error r.2 = Some e ∧
              last (take n check_order) = Some (failing_check e) ∧
              odict.values (controls r.2)
              = replicate (length (controls r.2) - 1) "PASS" ++ ["FAIL"]) ∨
        (error r.2 = None ∧ n = 6%nat ∧
         odict.values (controls r.2)
         = replicate (length (controls r.2)) "PASS")).
Proof.
  unfold checks_executed.
  destruct 1 as [->|?|?|sources ???? Hlen|s ids ???? Hre|s ids ???? Hre].
  - exists 1%nat. rewrite decide_True by done.
    split_and!; [done|lia|lia|done|]. left. eauto.
  - exists 2%nat. rewrite decide_False by (by destruct sel).
    rewrite decide_True by done.
    split_and!; [done|lia|lia|done|]. left. eauto.
  - exists 3%nat. rewrite decide_False by (by destruct sel).
    rewrite decide_False by naive_solver. rewrite decide_True by done.
    split_and!; [done|lia|lia|done|]. left. eauto.
  - exists 5%nat. rewrite decide_False by (by destruct sel).
    rewrite !decide_False by naive_solver.
    match goal with H : group_loop _ _ _ = _ |- _ => rewrite H end.
    rewrite decide_True by done.
    split_and!; [done|lia|lia|done|]. left. eauto.
  - exists 6%nat. rewrite decide_False by (by destruct sel).
    rewrite !decide_False by naive_solver.
    match goal with H : group_loop _ _ _ = _ |- _ => rewrite H end.
    rewrite decide_False by (simpl; naive_solver).
    split_and!; [done|lia|lia|done|]. left. eauto.
  - exists 6%nat. rewrite decide_False by (by destruct sel).
    rewrite !decide_False by naive_solver.
    match goal with H : group_loop _ _ _ = _ |- _ => rewrite H end.
    rewrite decide_False by (simpl; naive_solver).
    split_and!; [done|lia|lia|done|]. right. eauto.
Qed.

(** C2, amended: every call runs a non-empty prefix of the six checks in
    the fixed order and stops at the first failure.  The keys of [controls]
    are those of the checks executed, in execution order, where the syntax
    check and the existence check share the single key [all_fields_exist];
    every entry is PASS except that the last one is FAIL exactly when an
    error is attached, and that error is the one of the last check
    executed.  With no error all six checks have run. *)
Theorem validate_v1_controls now c sel mv :
  ∃ r a n,
    validate_v1 now c sel mv = Return (r, a) ∧
    checks_executed c sel = take n check_order ∧ (1 ≤ n ≤ 6)%nat ∧
    odict.keys (controls a)
    = first_occurrences (control_key <$> checks_executed c sel) ∧
    ((∃ e, error a = Some e ∧
           last (checks_executed c sel) = Some (failing_check e) ∧
           odict.values (controls a)
           = replicate (length (controls a) - 1) "PASS" ++ ["FAIL"]) ∨
     (error a = None ∧ checks_executed c sel = check_order ∧
      odict.values (controls a) = replicate (length (controls a)) "PASS")).
Proof.
  destruct (validate_v1_exits now c sel mv) as ([r a] & Hrun & Hexit).
  destruct (checks_executed_exit _ _ _ _ _ Hexit) as (n & Hn & ? & ? & Hlast).
  cbn [snd] in *. exists r, a, n. rewrite Hn.
  do 4 (split; [done|]).
  destruct Hlast as [?|(? & -> & ?)]; [by left|by right].
Qed.

(** ** The store-level validator (used for C3) *)

(** *** Running the primitives on a store [σ ++ new] *)

Lemma seq_seq {A B C} (m : M A) (f : A → M B) (g : B → M C) σ :
  seq_ (seq_ m f) g σ = seq_ m (λ a, seq_ (f a) g) σ.
Proof. unfold seq_. by destruct (m σ) as [[a σ']|e]. Qed.

Lemma seq_ret {A B} (a : A) (f : A → M B) σ : seq_ (ret a) f σ = f a σ.
Proof. done. Qed.

Lemma seq_raise {A B} e (f : A → M B) σ : seq_ (raise e) f σ = Raise e.
Proof. done. Qed.

Lemma seq_alloc {B} o (f : loc → M B) (σ new : list obj) :
  seq_ (alloc o) f (σ ++ new) = f (length σ + length new) (σ ++ (new ++ [o])).
Proof. unfold seq_, alloc. by rewrite length_app, <-(assoc_L (++)). Qed.

Lemma seq_load_new {B} (f : obj → M B) (σ new : list obj) k o :
  new !! k = Some o →
  seq_ (load (length σ + k)) f (σ ++ new) = f o (σ ++ new).
Proof.
  intros Hk. unfold seq_, load. rewrite lookup_app_r by lia.
  replace (length σ + k - length σ) with k by lia. by rewrite Hk.
Qed.

Lemma seq_load_old {B} (f : obj → M B) (σ new : list obj) l o :
  σ !! l = Some o → seq_ (load l) f (σ ++ new) = f o (σ ++ new).
Proof.
  intros Hl. unfold seq_, load. by rewrite (lookup_app_l_Some _ _ _ _ Hl).
Qed.

Lemma seq_store_new {B} (f : unit → M B) (σ new : list obj) k o :
  seq_ (store (length σ + k) o) f (σ ++ new) = f () (σ ++ <[k := o]> new).
Proof. unfold seq_, store. by rewrite insert_app_r. Qed.

(** Symbolic execution of the statements of [validate_v1_store] on a store
    [σ ++ new]: [st_step] runs one primitive, [st_go] runs until a branch
    whose condition is not decided by the context. *)
Ltac st_simpl :=
  cbn beta iota zeta delta
      [length app lookup list_lookup insert list_insert
       o_metaquery_version o_schema_version o_timestamp o_decision o_status
       o_version o_source o_fields_selected o_controls o_warnings o_error
       odict.set].

Ltac st_step :=
  first
    [ rewrite seq_seq
    | rewrite seq_ret
    | rewrite seq_alloc
    | rewrite seq_store_new
    | erewrite seq_load_new by reflexivity
    | erewrite seq_load_old by eassumption ];
  st_simpl.

Ltac st_unfold :=
  unfold finalize_store, new_audit, assign_fields_selected, assign_error,
    assign_source, assign_decision, assign_status, assign_control,
    warnings_append, get_list, get_fields, get_set, get_counts, get_groups,
    get_controls, get_warnings, get_audit.

Ltac st_start :=
  match goal with
  | |- context [validate_v1_store ?now ?lc ?ls ?mv ?σ] =>
      replace (validate_v1_store now lc ls mv σ)
        with (validate_v1_store now lc ls mv (σ ++ []))
        by (by rewrite app_nil_r)
  end;
  unfold validate_v1_store; st_unfold.

Lemma lookup_new (σ new : list obj) k o :
  new !! k = Some o → (σ ++ new) !! (length σ + k) = Some o.
Proof.
  intros Hk. rewrite lookup_app_r by lia.
  by replace (length σ + k - length σ) with k by lia.
Qed.

Lemma lookup_old (σ new : list obj) l o :
  σ !! l = Some o → (σ ++ new) !! l = Some o.
Proof. apply lookup_app_l_Some. Qed.

(** Reading the result back through the returned references. *)
Ltac st_read :=
  unfold read_result, read_audit, read_list, read_controls, read_warnings;
  cbn beta iota zeta delta [fst snd];
  repeat
    (first
       [ erewrite lookup_new by reflexivity
       | erewrite lookup_old by eassumption ];
     cbn beta iota zeta delta
         [mbind option_bind o_metaquery_version o_schema_version o_timestamp
          o_decision o_status o_version o_source o_fields_selected o_controls
          o_warnings o_error]).

(** *** The loops *)

(** Equality of two stores given by updates of the same store. *)
Ltac inserts_eq :=
  apply list_eq; intros ?;
  rewrite !list_lookup_insert, ?length_insert;
  repeat case_decide; try done; try lia; naive_solver.

Lemma seq_dedupe_loop {B} (f : unit → M B) (σ : list obj) fids :
  ∀ new kd ks kc d s dups,
    new !! kd = Some (OList d) →
    new !! ks = Some (OSet s) →
    new !! kc = Some (OCounts dups) →
    seq_ (dedupe_loop_store fids (length σ + kd) (length σ + ks)
            (length σ + kc)) f (σ ++ new)
    = f () (σ ++ <[kc := OCounts (dedupe_loop fids d s dups).2]>
                   (<[ks := OSet (dedupe_loop fids d s dups).1.2]>
                      (<[kd := OList (dedupe_loop fids d s dups).1.1]> new))).
Proof.
  induction fids as [|fid rest IH]; intros new kd ks kc d s dups Hd Hs Hc.
  { cbn [dedupe_loop_store dedupe_loop fst snd]. rewrite seq_ret.
    rewrite (list_insert_id _ kd) by done.
    rewrite (list_insert_id _ ks) by done.
    by rewrite (list_insert_id _ kc). }
  assert (kd ≠ ks) as Hds by (intros ->; congruence).
  assert (kd ≠ kc) as Hdc by (intros ->; congruence).
  assert (ks ≠ kc) as Hsc by (intros ->; congruence).
  pose proof (lookup_lt_Some _ _ _ Hd) as Hld.
  pose proof (lookup_lt_Some _ _ _ Hs) as Hls.
  pose proof (lookup_lt_Some _ _ _ Hc) as Hlc.
  cbn [dedupe_loop_store dedupe_loop]. unfold get_set, get_counts, get_list.
  rewrite !seq_seq. erewrite seq_load_new by exact Hs. cbn beta iota.
  rewrite seq_ret. destruct (decide (fid ∈ s)) as [Hin|Hin].
  - rewrite !seq_seq. erewrite seq_load_new by exact Hc. cbn beta iota.
    rewrite seq_ret, seq_store_new.
    rewrite (IH _ kd ks kc d s
               (odict.set dups fid (default 1 (odict.get dups fid) + 1))).
    + do 2 f_equal. inserts_eq.
    + by rewrite list_lookup_insert_ne.
    + by rewrite list_lookup_insert_ne.
    + by rewrite list_lookup_insert_eq.
  - rewrite !seq_seq, seq_store_new. rewrite !seq_seq.
    erewrite seq_load_new by (by rewrite list_lookup_insert_ne).
    cbn beta iota. rewrite seq_ret, seq_store_new.
    rewrite (IH _ kd ks kc (d ++ [fid]) (s ∪ {[fid]}) dups).
    + do 2 f_equal. inserts_eq.
    + by rewrite list_lookup_insert_eq by (by rewrite length_insert).
    + rewrite list_lookup_insert_ne by done. by rewrite list_lookup_insert_eq.
    + by rewrite !list_lookup_insert_ne.
Qed.

Lemma seq_append_duplicate_warnings {B} (f : unit → M B) (σ : list obj)
    items :
  ∀ new ka kw a ws,
    new !! ka = Some (OAudit a) →
    o_warnings a = length σ + kw →
    new !! kw = Some (OWarnings ws) →
    seq_ (append_duplicate_warnings_store (length σ + ka) items) f (σ ++ new)
    = f () (σ ++ <[kw := OWarnings (ws ++ duplicate_warnings items)]> new).
Proof.
  induction items as [|[fid n] items IH]; intros new ka kw a ws Ha Hkw Hw.
  { cbn [append_duplicate_warnings_store]. rewrite seq_ret.
    unfold duplicate_warnings. cbn [fmap list_fmap].
    by rewrite app_nil_r, list_insert_id. }
  assert (ka ≠ kw) as Hne by (intros ->; congruence).
  pose proof (lookup_lt_Some _ _ _ Hw) as Hlw.
  cbn [append_duplicate_warnings_store].
  unfold warnings_append, get_audit, get_warnings.
  rewrite !seq_seq. erewrite seq_load_new by exact Ha. cbn beta iota.
  rewrite seq_ret, Hkw. rewrite !seq_seq.
  erewrite seq_load_new by exact Hw. cbn beta iota.
  rewrite seq_ret, seq_store_new.
  rewrite (IH _ ka kw a (ws ++ [DUPLICATE_FIELDS fid n (duplicate_message fid n)])).
  - rewrite list_insert_insert_eq. do 4 f_equal.
    unfold duplicate_warnings. cbn [fmap list_fmap].
    by rewrite <-(assoc_L (++)).
  - by rewrite list_lookup_insert_ne.
  - done.
  - by rewrite list_lookup_insert_eq.
Qed.


Lemma loc_dict_keys base ks : odict.keys (loc_dict base ks) = ks.
Proof.
  revert base. induction ks as [|k ks IH]; intros base; [done|].
  unfold odict.keys in *. cbn. by rewrite IH.
Qed.

Lemma loc_dict_length base ks : length (loc_dict base ks) = length ks.
Proof.
  revert base. induction ks as [|k ks IH]; intros base; [done|].
  cbn. by rewrite IH.
Qed.

Lemma loc_dict_snoc base ks k :
  loc_dict base (ks ++ [k]) = loc_dict base ks ++ [(k, base + length ks)].
Proof.
  revert base. induction ks as [|k' ks IH]; intros base; cbn.
  - by rewrite Nat.add_0_r.
  - rewrite IH. do 3 f_equal. f_equal. lia.
Qed.

Lemma loc_dict_get_None {V} base (srcs : odict V) k :
  odict.get srcs k = None →
  odict.get (loc_dict base (odict.keys srcs)) k = None.
Proof.
  intros H%odict_get_None. apply odict_get_None. by rewrite loc_dict_keys.
Qed.

Lemma loc_dict_get_Some {V} base (srcs : odict V) k v :
  odict.get srcs k = Some v →
  ∃ i, odict.get (loc_dict base (odict.keys srcs)) k = Some (base + i) ∧
       odict.values srcs !! i = Some v ∧
       ∀ w, odict.values (odict.set srcs k w) = <[i := w]> (odict.values srcs) ∧
            odict.keys (odict.set srcs k w) = odict.keys srcs.
Proof.
  unfold odict.keys, odict.values.
  revert base. induction srcs as [|[k' v'] srcs IH]; intros base; [done|].
  cbn. case_decide as Hk.
  - intros [= ->]. exists 0. rewrite Nat.add_0_r. subst k'. by cbn.
  - intros Hget. destruct (IH (S base) Hget) as (i & Hi & Hv & Hset).
    exists (S i). rewrite Hi. split; [f_equal; lia|]. split; [done|].
    intros w. destruct (Hset w) as [Hvs Hks]. cbn. by rewrite Hvs, Hks.
Qed.

Lemma insert_app_at {A} (l1 l2 : list A) n i x :
  length l1 = n → <[n + i := x]> (l1 ++ l2) = l1 ++ <[i := x]> l2.
Proof. intros <-. apply insert_app_r. Qed.

Lemma lookup_app_at {A} (l1 l2 : list A) n i :
  length l1 = n → (l1 ++ l2) !! (n + i) = l2 !! i.
Proof.
  intros <-. rewrite lookup_app_r by lia. f_equal. lia.
Qed.

Lemma lookup_snoc_at {A} (l : list A) n x :
  length l = n → (l ++ [x]) !! n = Some x.
Proof. intros <-. by rewrite lookup_app_r, Nat.sub_diag by lia. Qed.

Lemma insert_snoc_at {A} (l : list A) n x y :
  length l = n → <[n := y]> (l ++ [x]) = l ++ [y].
Proof.
  intros <-. rewrite <-(Nat.add_0_r (length l)). by rewrite insert_app_r.
Qed.

Lemma seq_group_loop {B} (f : unit → M B) (σ : list obj) lc c H ks fids :
  σ !! lc = Some (OFields c) →
  ks < length H →
  ∀ srcs,
    seq_ (group_loop_store lc fids (length σ + ks)) f
      (σ ++ (<[ks := OGroups (loc_dict (length σ + length H)
                                (odict.keys srcs))]> H
             ++ (OList <$> odict.values srcs)))
    = match group_loop c fids srcs with
      | Return srcs' =>
          f () (σ ++ (<[ks := OGroups (loc_dict (length σ + length H)
                                         (odict.keys srcs'))]> H
                      ++ (OList <$> odict.values srcs')))
      | Raise e => Raise e
      end.
Proof.
  intros Hc Hks. induction fids as [|fid rest IH]; intros srcs.
  { cbn [group_loop_store group_loop]. by rewrite seq_ret. }
  cbn [group_loop_store group_loop]. unfold get_fields, get_groups, get_list.
  rewrite !seq_seq. erewrite seq_load_old by exact Hc. cbn beta iota.
  rewrite seq_ret. destruct (c !! fid) as [fld|]; [|by rewrite seq_raise].
  rewrite !seq_seq. erewrite seq_load_new; cycle 1.
  { rewrite lookup_app_l by (by rewrite length_insert).
    by apply list_lookup_insert_eq. }
  cbn beta iota. rewrite seq_ret, !seq_seq.
  set (base := length σ + length H).
  unfold setdefault_append.
  destruct (odict.get srcs (datatable_id fld)) as [xs|] eqn:Hget.
  - destruct (loc_dict_get_Some base _ _ _ Hget) as (i & -> & Hi & Hset).
    rewrite seq_ret. unfold base. rewrite <-Nat.add_assoc. rewrite !seq_seq.
    erewrite seq_load_new; cycle 1.
    { rewrite (lookup_app_at _ _ (length H)) by apply length_insert.
      by rewrite list_lookup_fmap, Hi. }
    cbn beta iota. rewrite seq_ret, ?seq_seq, seq_store_new.
    rewrite (insert_app_at _ _ (length H)) by apply length_insert.
    rewrite <-list_fmap_insert.
    destruct (Hset (xs ++ [fid])) as [<- <-]. apply IH.
  - rewrite (loc_dict_get_None base _ _ Hget). rewrite !seq_seq.
    rewrite seq_alloc, !seq_seq.
    set (H' := <[ks:=OGroups (loc_dict base (odict.keys srcs))]> H).
    assert (length (H' ++ (OList <$> odict.values srcs))
            = length H + length srcs) as ->.
    { unfold H', odict.values.
      by rewrite length_app, length_insert, !length_fmap. }
    rewrite seq_store_new, seq_ret, !seq_seq.
    erewrite seq_load_new; cycle 1.
    { rewrite list_lookup_insert_ne by lia.
      apply lookup_snoc_at. unfold H', odict.values.
      by rewrite length_app, length_insert, !length_fmap. }
    cbn beta iota. rewrite seq_ret, ?seq_seq, seq_store_new.
    rewrite odict_set_new by (by apply loc_dict_get_None).
    rewrite (odict_set_new srcs) by done.
    etrans; [|apply IH]. do 2 f_equal.
    unfold odict.keys, odict.values. rewrite !fmap_app. cbn [fmap list_fmap].
    cbn [fst snd]. rewrite loc_dict_snoc, length_fmap.
    replace (base + length srcs) with (length σ + (length H + length srcs))
      by (unfold base; lia).
    rewrite list_insert_insert_ne by lia.
    rewrite (insert_snoc_at _ (length H + length srcs)); cycle 1.
    { unfold H'. by rewrite length_app, length_insert, !length_fmap. }
    rewrite <-!(assoc_L (++)).
    rewrite insert_app_l by (unfold H'; by rewrite length_insert).
    unfold H'. rewrite list_insert_insert_eq. unfold base.
    by rewrite Nat.add_assoc.
Qed.

Lemma seq_read_groups {B} (f : odict (list string) → M B) (σ : list obj)
    new srcs :
  ∀ n,
    drop n new = OList <$> odict.values srcs →
    seq_ (read_groups (loc_dict (length σ + n) (odict.keys srcs))) f (σ ++ new)
    = f srcs (σ ++ new).
Proof.
  revert f. induction srcs as [|[k xs] srcs IH]; intros f n Hdrop.
  { cbn [read_groups loc_dict odict.keys fmap list_fmap]. by rewrite seq_ret. }
  unfold odict.keys, odict.values in *. cbn [fmap list_fmap fst snd] in *.
  cbn [loc_dict read_groups]. unfold get_list.
  assert (new !! n = Some (OList xs)) as Hn.
  { rewrite <-(Nat.add_0_r n), <-lookup_drop, Hdrop. done. }
  rewrite !seq_seq. erewrite seq_load_new by exact Hn. cbn beta iota.
  rewrite seq_ret, seq_seq.
  replace (S (length σ + n)) with (length σ + S n) by lia.
  rewrite IH.
  - by rewrite seq_ret.
  - rewrite (drop_S _ _ _ Hn) in Hdrop. by injection Hdrop.
Qed.

Lemma seq_group_loop_init {B} (f : unit → M B) (σ : list obj) lc c H ks fids :
  σ !! lc = Some (OFields c) →
  H !! ks = Some (OGroups []) →
  seq_ (group_loop_store lc fids (length σ + ks)) f (σ ++ H)
  = match group_loop c fids [] with
    | Return srcs' =>
        f () (σ ++ (<[ks := OGroups (loc_dict (length σ + length H)
                                       (odict.keys srcs'))]> H
                    ++ (OList <$> odict.values srcs')))
    | Raise e => Raise e
    end.
Proof.
  intros Hc Hks. pose proof (lookup_lt_Some _ _ _ Hks) as Hlt.
  rewrite <-(seq_group_loop f σ lc c H ks fids Hc Hlt []).
  cbn [odict.keys odict.values fmap list_fmap loc_dict].
  by rewrite app_nil_r, list_insert_id.
Qed.

Ltac st_loop :=
  first
    [ erewrite seq_dedupe_loop by reflexivity
    | erewrite seq_append_duplicate_warnings by reflexivity
    | erewrite seq_group_loop_init by (eassumption || reflexivity) ];
  st_simpl.

Ltac st_keys :=
  repeat match goal with
  | |- context [@decide (?a = ?b) ?i] =>
      first [ rewrite (@decide_True _ (a = b) i) by reflexivity
            | rewrite (@decide_False _ (a = b) i) by discriminate ]
  end.

Ltac st_fold sel :=
  change ((dedupe_loop sel [] ∅ []).1.1) with (deduped_of sel);
  change ((dedupe_loop sel [] ∅ []).2) with (duplicates_of sel).

Ltac st_go :=
  repeat first
    [ st_step
    | st_loop
    | rewrite decide_True by done; st_simpl
    | rewrite decide_False by done; st_simpl
    | rewrite decide_False by (let H := fresh in intros H; by apply H);
      st_simpl ].

(** *** The store-level validator refines [validate_v1] and only adds to
    the store *)

Lemma validate_v1_store_run now lc ls mv (σ : list obj) c sel :
  σ !! lc = Some (OFields c) →
  σ !! ls = Some (OList sel) →
  ∃ r new res,
    validate_v1_store now lc ls mv σ = Return (r, σ ++ new) ∧
    validate_v1 now c sel mv = Return res ∧
    read_result (σ ++ new) r = Some res.
Proof.
  intros Hc Hs.
  destruct (validate_v1_exits now c sel mv) as (res & Hres & Hexit).
  destruct Hexit as [Hsel|Hsel Hinv|Hsel Hinv Hunk|srcs Hsel Hinv Hunk Hgrp Hlen
    |s ids Hsel Hinv Hunk Hgrp Hre|s ids Hsel Hinv Hunk Hgrp Hre].
  - subst sel. st_start. do 3 eexists. st_go.
    split; [reflexivity|]. split; [exact Hres|]. st_read. reflexivity.
  - assert (length sel ≠ 0) as Hlen by (by destruct sel).
    st_start. do 3 eexists. st_go.
    split; [reflexivity|]. split; [exact Hres|]. st_read. reflexivity.
  - assert (length sel ≠ 0) as Hlen by (by destruct sel).
    assert (¬ invalid_ids_of sel ≠ []) as Hinv' by (intros H'; by apply H').
    st_start. do 3 eexists. st_go.
    split; [reflexivity|]. split; [exact Hres|]. st_read. reflexivity.
  - assert (length sel ≠ 0) as Hlen' by (by destruct sel).
    assert (¬ invalid_ids_of sel ≠ []) as Hinv' by (intros H'; by apply H').
    assert (¬ unknown_of c sel ≠ []) as Hunk' by (intros H'; by apply H').
    destruct (decide (duplicates_of sel ≠ [])) as [Hd|Hd];
      [|pose proof (dec_stable Hd) as Hd0];
      st_start; do 3 eexists; st_go; st_keys; st_fold sel;
      rewrite Hgrp; st_simpl; st_go;
      rewrite loc_dict_length;
      rewrite decide_True by (unfold odict.keys; by rewrite length_fmap);
      st_go; st_keys; erewrite seq_read_groups by reflexivity; st_go;
      rewrite loc_dict_keys;
      (split; [reflexivity|]); (split; [exact Hres|]); st_read;
      rewrite ?Hd0; reflexivity.
  - assert (length sel ≠ 0) as Hlen' by (by destruct sel).
    assert (¬ invalid_ids_of sel ≠ []) as Hinv' by (intros H'; by apply H').
    assert (¬ unknown_of c sel ≠ []) as Hunk' by (intros H'; by apply H').
    destruct (decide (duplicates_of sel ≠ [])) as [Hd|Hd];
      [|pose proof (dec_stable Hd) as Hd0];
      st_start; do 3 eexists; st_go; st_keys; st_fold sel;
      rewrite Hgrp;
      cbn [odict.keys odict.values fmap list_fmap fst snd loc_dict];
      st_simpl; st_go; st_keys;
      cbn [odict.keys fmap list_fmap fst]; st_go; st_keys;
      (split; [reflexivity|]); (split; [exact Hres|]); st_read;
      rewrite ?Hd0; reflexivity.
  - assert (length sel ≠ 0) as Hlen' by (by destruct sel).
    assert (¬ invalid_ids_of sel ≠ []) as Hinv' by (intros H'; by apply H').
    assert (¬ unknown_of c sel ≠ []) as Hunk' by (intros H'; by apply H').
    assert (¬ ¬ SOURCE_RE s) as Hre' by (intros H'; by apply H').
    destruct (decide (duplicates_of sel ≠ [])) as [Hd|Hd];
      [|pose proof (dec_stable Hd) as Hd0];
      st_start; do 3 eexists; st_go; st_keys; st_fold sel;
      rewrite Hgrp;
      cbn [odict.keys odict.values fmap list_fmap fst snd loc_dict];
      st_simpl; st_go; st_keys;
      cbn [odict.keys fmap list_fmap fst]; st_go; st_keys;
      (split; [reflexivity|]); (split; [exact Hres|]); st_read;
      rewrite ?Hd0; reflexivity.
Qed.

(** ** C3: determinism *)

(** C3, counterexample: two calls one second apart differ in the
    [timestamp] of the audit. *)
Lemma same_inputs_same_result_fails :
  ¬ same_inputs_same_result _fields ["model_id"; "pd"] "0.1.0".
Proof.
  intros H.
  specialize (H "2024-01-01T00:00:00Z" "2024-01-01T00:00:01Z").
  vm_compute in H. discriminate H.
Qed.

Lemma validate_v1_exit_clock now1 now2 c sel mv r :
  validate_v1_exit now1 c sel mv r →
  validate_v1_exit now2 c sel mv (r.1, set_timestamp r.2 now2) ∧
  timestamp r.2 = now1.
Proof.
  destruct 1; (split; [|done]); cbn [fst snd].
  - by apply exit_empty.
  - by apply exit_invalid_field_id.
  - by apply exit_field_not_found.
  - by apply exit_multi_source.
  - by eapply exit_invalid_source_name.
  - by eapply exit_allow.
Qed.

(** Given the clock reading, the result is a function of the inputs; the
    reading only shows in [timestamp]. *)
Lemma validate_v1_clock now1 now2 c sel mv :
  ∃ r a,
    validate_v1 now1 c sel mv = Return (r, a) ∧
    validate_v1 now2 c sel mv = Return (r, set_timestamp a now2) ∧
    timestamp a = now1.
Proof.
  destruct (validate_v1_exits now1 c sel mv) as ([r a] & Hrun & Hexit).
  destruct (validate_v1_exit_clock now1 now2 _ _ _ _ Hexit) as [Hexit2 Hts].
  exists r, a. split; [done|]. split; [|done].
  by apply validate_v1_exit_complete.
Qed.

(** C3, amended: given the reading [now] of the clock, the result is a
    function of the catalog, the selection and the version; the reading
    shows in [timestamp] and nowhere else, so two calls with the same inputs
    agree on everything but [timestamp].  Run on a store that holds the
    catalog at [lc] and the selection at [ls], the call returns references
    to that same result and leaves every object that existed before the call
    as it was, the catalog and the selection among them: it only allocates
    new objects and writes to those. *)
Theorem validate_v1_deterministic_and_pure now lc ls mv (σ : list obj) c sel :
  σ !! lc = Some (OFields c) →
  σ !! ls = Some (OList sel) →
  ∃ r a refs σ',
    validate_v1 now c sel mv = Return (r, a) ∧
    timestamp a = now ∧
    (∀ now', validate_v1 now' c sel mv = Return (r, set_timestamp a now')) ∧
    validate_v1_store now lc ls mv σ = Return (refs, σ') ∧
    read_result σ' refs = Some (r, a) ∧
    σ `prefix_of` σ' ∧
    σ' !! lc = Some (OFields c) ∧
    σ' !! ls = Some (OList sel).
Proof.
  intros Hc Hs.
  destruct (validate_v1_store_run now lc ls mv σ c sel Hc Hs)
    as (refs & new & [r a] & Hrun & Hres & Hread).
  exists r, a, refs, (σ ++ new).
  split; [done|].
  destruct (validate_v1_clock now now c sel mv) as (r1 & a1 & H1 & _ & Hts).
  rewrite Hres in H1. injection H1 as <- <-.
  split; [done|]. split.
  { intros now'.
    destruct (validate_v1_clock now now' c sel mv) as (r2 & a2 & H2 & H2' & _).
    rewrite Hres in H2. by injection H2 as <- <-. }
  split; [done|]. split; [done|].
  split; [by apply prefix_app_r|].
  split; by apply lookup_app_l_Some.
Qed.


Lemma validate_v1_deterministic_and_pure_witness :
  ∃ r a refs σ',
    validate_v1 "2024-01-01T00:00:00Z" _fields ["model_id"; "model_id"; "pd"]
      "0.1.0" = Return (r, a) ∧
    timestamp a = "2024-01-01T00:00:00Z" ∧
    (∀ now', validate_v1 now' _fields ["model_id"; "model_id"; "pd"] "0.1.0"
             = Return (r, set_timestamp a now')) ∧
    validate_v1_store "2024-01-01T00:00:00Z" 0 1 "0.1.0" example_store
    = Return (refs, σ') ∧
    read_result σ' refs = Some (r, a) ∧
    example_store `prefix_of` σ' ∧
    σ' !! 0 = Some (OFields _fields) ∧
    σ' !! 1 = Some (OList ["model_id"; "model_id"; "pd"]).
Proof.
  apply validate_v1_deterministic_and_pure; reflexivity.
Defined.

(** ** C4: idempotence *)








(** ** C5: duplicates are reported, never fatal *)

Lemma duplicate_warnings_field_ids d :
  warning_field_id <$> duplicate_warnings d = odict.keys d.
Proof.
  unfold duplicate_warnings, odict.keys. rewrite <-list_fmap_compose.
  apply list_fmap_ext. by intros _ [fid n] _.
Qed.

Lemma duplicate_warnings_elem w d :
  w ∈ duplicate_warnings d →
  ∃ fid n, (fid, n) ∈ d ∧ w = DUPLICATE_FIELDS fid n (duplicate_message fid n).
Proof.
  unfold duplicate_warnings. intros ([fid n] & -> & Hin)%list_elem_of_fmap.
  eauto.
Qed.

(** Past the existence check, whatever the exit, the audit carries the
    [no_duplicates] control and the duplicate warnings. *)
Lemma validate_v1_exit_dedupe now c sel mv r :
  validate_v1_exit now c sel mv r →
  sel ≠ [] → invalid_ids_of sel = [] → unknown_of c sel = [] →
  odict.get (controls r.2) "no_duplicates" = Some "PASS" ∧
  warnings r.2 = duplicate_warnings (duplicates_of sel).
Proof. destruct 1; intros; done. Qed.

(** C5: for a selection that reaches the de-duplication step (non-empty,
    every id well-formed and known) the control [no_duplicates] is PASS, and
    the warnings are exactly one [DUPLICATE_FIELDS] warning for each id that
    occurs at least twice, whose count is the number of occurrences of that
    id in the selection; without duplicates there is no warning. *)
Theorem validate_v1_duplicate_warnings now c sel mv :
  sel ≠ [] →
  Forall (λ fid, FIELD_ID_RE fid) sel →
  Forall (λ fid, is_Some (c !! fid)) sel →
  ∃ r a,
    validate_v1 now c sel mv = Return (r, a) ∧
    odict.get (controls a) "no_duplicates" = Some "PASS" ∧
    NoDup (warning_field_id <$> warnings a) ∧
    (∀ fid, fid ∈ warning_field_id <$> warnings a
            ↔ (2 ≤ occurrences fid sel)%nat) ∧
    (∀ w, w ∈ warnings a →
          warning_code w = "DUPLICATE_FIELDS" ∧
          warning_count w = occurrences (warning_field_id w) sel) ∧
    (NoDup sel → warnings a = []).
Proof.
  intros Hsel Hre Hknown.
  destruct (validate_v1_exits now c sel mv) as ([r a] & Hrun & Hexit).
  destruct (validate_v1_exit_dedupe _ _ _ _ _ Hexit) as [Hctl Hws]; [done|..].
  { apply invalid_ids_of_nil. eapply Forall_impl; [exact Hre|].
    intros fid. apply Is_true_true_1. }
  { by apply unknown_of_nil. }
  cbn [snd] in *. exists r, a. rewrite Hws.
  destruct (duplicates_of_spec sel) as [Hnd Hget].
  split; [done|]. split; [done|]. rewrite duplicate_warnings_field_ids.
  split; [done|]. split; [|split].
  - intros fid. destruct (odict.get (duplicates_of sel) fid) as [n|] eqn:Hn.
    + pose proof Hn as Hn'. rewrite Hget in Hn'.
      case_decide; [|done]. split; [done|]. intros _.
      destruct (decide (fid ∈ odict.keys (duplicates_of sel))) as [|Hnot];
        [done|]. apply odict_get_None in Hnot. congruence.
    + pose proof Hn as Hn'. rewrite Hget in Hn'. case_decide; [done|].
      apply odict_get_None in Hn. split; [done|lia].
  - intros w (fid & n & Hin & ->)%duplicate_warnings_elem. split; [done|].
    simpl. apply (odict_elem_get _ _ _ Hnd) in Hin. rewrite Hget in Hin.
    case_decide; [|done]. by injection Hin.
  - intros Hsel_nd. by rewrite duplicates_of_NoDup.
Qed.

Lemma validate_v1_duplicate_warnings_witness :
  ∃ r a,
    validate_v1 "2024-01-01T00:00:00Z" _fields
      ["model_id"; "pd"; "model_id"; "pd"; "model_id"] "0.1.0"
    = Return (r, a) ∧
    odict.get (controls a) "no_duplicates" = Some "PASS" ∧
    NoDup (warning_field_id <$> warnings a) ∧
    (∀ fid, fid ∈ warning_field_id <$> warnings a
            ↔ (2 ≤ occurrences fid
                     ["model_id"; "pd"; "model_id"; "pd"; "model_id"])%nat) ∧
    (∀ w, w ∈ warnings a →
          warning_code w = "DUPLICATE_FIELDS" ∧
          warning_count w
          = occurrences (warning_field_id w)
              ["model_id"; "pd"; "model_id"; "pd"; "model_id"]) ∧
    (NoDup ["model_id"; "pd"; "model_id"; "pd"; "model_id"] →
     warnings a = []).
Proof.
  apply validate_v1_duplicate_warnings.
  - done.
  - repeat constructor.
  - repeat constructor; by eexists.
Defined.

Example duplicate_warnings_example :
  duplicates_of ["model_id"; "pd"; "model_id"; "pd"; "model_id"]
  = [("model_id", 3%nat); ("pd", 2%nat)].
Proof. reflexivity. Qed.

(** ** C6: malformed field ids *)

(** C6: the defect.  The id ["pd\n"] is not a word over [A-Za-z0-9_], but
    [FIELD_ID_RE] matches it, because [$] also matches before a final
    newline.  The claim fails there: against the test catalog the call is
    blocked with FIELD_NOT_FOUND, not INVALID_FIELD_ID; next to the
    malformed id ["x-y"], [invalid_field_ids] lists ["x-y"] alone; and with
    a catalog that has the key ["pd\n"] on the table ["MODELS\n"] the
    selection is allowed, with that table as its source. *)
Theorem validate_v1_trailing_newline_id :
  ¬ is_field_id_word pd_newline ∧
  FIELD_ID_RE pd_newline ∧
  ¬ malformed_ids_blocked "2024-01-01T00:00:00Z" _fields [pd_newline]
      "0.1.0" ∧
  (∃ a,
     validate_v1 "2024-01-01T00:00:00Z" _fields [pd_newline] "0.1.0"
     = Return ([pd_newline], a) ∧
     decision a = "BLOCK" ∧
     code_of a = Some "FIELD_NOT_FOUND") ∧
  (∃ a msg,
     validate_v1 "2024-01-01T00:00:00Z" _fields [pd_newline; "x-y"] "0.1.0"
     = Return ([pd_newline; "x-y"], a) ∧
     error a = Some (INVALID_FIELD_ID ["x-y"] msg)) ∧
  (∃ a,
     validate_v1 "2024-01-01T00:00:00Z" newline_fields [pd_newline] "0.1.0"
     = Return ([pd_newline], a) ∧
     decision a = "ALLOW" ∧
     source a = Some models_newline ∧
     fields_selected a = [pd_newline]).
Proof.
  assert (¬ is_field_id_word pd_newline) as Hword.
  { intros [_ Hcls]. vm_compute in Hcls. discriminate Hcls. }
  split; [done|]. split; [done|]. split.
  { intros Hclaim. destruct Hclaim as (a & msg & Hrun & _ & Herr).
    - exists pd_newline. split; [left|done].
    - vm_compute in Hrun. injection Hrun as <-. discriminate Herr. }
  split; [eexists; split; [vm_compute; reflexivity|done]|].
  split; [do 2 eexists; split; [vm_compute; reflexivity|done]|].
  eexists. split; [vm_compute; reflexivity|done].
Qed.

(** For the ids that the pattern of the code rejects, the code does what
    the claim says: a selection with at least one id that [FIELD_ID_RE] does
    not match is blocked with code INVALID_FIELD_ID; the failure is recorded
    under the control key [all_fields_exist], and [invalid_field_ids] is the
    selection restricted to the ids that [FIELD_ID_RE] does not match, in
    input order and with their repetitions. *)
Theorem validate_v1_invalid_field_id now c sel mv fid :
  fid ∈ sel →
  ¬ FIELD_ID_RE fid →
  ∃ a msg,
    validate_v1 now c sel mv = Return (sel, a) ∧
    decision a = "BLOCK" ∧
    error a = Some (INVALID_FIELD_ID
                      (filter (λ fid, ¬ FIELD_ID_RE fid) sel) msg) ∧
    error_code (INVALID_FIELD_ID (filter (λ fid, ¬ FIELD_ID_RE fid) sel) msg)
    = "INVALID_FIELD_ID" ∧
    controls a
    = [("non_empty_selection", "PASS"); ("all_fields_exist", "FAIL")].
Proof.
  intros Hin Hre. do 2 eexists. split.
  - apply validate_v1_exit_complete, exit_invalid_field_id.
    + intros ->. by apply elem_of_nil in Hin.
    + intros Hnil. by eapply (filter_nil_not_elem_of _ _ fid Hnil).
  - done.
Qed.

Lemma validate_v1_invalid_field_id_witness :
  ∃ a msg,
    validate_v1 "2024-01-01T00:00:00Z" _fields
      ["p d"; "model_id"; "x-y"; "p d"] "0.1.0"
    = Return (["p d"; "model_id"; "x-y"; "p d"], a) ∧
    decision a = "BLOCK" ∧
    error a = Some (INVALID_FIELD_ID
                      (filter (λ fid, ¬ FIELD_ID_RE fid)
                         ["p d"; "model_id"; "x-y"; "p d"]) msg) ∧
    error_code (INVALID_FIELD_ID
                  (filter (λ fid, ¬ FIELD_ID_RE fid)
                     ["p d"; "model_id"; "x-y"; "p d"]) msg)
    = "INVALID_FIELD_ID" ∧
    controls a
    = [("non_empty_selection", "PASS"); ("all_fields_exist", "FAIL")].
Proof.
  apply (validate_v1_invalid_field_id _ _ _ _ "x-y").
  - set_solver.
  - intros H. exact H.
Defined.

Example invalid_field_ids_example :
  filter (λ fid, ¬ FIELD_ID_RE fid) ["p d"; "model_id"; "x-y"; "p d"]
  = ["p d"; "x-y"; "p d"].
Proof. reflexivity. Qed.

(** ** C7: selections over several sources *)

Lemma sorted_Sorted l : Sorted String.le (sorted l).
Proof. apply Sorted_merge_sort. apply _. Qed.

Lemma sorted_elem x l : x ∈ sorted l ↔ x ∈ l.
Proof. unfold sorted. by rewrite merge_sort_Permutation. Qed.

Lemma sorted_NoDup l : NoDup l → NoDup (sorted l).
Proof. unfold sorted. by rewrite merge_sort_Permutation. Qed.

Lemma sorted_length l : length (sorted l) = length l.
Proof. unfold sorted. by rewrite merge_sort_Permutation. Qed.

Lemma NoDup_two_length {A} (l : list A) x y :
  NoDup l → x ∈ l → y ∈ l → x ≠ y → (2 ≤ length l)%nat.
Proof.
  intros Hnd Hx Hy Hne.
  destruct l as [|a [|b l]]; simpl; [| |lia].
  - by apply elem_of_nil in Hx.
  - apply list_elem_of_singleton in Hx, Hy. congruence.
Qed.

(** C7: when every selected id is well-formed and known and two of them
    belong to different source tables, the call is blocked with code
    MULTI_SOURCE_NOT_ALLOWED and returns the de-duplicated selection;
    [sources_found] is the duplicate-free list of the sources of the
    selection in ascending order; [fields_by_source] has those sources as
    keys, in order of first encounter, and maps each of them to the
    de-duplicated ids of that source in selection order. *)
Theorem validate_v1_multi_source now c sel mv fid1 fid2 f1 f2 :
  Forall (λ fid, FIELD_ID_RE fid) sel →
  Forall (λ fid, is_Some (c !! fid)) sel →
  fid1 ∈ sel → fid2 ∈ sel →
  c !! fid1 = Some f1 → c !! fid2 = Some f2 →
  datatable_id f1 ≠ datatable_id f2 →
  ∃ a sources_found fields_by_source msg rec,
    validate_v1 now c sel mv = Return (first_occurrences sel, a) ∧
    decision a = "BLOCK" ∧
    error a = Some (MULTI_SOURCE_NOT_ALLOWED sources_found fields_by_source
                      msg rec) ∧
    Sorted String.le sources_found ∧
    NoDup sources_found ∧
    (2 ≤ length sources_found)%nat ∧
    (∀ s, s ∈ sources_found ↔ ∃ fid, fid ∈ sel ∧ source_of c fid = Some s) ∧
    odict.keys fields_by_source
    = first_occurrences (omap (source_of c) (first_occurrences sel)) ∧
    (∀ s ids, (s, ids) ∈ fields_by_source →
              ids = filter (λ fid, source_of c fid = Some s)
                      (first_occurrences sel)).
Proof.
  intros Hre Hknown Hin1 Hin2 Hf1 Hf2 Hne.
  assert (sel ≠ []) as Hsel by (intros ->; by apply elem_of_nil in Hin1).
  assert (invalid_ids_of sel = []) as Hinv.
  { apply invalid_ids_of_nil. eapply Forall_impl; [exact Hre|].
    intros fid. apply Is_true_true_1. }
  assert (unknown_of c sel = []) as Hunk by (by apply unknown_of_nil).
  pose proof (deduped_of_unknown _ _ Hunk) as Hded.
  destruct (group_loop_total c (deduped_of sel) Hded) as (sources & Hrun & Hgrp).
  pose proof (groups_inv_NoDup _ _ _ Hgrp) as Hnd.
  assert (∀ s, s ∈ odict.keys sources
               ↔ ∃ fid, fid ∈ sel ∧ source_of c fid = Some s) as Hkeys.
  { intros s. rewrite (groups_inv_key _ _ _ _ Hded Hgrp).
    rewrite deduped_of_first_occurrences.
    split; intros (fid & Hfid & Hs); exists fid; split; try done;
      by apply first_occurrences_elem. }
  assert (2 ≤ length (odict.keys sources))%nat as Hlen.
  { apply (NoDup_two_length _ (datatable_id f1) (datatable_id f2)); try done.
    - apply Hkeys. exists fid1. unfold source_of. by rewrite Hf1.
    - apply Hkeys. exists fid2. unfold source_of. by rewrite Hf2. }
  do 5 eexists. split.
  { rewrite <-(deduped_of_first_occurrences sel).
    apply validate_v1_exit_complete. eapply exit_multi_source; try done.
    unfold odict.keys in Hlen. rewrite length_fmap in Hlen. lia. }
  split; [done|]. split; [done|].
  split; [apply sorted_Sorted|]. split; [by apply sorted_NoDup|].
  split; [by rewrite sorted_length|].
  split; [intros s; by rewrite sorted_elem|].
  rewrite <-(deduped_of_first_occurrences sel). split; [by destruct Hgrp|].
  intros s ids Hin. by destruct (groups_inv_entry _ _ _ _ _ Hgrp Hin).
Qed.

Lemma validate_v1_multi_source_witness :
  ∃ a sources_found fields_by_source msg rec,
    validate_v1 "2024-01-01T00:00:00Z" _fields
      ["model_id"; "customer_age"; "pd"] "0.1.0"
    = Return (first_occurrences ["model_id"; "customer_age"; "pd"], a) ∧
    decision a = "BLOCK" ∧
    error a = Some (MULTI_SOURCE_NOT_ALLOWED sources_found fields_by_source
                      msg rec) ∧
    Sorted String.le sources_found ∧
    NoDup sources_found ∧
    (2 ≤ length sources_found)%nat ∧
    (∀ s, s ∈ sources_found
          ↔ ∃ fid, fid ∈ ["model_id"; "customer_age"; "pd"] ∧
                   source_of _fields fid = Some s) ∧
    odict.keys fields_by_source
    = first_occurrences
        (omap (source_of _fields)
           (first_occurrences ["model_id"; "customer_age"; "pd"])) ∧
    (∀ s ids, (s, ids) ∈ fields_by_source →
              ids = filter (λ fid, source_of _fields fid = Some s)
                      (first_occurrences ["model_id"; "customer_age"; "pd"])).
Proof.
  apply (validate_v1_multi_source _ _ _ _ "model_id" "customer_age"
           (mkField "model_id" "MODELS" "model_id" (Some "Model ID"))
           (mkField "customer_age" "CUSTOMERS" "age" (Some "Customer Age"))).
  - repeat constructor.
  - repeat constructor; by eexists.
  - set_solver.
  - set_solver.
  - reflexivity.
  - reflexivity.
  - discriminate.
Defined.

Example multi_source_example :
  validate_v1 "2024-01-01T00:00:00Z" _fields
    ["model_id"; "customer_age"; "pd"] "0.1.0"
  = Return (["model_id"; "customer_age"; "pd"],
      blocked "2024-01-01T00:00:00Z" "0.1.0"
        ["model_id"; "customer_age"; "pd"]
        [("non_empty_selection", "PASS"); ("all_fields_exist", "PASS");
         ("no_duplicates", "PASS"); ("single_source", "FAIL")] []
        (MULTI_SOURCE_NOT_ALLOWED ["CUSTOMERS"; "MODELS"]
           [("MODELS", ["model_id"; "pd"]); ("CUSTOMERS", ["customer_age"])]
           "Fields span multiple sources. V1 restriction: single-source queries only."
           "Create a pre-validated view (V2) or define explicit joins (V3).")).
Proof. reflexivity. Qed.

(** ** C8: consistency of the audit record *)

(** [_finalize] leaves only the two decisions and the two statuses. *)
Lemma _finalize_decision_status a :
  (decision (_finalize a) = "ALLOW" ∨ decision (_finalize a) = "BLOCK") ∧
  (status (_finalize a) = "OK" ∨ status (_finalize a) = "ERROR").
Proof.
  unfold _finalize. repeat case_decide; simpl; naive_solver.
Qed.

(** C8: every call returns, and its audit has decision ALLOW with status OK
    or decision BLOCK with status ERROR; an error is attached exactly when
    the decision is BLOCK, and a source is set only when it is ALLOW. *)
Theorem validate_v1_audit_consistent now c sel mv :
  ∃ r a,
    validate_v1 now c sel mv = Return (r, a) ∧
    (decision a = "ALLOW" ↔ status a = "OK") ∧
    (decision a = "ALLOW" ∧ status a = "OK" ∨
     decision a = "BLOCK" ∧ status a = "ERROR") ∧
    (is_Some (error a) ↔ decision a = "BLOCK") ∧
    (is_Some (source a) → decision a = "ALLOW").
Proof.
  destruct (validate_v1_exits now c sel mv) as ([r a] & Hrun & Hexit).
  exists r, a. split; [done|].
  inversion Hexit; subst; cbn;
    (split; [split; intros; discriminate || done|]);
    (split; [(by left) || (by right)|]);
    (split; [split; intros H'; try done; try (by eexists);
             try (by destruct H'); discriminate H'
            |intros H'; try done; by destruct H']).
Qed.

(** ** C9: the catalog lookups of the grouping step cannot fail *)

Lemma group_loop_KeyError c deduped sources fid :
  c !! fid = None → fid ∈ deduped →
  ∃ k, group_loop c deduped sources = Raise (KeyError k).
Proof.
  revert sources.
  induction deduped as [|x rest IH]; intros sources Hnone Hin.
  { by apply elem_of_nil in Hin. }
  simpl. destruct (c !! x) as [f|] eqn:Hx; [|eauto].
  apply elem_of_cons in Hin as [->|Hin]; [congruence|]. by apply IH.
Qed.



(** ** C10: what a blocked call returns *)

(** C10: on BLOCK an error is attached and [fields_selected] is the raw
    selection; the returned list is the selection itself for the codes
    EMPTY_SELECTION, INVALID_FIELD_ID and FIELD_NOT_FOUND, and the
    de-duplicated selection for MULTI_SOURCE_NOT_ALLOWED and
    INVALID_SOURCE_NAME. *)
Theorem validate_v1_blocked_result now c sel mv r a :
  validate_v1 now c sel mv = Return (r, a) →
  decision a = "BLOCK" →
  fields_selected a = sel ∧
  ∃ e, error a = Some e ∧
       (error_code e ∈ ["EMPTY_SELECTION"; "INVALID_FIELD_ID";
                        "FIELD_NOT_FOUND"] → r = sel) ∧
       (error_code e ∈ ["MULTI_SOURCE_NOT_ALLOWED"; "INVALID_SOURCE_NAME"] →
        r = first_occurrences sel) ∧
       error_code e ∈ ["EMPTY_SELECTION"; "INVALID_FIELD_ID";
                       "FIELD_NOT_FOUND"; "MULTI_SOURCE_NOT_ALLOWED";
                       "INVALID_SOURCE_NAME"].
Proof.
  intros Hrun Hblock.
  destruct (validate_v1_exits now c sel mv) as (r' & Hr & Hexit).
  rewrite Hrun in Hr. injection Hr as <-.
  inversion Hexit; subst; try discriminate Hblock;
    (split; [done|]); eexists; (split; [done|]);
    rewrite <-?deduped_of_first_occurrences; cbn [error_code];
    split_and!; try done; try set_solver.
Qed.

Lemma validate_v1_blocked_result_witness :
  fields_selected
    (blocked "2024-01-01T00:00:00Z" "0.1.0" ["pd"; "customer_age"; "pd"]
       [("non_empty_selection", "PASS"); ("all_fields_exist", "PASS");
        ("no_duplicates", "PASS"); ("single_source", "FAIL")]
       (duplicate_warnings [("pd", 2%nat)])
       (MULTI_SOURCE_NOT_ALLOWED ["CUSTOMERS"; "MODELS"]
          [("MODELS", ["pd"]); ("CUSTOMERS", ["customer_age"])]
          "Fields span multiple sources. V1 restriction: single-source queries only."
          "Create a pre-validated view (V2) or define explicit joins (V3)."))
  = ["pd"; "customer_age"; "pd"] ∧
  ∃ e,
    error
      (blocked "2024-01-01T00:00:00Z" "0.1.0" ["pd"; "customer_age"; "pd"]
         [("non_empty_selection", "PASS"); ("all_fields_exist", "PASS");
          ("no_duplicates", "PASS"); ("single_source", "FAIL")]
         (duplicate_warnings [("pd", 2%nat)])
         (MULTI_SOURCE_NOT_ALLOWED ["CUSTOMERS"; "MODELS"]
            [("MODELS", ["pd"]); ("CUSTOMERS", ["customer_age"])]
            "Fields span multiple sources. V1 restriction: single-source queries only."
            "Create a pre-validated view (V2) or define explicit joins (V3)."))
    = Some e ∧
    (error_code e ∈ ["EMPTY_SELECTION"; "INVALID_FIELD_ID";
                     "FIELD_NOT_FOUND"] →
     ["pd"; "customer_age"] = ["pd"; "customer_age"; "pd"]) ∧
    (error_code e ∈ ["MULTI_SOURCE_NOT_ALLOWED"; "INVALID_SOURCE_NAME"] →
     ["pd"; "customer_age"] = first_occurrences ["pd"; "customer_age"; "pd"]) ∧
    error_code e ∈ ["EMPTY_SELECTION"; "INVALID_FIELD_ID";
                    "FIELD_NOT_FOUND"; "MULTI_SOURCE_NOT_ALLOWED";
                    "INVALID_SOURCE_NAME"].
Proof.
  apply (validate_v1_blocked_result "2024-01-01T00:00:00Z" _fields
           ["pd"; "customer_age"; "pd"] "0.1.0").
  - reflexivity.
  - reflexivity.
Defined.

(** * Further properties of the validator *)

(** ** What the two patterns accept *)

(** X1: both patterns accept exactly the non-empty words over their class,
    optionally followed by one final newline (Python's [$]). *)
Theorem validator_patterns_accept s :
  (FIELD_ID_RE s ↔
   ∃ w, w ≠ "" ∧ all_in_class field_id_class w = true ∧
        (s = w ∨ s = w +:+ String newline "")) ∧
  (SOURCE_RE s ↔
   ∃ w, w ≠ "" ∧ all_in_class source_class w = true ∧
        (s = w ∨ s = w +:+ String newline "")).
Proof.
  split; (etrans; [apply Is_true_true|]); by apply re_match_spec.
Qed.

(** ** The decision table *)

Section filter_ne.
Context {A : Type} (P : A → Prop) `{!∀ x, Decision (P x)}.

Lemma filter_ne_nil (l : list A) : filter P l ≠ [] ↔ ∃ x, x ∈ l ∧ P x.
Proof.
  split.
  - intros Hne. destruct (filter P l) as [|x l'] eqn:E; [done|].
    assert (x ∈ filter P l) as Hx by (rewrite E; left).
    apply list_elem_of_filter in Hx. exists x. tauto.
  - intros (x & Hx & HP) Hnil. by eapply filter_nil_not_elem_of.
Qed.
End filter_ne.

Lemma invalid_ids_of_nil_re sel :
  invalid_ids_of sel = [] ↔ Forall (λ fid, FIELD_ID_RE fid) sel.
Proof.
  rewrite invalid_ids_of_nil. apply Forall_iff. intros fid.
  symmetry. apply Is_true_true.
Qed.

Lemma group_loop_keys c sel sources :
  unknown_of c sel = [] →
  group_loop c (deduped_of sel) [] = Return sources →
  NoDup (odict.keys sources) ∧
  length (odict.keys sources) = length sources ∧
  ∀ s, s ∈ odict.keys sources
       ↔ ∃ fid f, fid ∈ sel ∧ c !! fid = Some f ∧ datatable_id f = s.
Proof.
  intros Hunk Hrun. pose proof (deduped_of_unknown _ _ Hunk) as Hded.
  destruct (group_loop_total c (deduped_of sel) Hded)
    as (sources' & Hrun' & Hgrp).
  rewrite Hrun in Hrun'. injection Hrun' as <-.
  split; [by eapply groups_inv_NoDup|]. split.
  { unfold odict.keys. by rewrite length_fmap. }
  intros s. rewrite (groups_inv_key _ _ _ _ Hded Hgrp).
  rewrite deduped_of_first_occurrences. unfold source_of. split.
  - intros (fid & Hfid & Hs). destruct (c !! fid) as [f|] eqn:Hf; [|done].
    exists fid, f. injection Hs as <-.
    split; [by apply (proj1 (first_occurrences_elem _ _))|done].
  - intros (fid & f & Hfid & Hf & <-). exists fid. rewrite Hf.
    split; [by apply first_occurrences_elem|done].
Qed.

Lemma group_loop_one c sel s ids :
  unknown_of c sel = [] →
  group_loop c (deduped_of sel) [] = Return [(s, ids)] →
  all_from c s sel.
Proof.
  intros Hunk Hrun.
  destruct (group_loop_keys _ _ _ Hunk Hrun) as (_ & _ & Hkeys).
  apply Forall_forall. intros fid Hfid.
  apply unknown_of_nil in Hunk. rewrite Forall_forall in Hunk.
  destruct (Hunk fid Hfid) as [f Hf]. exists f. split; [done|].
  assert (datatable_id f ∈ odict.keys [(s, ids)]) as Hin.
  { apply Hkeys. eauto. }
  cbn in Hin. by apply list_elem_of_singleton in Hin.
Qed.

Lemma group_loop_many c sel sources :
  sel ≠ [] →
  unknown_of c sel = [] →
  group_loop c (deduped_of sel) [] = Return sources →
  length sources ≠ 1 →
  spans_sources c sel.
Proof.
  intros Hsel Hunk Hrun Hlen.
  destruct (group_loop_keys _ _ _ Hunk Hrun) as (Hnd & Hl & Hkeys).
  rewrite <-Hl in Hlen.
  destruct (odict.keys sources) as [|s1 [|s2 ks]] eqn:Hks.
  - destruct sel as [|fid sel]; [done|].
    apply unknown_of_nil, Forall_cons in Hunk as [[f Hf] _].
    assert (datatable_id f ∈ @nil string) as Hin.
    { apply Hkeys. exists fid, f. split; [left|done]. }
    by apply elem_of_nil in Hin.
  - done.
  - destruct (proj1 (Hkeys s1)) as (fid1 & f1 & ? & ? & ?); [left|].
    destruct (proj1 (Hkeys s2)) as (fid2 & f2 & ? & ? & ?); [right; left|].
    exists fid1, fid2, f1, f2. split_and!; try done.
    apply NoDup_cons in Hnd as [Hs1 _]. intros Heq. apply Hs1.
    replace s1 with s2 by congruence. left.
Qed.

Lemma all_from_known c s sel :
  all_from c s sel → unknown_of c sel = [].
Proof.
  intros Hall. apply unknown_of_nil. eapply Forall_impl; [exact Hall|].
  intros fid (f & -> & _). eauto.
Qed.

(** What holds at each exit: its error code and its condition on the
    inputs. *)
Lemma exit_verdict now c sel mv r :
  validate_v1_exit now c sel mv r →
  (code_of r.2 = Some "EMPTY_SELECTION" ∧ decision r.2 = "BLOCK" ∧
   sel = []) ∨
  (code_of r.2 = Some "INVALID_FIELD_ID" ∧ decision r.2 = "BLOCK" ∧
   ∃ fid, fid ∈ sel ∧ ¬ FIELD_ID_RE fid) ∨
  (code_of r.2 = Some "FIELD_NOT_FOUND" ∧ decision r.2 = "BLOCK" ∧
   Forall (λ fid, FIELD_ID_RE fid) sel ∧
   ∃ fid, fid ∈ sel ∧ c !! fid = None) ∨
  (code_of r.2 = Some "MULTI_SOURCE_NOT_ALLOWED" ∧ decision r.2 = "BLOCK" ∧
   Forall (λ fid, FIELD_ID_RE fid) sel ∧
   Forall (λ fid, is_Some (c !! fid)) sel ∧ spans_sources c sel) ∨
  (code_of r.2 = Some "INVALID_SOURCE_NAME" ∧ decision r.2 = "BLOCK" ∧
   sel ≠ [] ∧ Forall (λ fid, FIELD_ID_RE fid) sel ∧
   ∃ s, all_from c s sel ∧ ¬ SOURCE_RE s) ∨
  (code_of r.2 = None ∧ decision r.2 = "ALLOW" ∧
   sel ≠ [] ∧ Forall (λ fid, FIELD_ID_RE fid) sel ∧
   ∃ s, all_from c s sel ∧ SOURCE_RE s).
Proof.
  destruct 1 as [Hsel|Hsel Hinv|Hsel Hinv Hunk|srcs Hsel Hinv Hunk Hgrp Hlen
    |s ids Hsel Hinv Hunk Hgrp Hre|s ids Hsel Hinv Hunk Hgrp Hre].
  - left. done.
  - right; left. split; [done|]. split; [done|].
    apply (filter_ne_nil _ sel) in Hinv as (fid & Hfid & Hre). eauto.
  - do 2 right; left. split; [done|]. split; [done|].
    split; [by apply invalid_ids_of_nil_re|].
    apply (filter_ne_nil _ sel) in Hunk as (fid & Hfid & Hnone). eauto.
  - do 3 right; left. split; [done|]. split; [done|].
    split; [by apply invalid_ids_of_nil_re|].
    split; [by apply unknown_of_nil|]. by eapply group_loop_many.
  - do 4 right; left. split; [done|]. split; [done|]. split; [done|].
    split; [by apply invalid_ids_of_nil_re|].
    exists s. split; [by eapply group_loop_one|done].
  - do 5 right. split; [done|]. split; [done|]. split; [done|].
    split; [by apply invalid_ids_of_nil_re|].
    exists s. split; [by eapply group_loop_one|done].
Qed.

Lemma verdict_empty now c sel mv :
  sel = [] →
  ∃ r, validate_v1_exit now c sel mv r ∧
       code_of r.2 = Some "EMPTY_SELECTION" ∧ source r.2 = None.
Proof. intros Hsel. eexists. split; [by apply exit_empty|done]. Qed.

Lemma verdict_invalid_field_id now c sel mv :
  (∃ fid, fid ∈ sel ∧ ¬ FIELD_ID_RE fid) →
  ∃ r, validate_v1_exit now c sel mv r ∧
       code_of r.2 = Some "INVALID_FIELD_ID" ∧ source r.2 = None.
Proof.
  intros (fid & Hfid & Hre). eexists. split; [apply exit_invalid_field_id|done].
  - intros ->. by apply elem_of_nil in Hfid.
  - apply (filter_ne_nil _ sel). eauto.
Qed.

Lemma verdict_field_not_found now c sel mv :
  Forall (λ fid, FIELD_ID_RE fid) sel →
  (∃ fid, fid ∈ sel ∧ c !! fid = None) →
  ∃ r, validate_v1_exit now c sel mv r ∧
       code_of r.2 = Some "FIELD_NOT_FOUND" ∧ source r.2 = None.
Proof.
  intros Hre (fid & Hfid & Hnone). eexists. split; [apply exit_field_not_found|done].
  - intros ->. by apply elem_of_nil in Hfid.
  - by apply invalid_ids_of_nil_re.
  - apply (filter_ne_nil _ sel). eauto.
Qed.

Lemma verdict_multi_source now c sel mv :
  Forall (λ fid, FIELD_ID_RE fid) sel →
  Forall (λ fid, is_Some (c !! fid)) sel →
  spans_sources c sel →
  ∃ r, validate_v1_exit now c sel mv r ∧
       code_of r.2 = Some "MULTI_SOURCE_NOT_ALLOWED" ∧ source r.2 = None.
Proof.
  intros Hre Hknown (fid1 & fid2 & f1 & f2 & Hin1 & Hin2 & Hf1 & Hf2 & Hne).
  assert (unknown_of c sel = []) as Hunk by (by apply unknown_of_nil).
  destruct (group_loop_total c (deduped_of sel)) as (sources & Hrun & _).
  { by apply deduped_of_unknown. }
  destruct (group_loop_keys _ _ _ Hunk Hrun) as (Hnd & Hl & Hkeys).
  eexists. split; [eapply exit_multi_source; [| | |exact Hrun|]|done];
    [|by apply invalid_ids_of_nil_re|done|].
  - intros ->. by apply elem_of_nil in Hin1.
  - rewrite <-Hl.
    assert (2 ≤ length (odict.keys sources))%nat; [|lia].
    apply (NoDup_two_length _ (datatable_id f1) (datatable_id f2));
      [done| | |done]; apply Hkeys; eauto.
Qed.

Lemma verdict_invalid_source_name now c sel mv s :
  sel ≠ [] →
  Forall (λ fid, FIELD_ID_RE fid) sel →
  all_from c s sel →
  ¬ SOURCE_RE s →
  ∃ r, validate_v1_exit now c sel mv r ∧
       code_of r.2 = Some "INVALID_SOURCE_NAME" ∧
       r = (first_occurrences sel,
            blocked now mv sel
              [("non_empty_selection", "PASS"); ("all_fields_exist", "PASS");
               ("no_duplicates", "PASS"); ("single_source", "PASS");
               ("valid_source_name", "FAIL")]
              (duplicate_warnings (duplicates_of sel))
              (INVALID_SOURCE_NAME s
                 "datatable_id must match pattern ^[A-Z0-9_]+$")).
Proof.
  intros Hsel Hre Hall Hs. eexists. split.
  { eapply (exit_invalid_source_name _ _ _ _ s (deduped_of sel)); try done.
    - by apply invalid_ids_of_nil_re.
    - by eapply all_from_known.
    - by apply group_loop_single. }
  split; [done|]. by rewrite deduped_of_first_occurrences.
Qed.

Lemma verdict_allow now c sel mv s :
  sel ≠ [] →
  Forall (λ fid, FIELD_ID_RE fid) sel →
  all_from c s sel →
  SOURCE_RE s →
  ∃ r, validate_v1_exit now c sel mv r ∧ code_of r.2 = None ∧
       source r.2 = Some s.
Proof.
  intros Hsel Hre Hall Hs. eexists. split.
  { eapply (exit_allow _ _ _ _ s (deduped_of sel)); try done.
    - by apply invalid_ids_of_nil_re.
    - by eapply all_from_known.
    - by apply group_loop_single. }
  done.
Qed.

(** X2: the outcome of [validate_v1] as a function of the inputs: each error
    code, and the absence of an error, is characterised by a condition on
    the catalog and the selection.  The conditions show the precedence of
    the checks: a malformed id hides an unknown one, an unknown id hides a
    multi-source selection. *)
Theorem validate_v1_decision_table now c sel mv :
  ∃ r a,
    validate_v1 now c sel mv = Return (r, a) ∧
    (code_of a = Some "EMPTY_SELECTION" ↔ sel = []) ∧
    (code_of a = Some "INVALID_FIELD_ID"
     ↔ ∃ fid, fid ∈ sel ∧ ¬ FIELD_ID_RE fid) ∧
    (code_of a = Some "FIELD_NOT_FOUND"
     ↔ Forall (λ fid, FIELD_ID_RE fid) sel ∧
       ∃ fid, fid ∈ sel ∧ c !! fid = None) ∧
    (code_of a = Some "MULTI_SOURCE_NOT_ALLOWED"
     ↔ Forall (λ fid, FIELD_ID_RE fid) sel ∧
       Forall (λ fid, is_Some (c !! fid)) sel ∧ spans_sources c sel) ∧
    (code_of a = Some "INVALID_SOURCE_NAME"
     ↔ sel ≠ [] ∧ Forall (λ fid, FIELD_ID_RE fid) sel ∧
       ∃ s, all_from c s sel ∧ ¬ SOURCE_RE s) ∧
    (decision a = "ALLOW"
     ↔ sel ≠ [] ∧ Forall (λ fid, FIELD_ID_RE fid) sel ∧
       ∃ s, all_from c s sel ∧ SOURCE_RE s).
Proof.
  destruct (validate_v1_exits now c sel mv) as ([r a] & Hrun & Hexit).
  exists r, a. split; [done|].
  assert (∀ r', validate_v1_exit now c sel mv r' → r' = (r, a)) as Huniq.
  { intros r' Hr'. apply validate_v1_exit_complete in Hr'. congruence. }
  assert (sel = [] → code_of a = Some "EMPTY_SELECTION") as H1.
  { intros H. destruct (verdict_empty now c sel mv H) as (r' & Hr' & Hc & _).
    by rewrite (Huniq _ Hr') in Hc. }
  assert ((∃ fid, fid ∈ sel ∧ ¬ FIELD_ID_RE fid)
          → code_of a = Some "INVALID_FIELD_ID") as H2.
  { intros H.
    destruct (verdict_invalid_field_id now c sel mv H)
      as (r' & Hr' & Hc & _).
    by rewrite (Huniq _ Hr') in Hc. }
  assert (Forall (λ fid, FIELD_ID_RE fid) sel ∧
          (∃ fid, fid ∈ sel ∧ c !! fid = None)
          → code_of a = Some "FIELD_NOT_FOUND") as H3.
  { intros [Ha Hb].
    destruct (verdict_field_not_found now c sel mv Ha Hb)
      as (r' & Hr' & Hc & _).
    by rewrite (Huniq _ Hr') in Hc. }
  assert (Forall (λ fid, FIELD_ID_RE fid) sel ∧
          Forall (λ fid, is_Some (c !! fid)) sel ∧ spans_sources c sel
          → code_of a = Some "MULTI_SOURCE_NOT_ALLOWED") as H4.
  { intros (Ha & Hb & Hc').
    destruct (verdict_multi_source now c sel mv Ha Hb Hc')
      as (r' & Hr' & Hc & _).
    by rewrite (Huniq _ Hr') in Hc. }
  assert (sel ≠ [] ∧ Forall (λ fid, FIELD_ID_RE fid) sel ∧
          (∃ s, all_from c s sel ∧ ¬ SOURCE_RE s)
          → code_of a = Some "INVALID_SOURCE_NAME") as H5.
  { intros (Ha & Hb & s & Hc' & Hd).
    destruct (verdict_invalid_source_name now c sel mv s Ha Hb Hc' Hd)
      as (r' & Hr' & Hc & _).
    by rewrite (Huniq _ Hr') in Hc. }
  assert (sel ≠ [] ∧ Forall (λ fid, FIELD_ID_RE fid) sel ∧
          (∃ s, all_from c s sel ∧ SOURCE_RE s)
          → code_of a = None) as H6.
  { intros (Ha & Hb & s & Hc' & Hd).
    destruct (verdict_allow now c sel mv s Ha Hb Hc' Hd)
      as (r' & Hr' & Hc & _).
    by rewrite (Huniq _ Hr') in Hc. }
  destruct (exit_verdict _ _ _ _ _ Hexit)
    as [(Hc & Hd & HC)|[(Hc & Hd & HC)|[(Hc & Hd & HC)|[(Hc & Hd & HC)
       |[(Hc & Hd & HC)|(Hc & Hd & HC)]]]]];
    cbn [snd] in Hc, Hd;
    (split; [split; [intros Hx; rewrite Hc in Hx; by first [discriminate Hx | exact HC]|exact H1]|]);
    (split; [split; [intros Hx; rewrite Hc in Hx; by first [discriminate Hx | exact HC]|exact H2]|]);
    (split; [split; [intros Hx; rewrite Hc in Hx; by first [discriminate Hx | exact HC]|exact H3]|]);
    (split; [split; [intros Hx; rewrite Hc in Hx; by first [discriminate Hx | exact HC]|exact H4]|]);
    (split; [split; [intros Hx; rewrite Hc in Hx; by first [discriminate Hx | exact HC]|exact H5]|]);
    (split; [intros Hx; rewrite Hd in Hx; by first [discriminate Hx | exact HC]
            |intros Hx; apply H6 in Hx; rewrite Hc in Hx;
             by first [discriminate Hx | exact Hd]]).
Qed.

(** ** What an allowed call hands on *)

Lemma validate_v1_allow_inv now c sel mv r a :
  validate_v1 now c sel mv = Return (r, a) →
  decision a = "ALLOW" →
  ∃ s, sel ≠ [] ∧ Forall (λ fid, FIELD_ID_RE fid) sel ∧ all_from c s sel ∧
       SOURCE_RE s ∧ r = first_occurrences sel ∧
       a = allowed now mv s (first_occurrences sel)
             (duplicate_warnings (duplicates_of sel)).
Proof.
  intros Hrun Hallow.
  destruct (validate_v1_exits now c sel mv) as (r' & Hr & Hexit).
  rewrite Hrun in Hr. injection Hr as <-.
  inversion Hexit as [| | | | |s ids Hsel Hinv Hunk Hgrp Hre]; subst;
    try discriminate Hallow.
  exists s. rewrite deduped_of_first_occurrences.
  split; [done|]. split; [by apply invalid_ids_of_nil_re|].
  split; [by eapply group_loop_one|]. done.
Qed.

Lemma validate_v1_block_inv now c sel mv r a :
  validate_v1 now c sel mv = Return (r, a) →
  decision a ≠ "ALLOW" →
  decision a = "BLOCK" ∧ ∃ e, error a = Some e.
Proof.
  intros Hrun Hblock.
  destruct (validate_v1_exits now c sel mv) as (r' & Hr & Hexit).
  rewrite Hrun in Hr. injection Hr as <-.
  inversion Hexit; subst; cbn in *; try done; eauto.
Qed.

(** X3: whenever the decision is ALLOW, the returned list is the selection
    without its repetitions: it is non-empty and duplicate-free, has the
    elements of the selection, every id in it matches the id pattern and is
    a key of the catalog whose table is [source], [source] matches the table
    pattern, no error is attached and the five controls are all PASS. *)
Theorem validate_v1_allow_sound now c sel mv r a :
  validate_v1 now c sel mv = Return (r, a) →
  decision a = "ALLOW" →
  ∃ s,
    source a = Some s ∧ SOURCE_RE s ∧
    r = first_occurrences sel ∧ fields_selected a = r ∧
    r ≠ [] ∧ NoDup r ∧ (∀ fid, fid ∈ r ↔ fid ∈ sel) ∧
    Forall (λ fid, FIELD_ID_RE fid) r ∧ all_from c s r ∧
    error a = None ∧ status a = "OK" ∧
    controls a
    = [("non_empty_selection", "PASS"); ("all_fields_exist", "PASS");
       ("no_duplicates", "PASS"); ("single_source", "PASS");
       ("valid_source_name", "PASS")].
Proof.
  intros Hrun Hallow.
  destruct (validate_v1_allow_inv _ _ _ _ _ _ Hrun Hallow)
    as (s & Hsel & Hre & Hall & Hs & -> & ->).
  exists s.
  split; [done|]. split; [done|]. split; [done|]. split; [done|].
  split; [by rewrite first_occurrences_nil|].
  split; [apply first_occurrences_NoDup|].
  split; [intros fid; apply first_occurrences_elem|].
  split; [|split; [|done]].
  - rewrite Forall_forall in *. intros fid Hfid. apply Hre.
    by apply (proj1 (first_occurrences_elem _ _)).
  - unfold all_from in *. rewrite Forall_forall in *. intros fid Hfid.
    apply Hall. by apply (proj1 (first_occurrences_elem _ _)).
Qed.

Lemma validate_v1_allow_sound_witness :
  ∃ s,
    source (allowed "2024-01-01T00:00:00Z" "0.1.0" "MODELS" ["pd"; "model_id"]
              (duplicate_warnings [("pd", 2%nat)])) = Some s ∧
    SOURCE_RE s ∧
    ["pd"; "model_id"] = first_occurrences ["pd"; "model_id"; "pd"] ∧
    fields_selected
      (allowed "2024-01-01T00:00:00Z" "0.1.0" "MODELS" ["pd"; "model_id"]
         (duplicate_warnings [("pd", 2%nat)])) = ["pd"; "model_id"] ∧
    ["pd"; "model_id"] ≠ [] ∧ NoDup ["pd"; "model_id"] ∧
    (∀ fid, fid ∈ ["pd"; "model_id"] ↔ fid ∈ ["pd"; "model_id"; "pd"]) ∧
    Forall (λ fid, FIELD_ID_RE fid) ["pd"; "model_id"] ∧
    all_from _fields s ["pd"; "model_id"] ∧
    error (allowed "2024-01-01T00:00:00Z" "0.1.0" "MODELS" ["pd"; "model_id"]
             (duplicate_warnings [("pd", 2%nat)])) = None ∧
    status (allowed "2024-01-01T00:00:00Z" "0.1.0" "MODELS" ["pd"; "model_id"]
              (duplicate_warnings [("pd", 2%nat)])) = "OK" ∧
    controls (allowed "2024-01-01T00:00:00Z" "0.1.0" "MODELS"
                ["pd"; "model_id"] (duplicate_warnings [("pd", 2%nat)]))
    = [("non_empty_selection", "PASS"); ("all_fields_exist", "PASS");
       ("no_duplicates", "PASS"); ("single_source", "PASS");
       ("valid_source_name", "PASS")].
Proof.
  apply (validate_v1_allow_sound "2024-01-01T00:00:00Z" _fields
           ["pd"; "model_id"; "pd"] "0.1.0").
  - reflexivity.
  - reflexivity.
Defined.

(** ** Unknown fields *)

(** X4: a selection of well-formed ids of which at least one is not a key of
    the catalog is blocked with FIELD_NOT_FOUND and returned as it is;
    [unknown_field_ids] lists the ids that are not keys, in selection order
    and with their repetitions; [available_fields] is the duplicate-free
    list of all the keys of the catalog in ascending order; the message
    ends with the unknown ids separated by a comma and a space. *)
Theorem validate_v1_field_not_found now c sel mv fid :
  Forall (λ fid, FIELD_ID_RE fid) sel →
  fid ∈ sel →
  c !! fid = None →
  ∃ a available,
    validate_v1 now c sel mv = Return (sel, a) ∧
    decision a = "BLOCK" ∧ fields_selected a = sel ∧ warnings a = [] ∧
    controls a
    = [("non_empty_selection", "PASS"); ("all_fields_exist", "FAIL")] ∧
    error a = Some (FIELD_NOT_FOUND
                      (filter (λ fid, c !! fid = None) sel) available
                      ("field_id(s) not defined in fields.yml: "
                       +:+ join ", " (filter (λ fid, c !! fid = None) sel))) ∧
    Sorted String.le available ∧ NoDup available ∧
    (∀ k, k ∈ available ↔ is_Some (c !! k)).
Proof.
  intros Hre Hin Hnone. do 2 eexists. split.
  { apply validate_v1_exit_complete, exit_field_not_found.
    - intros ->. by apply elem_of_nil in Hin.
    - by apply invalid_ids_of_nil_re.
    - apply (filter_ne_nil _ sel). eauto. }
  do 5 (split; [done|]).
  split; [apply sorted_Sorted|].
  split; [apply sorted_NoDup, NoDup_fst_map_to_list|].
  intros k. rewrite sorted_elem, list_elem_of_fmap. split.
  - intros ([k' f] & -> & Hkf). apply elem_of_map_to_list in Hkf. eauto.
  - intros [f Hf]. exists (k, f). split; [done|].
    by apply elem_of_map_to_list.
Qed.

Lemma validate_v1_field_not_found_witness :
  ∃ a available,
    validate_v1 "2024-01-01T00:00:00Z" _fields ["zz"; "pd"; "yy"; "zz"]
      "0.1.0" = Return (["zz"; "pd"; "yy"; "zz"], a) ∧
    decision a = "BLOCK" ∧ fields_selected a = ["zz"; "pd"; "yy"; "zz"] ∧
    warnings a = [] ∧
    controls a
    = [("non_empty_selection", "PASS"); ("all_fields_exist", "FAIL")] ∧
    error a = Some (FIELD_NOT_FOUND
                      (filter (λ fid, _fields !! fid = None)
                         ["zz"; "pd"; "yy"; "zz"]) available
                      ("field_id(s) not defined in fields.yml: "
                       +:+ join ", "
                             (filter (λ fid, _fields !! fid = None)
                                ["zz"; "pd"; "yy"; "zz"]))) ∧
    Sorted String.le available ∧ NoDup available ∧
    (∀ k, k ∈ available ↔ is_Some (_fields !! k)).
Proof.
  apply (validate_v1_field_not_found _ _ _ _ "yy").
  - repeat constructor.
  - set_solver.
  - reflexivity.
Defined.

(** ** Ill-formed source names *)

(** X5: a non-empty selection of well-formed, known ids that all belong to one
    table whose name does not match [^[A-Z0-9_]+$] is blocked with
    INVALID_SOURCE_NAME carrying that name; the de-duplicated selection is
    returned, the four earlier controls are PASS, and [source] stays
    unset. *)
Theorem validate_v1_invalid_source_name now c sel mv s :
  sel ≠ [] →
  Forall (λ fid, FIELD_ID_RE fid) sel →
  all_from c s sel →
  ¬ SOURCE_RE s →
  ∃ a msg,
    validate_v1 now c sel mv = Return (first_occurrences sel, a) ∧
    decision a = "BLOCK" ∧ source a = None ∧ fields_selected a = sel ∧
    error a = Some (INVALID_SOURCE_NAME s msg) ∧
    controls a
    = [("non_empty_selection", "PASS"); ("all_fields_exist", "PASS");
       ("no_duplicates", "PASS"); ("single_source", "PASS");
       ("valid_source_name", "FAIL")].
Proof.
  intros Hsel Hre Hall Hs.
  destruct (verdict_invalid_source_name now c sel mv s Hsel Hre Hall Hs)
    as (r & Hexit & _ & ->).
  do 2 eexists. split; [by apply validate_v1_exit_complete|done].
Qed.

Lemma validate_v1_invalid_source_name_witness :
  ∃ a msg,
    validate_v1 "2024-01-01T00:00:00Z" lowercase_fields ["pd"; "pd"] "0.1.0"
    = Return (first_occurrences ["pd"; "pd"], a) ∧
    decision a = "BLOCK" ∧ source a = None ∧
    fields_selected a = ["pd"; "pd"] ∧
    error a = Some (INVALID_SOURCE_NAME "models" msg) ∧
    controls a
    = [("non_empty_selection", "PASS"); ("all_fields_exist", "PASS");
       ("no_duplicates", "PASS"); ("single_source", "PASS");
       ("valid_source_name", "FAIL")].
Proof.
  apply validate_v1_invalid_source_name.
  - done.
  - repeat constructor.
  - repeat constructor; by eexists.
  - intros H. exact H.
Defined.

(** ** The verdict and the set of selected ids *)

Lemma exit_decision now c sel mv r :
  validate_v1_exit now c sel mv r →
  decision r.2 = (if code_of r.2 is None then "ALLOW" else "BLOCK").
Proof. by destruct 1. Qed.

Lemma same_ids_Forall (P : string → Prop) (sel1 sel2 : list string) :
  (∀ fid, fid ∈ sel1 ↔ fid ∈ sel2) → Forall P sel1 → Forall P sel2.
Proof.
  intros Hset. rewrite !Forall_forall. intros HP fid Hfid.
  by apply HP, Hset.
Qed.

Lemma same_ids_not_nil (sel1 sel2 : list string) :
  (∀ fid, fid ∈ sel1 ↔ fid ∈ sel2) → sel1 ≠ [] → sel2 ≠ [].
Proof.
  intros Hset Hne ->. destruct sel1 as [|fid sel1]; [done|].
  apply (elem_of_nil fid), Hset. left.
Qed.

(** X6: the verdict depends on the selection only through the set of its ids:
    two selections with the same ids, in any order and with any
    repetitions, get the same decision, the same error code and the same
    source from the same catalog, whatever the clock and the version. *)
Theorem validate_v1_verdict_of_set now1 now2 mv1 mv2 c sel1 sel2 r1 a1 r2 a2 :
  (∀ fid, fid ∈ sel1 ↔ fid ∈ sel2) →
  validate_v1 now1 c sel1 mv1 = Return (r1, a1) →
  validate_v1 now2 c sel2 mv2 = Return (r2, a2) →
  decision a1 = decision a2 ∧ code_of a1 = code_of a2 ∧
  source a1 = source a2.
Proof.
  intros Hset Hrun1 Hrun2.
  destruct (validate_v1_exits now1 c sel1 mv1) as (r1' & Hr1 & Hexit1).
  destruct (validate_v1_exits now2 c sel2 mv2) as (r2' & Hr2 & Hexit2).
  rewrite Hrun1 in Hr1. injection Hr1 as <-.
  rewrite Hrun2 in Hr2. injection Hr2 as <-.
  pose proof (exit_decision _ _ _ _ _ Hexit1) as Hd1.
  pose proof (exit_decision _ _ _ _ _ Hexit2) as Hd2.
  cbn [snd] in Hd1, Hd2.
  assert (∀ now mv sel r a r',
            validate_v1 now c sel mv = Return (r, a) →
            validate_v1_exit now c sel mv r' → r' = (r, a)) as Huniq.
  { intros now mv sel r a r' Hrun Hr'.
    apply validate_v1_exit_complete in Hr'. congruence. }
  assert (code_of a1 = code_of a2 ∧ source a1 = source a2) as [Hc Hs];
    [|by rewrite Hd1, Hd2, Hc].
  destruct (exit_verdict _ _ _ _ _ Hexit1)
    as [(_ & _ & HC)|[(_ & _ & HC)|[(_ & _ & HC)|[(_ & _ & HC)
       |[(_ & _ & HC)|(_ & _ & HC)]]]]].
  - assert (sel2 = []) as HC2.
    { destruct sel2 as [|fid ?]; [done|]. subst sel1.
      exfalso. apply (elem_of_nil fid), Hset. left. }
    destruct (verdict_empty now1 c sel1 mv1 HC) as (x1 & Hx1 & Hc1 & Hs1).
    destruct (verdict_empty now2 c sel2 mv2 HC2) as (x2 & Hx2 & Hc2 & Hs2).
    rewrite (Huniq _ _ _ _ _ _ Hrun1 Hx1) in Hc1, Hs1.
    rewrite (Huniq _ _ _ _ _ _ Hrun2 Hx2) in Hc2, Hs2.
    cbn [snd] in *. by rewrite Hc1, Hc2, Hs1, Hs2.
  - assert (∃ fid, fid ∈ sel2 ∧ ¬ FIELD_ID_RE fid) as HC2.
    { destruct HC as (fid & Hfid & ?). exists fid. split; [by apply Hset|done]. }
    destruct (verdict_invalid_field_id now1 c sel1 mv1 HC)
      as (x1 & Hx1 & Hc1 & Hs1).
    destruct (verdict_invalid_field_id now2 c sel2 mv2 HC2)
      as (x2 & Hx2 & Hc2 & Hs2).
    rewrite (Huniq _ _ _ _ _ _ Hrun1 Hx1) in Hc1, Hs1.
    rewrite (Huniq _ _ _ _ _ _ Hrun2 Hx2) in Hc2, Hs2.
    cbn [snd] in *. by rewrite Hc1, Hc2, Hs1, Hs2.
  - destruct HC as (Hre & fid & Hfid & Hnone).
    pose proof (same_ids_Forall _ _ _ Hset Hre) as Hre2.
    assert (∃ fid, fid ∈ sel1 ∧ c !! fid = None) as HC1 by eauto.
    assert (∃ fid, fid ∈ sel2 ∧ c !! fid = None) as HC2.
    { exists fid. split; [by apply Hset|done]. }
    destruct (verdict_field_not_found now1 c sel1 mv1 Hre HC1)
      as (x1 & Hx1 & Hc1 & Hs1).
    destruct (verdict_field_not_found now2 c sel2 mv2 Hre2 HC2)
      as (x2 & Hx2 & Hc2 & Hs2).
    rewrite (Huniq _ _ _ _ _ _ Hrun1 Hx1) in Hc1, Hs1.
    rewrite (Huniq _ _ _ _ _ _ Hrun2 Hx2) in Hc2, Hs2.
    cbn [snd] in *. by rewrite Hc1, Hc2, Hs1, Hs2.
  - destruct HC as (Hre & Hknown & Hspan).
    pose proof (same_ids_Forall _ _ _ Hset Hre) as Hre2.
    pose proof (same_ids_Forall _ _ _ Hset Hknown) as Hknown2.
    assert (spans_sources c sel2) as Hspan2.
    { destruct Hspan as (fid1 & fid2 & f1 & f2 & ? & ? & ? & ? & ?).
      exists fid1, fid2, f1, f2. split_and!; try done; by apply Hset. }
    destruct (verdict_multi_source now1 c sel1 mv1 Hre Hknown Hspan)
      as (x1 & Hx1 & Hc1 & Hs1).
    destruct (verdict_multi_source now2 c sel2 mv2 Hre2 Hknown2 Hspan2)
      as (x2 & Hx2 & Hc2 & Hs2).
    rewrite (Huniq _ _ _ _ _ _ Hrun1 Hx1) in Hc1, Hs1.
    rewrite (Huniq _ _ _ _ _ _ Hrun2 Hx2) in Hc2, Hs2.
    cbn [snd] in *. by rewrite Hc1, Hc2, Hs1, Hs2.
  - destruct HC as (Hne & Hre & s & Hall & Hs).
    pose proof (same_ids_not_nil _ _ Hset Hne) as Hne2.
    pose proof (same_ids_Forall _ _ _ Hset Hre) as Hre2.
    pose proof (same_ids_Forall _ _ _ Hset Hall) as Hall2.
    destruct (verdict_invalid_source_name now1 c sel1 mv1 s Hne Hre Hall Hs)
      as (x1 & Hx1 & _ & Hr1).
    destruct (verdict_invalid_source_name now2 c sel2 mv2 s Hne2 Hre2 Hall2 Hs)
      as (x2 & Hx2 & _ & Hr2).
    rewrite (Huniq _ _ _ _ _ _ Hrun1 Hx1) in Hr1.
    rewrite (Huniq _ _ _ _ _ _ Hrun2 Hx2) in Hr2.
    injection Hr1 as _ ->. injection Hr2 as _ ->. done.
  - destruct HC as (Hne & Hre & s & Hall & Hs).
    pose proof (same_ids_not_nil _ _ Hset Hne) as Hne2.
    pose proof (same_ids_Forall _ _ _ Hset Hre) as Hre2.
    pose proof (same_ids_Forall _ _ _ Hset Hall) as Hall2.
    destruct (verdict_allow now1 c sel1 mv1 s Hne Hre Hall Hs)
      as (x1 & Hx1 & Hc1 & Hs1).
    destruct (verdict_allow now2 c sel2 mv2 s Hne2 Hre2 Hall2 Hs)
      as (x2 & Hx2 & Hc2 & Hs2).
    rewrite (Huniq _ _ _ _ _ _ Hrun1 Hx1) in Hc1, Hs1.
    rewrite (Huniq _ _ _ _ _ _ Hrun2 Hx2) in Hc2, Hs2.
    cbn [snd] in *. by rewrite Hc1, Hc2, Hs1, Hs2.
Qed.

Lemma validate_v1_verdict_of_set_witness :
  decision (allowed "2024-01-01T00:00:00Z" "0.1.0" "MODELS" ["pd"; "model_id"]
              (duplicate_warnings [("pd", 2%nat)]))
  = decision (allowed "2025-06-30T12:00:00Z" "0.2.0" "MODELS"
                ["model_id"; "pd"] []) ∧
  code_of (allowed "2024-01-01T00:00:00Z" "0.1.0" "MODELS" ["pd"; "model_id"]
             (duplicate_warnings [("pd", 2%nat)]))
  = code_of (allowed "2025-06-30T12:00:00Z" "0.2.0" "MODELS"
               ["model_id"; "pd"] []) ∧
  source (allowed "2024-01-01T00:00:00Z" "0.1.0" "MODELS" ["pd"; "model_id"]
            (duplicate_warnings [("pd", 2%nat)]))
  = source (allowed "2025-06-30T12:00:00Z" "0.2.0" "MODELS"
              ["model_id"; "pd"] []).
Proof.
  apply (validate_v1_verdict_of_set "2024-01-01T00:00:00Z"
           "2025-06-30T12:00:00Z" "0.1.0" "0.2.0" _fields
           ["pd"; "model_id"; "pd"] ["model_id"; "pd"]
           ["pd"; "model_id"] _ ["model_id"; "pd"] _).
  - set_solver.
  - reflexivity.
  - reflexivity.
Defined.

(** ** Which objects the call returns *)

(** The facts about the returned references, once the run is known. *)
Ltac st_refs :=
  split; [erewrite lookup_new by reflexivity; reflexivity|];
  cbn [o_fields_selected o_controls o_warnings];
  split;
    [split;
       [intros ?; first [lia | by repeat first [left | right]]
       |intros Hin;
        first [reflexivity
              |exfalso; cbn in Hin;
               repeat (apply elem_of_cons in Hin as [Hin|Hin];
                       [discriminate Hin|]);
               by apply elem_of_nil in Hin]]|];
  split; [intros ?; lia|];
  do 4 (split; [lia|]);
  apply NoDup_ListNoDup; repeat constructor; cbn; lia.

(** X7: run on a store that holds the catalog at [lc] and the selection at
    [ls], the call returns the caller's own list object [ls] exactly when it
    blocks with EMPTY_SELECTION, INVALID_FIELD_ID or FIELD_NOT_FOUND, and a
    list it has allocated itself otherwise.  The audit object and the
    objects behind its [fields_selected], [controls] and [warnings] are
    always allocated by the call and are distinct from each other and from
    the returned list: [fields_selected] is a copy, which later changes to
    the returned list or to the caller's list do not reach. *)
Theorem validate_v1_store_aliasing now lc ls mv (σ : list obj) c sel :
  σ !! lc = Some (OFields c) →
  σ !! ls = Some (OList sel) →
  ∃ lr la new ao r a,
    validate_v1_store now lc ls mv σ = Return ((lr, la), σ ++ new) ∧
    validate_v1 now c sel mv = Return (r, a) ∧
    (σ ++ new) !! la = Some (OAudit ao) ∧
    (lr = ls ↔ code_of a ∈ [Some "EMPTY_SELECTION"; Some "INVALID_FIELD_ID";
                             Some "FIELD_NOT_FOUND"]) ∧
    (lr ≠ ls → length σ ≤ lr)%nat ∧
    (length σ ≤ la)%nat ∧ (length σ ≤ o_fields_selected ao)%nat ∧
    (length σ ≤ o_controls ao)%nat ∧ (length σ ≤ o_warnings ao)%nat ∧
    NoDup [lr; la; o_fields_selected ao; o_controls ao; o_warnings ao].
Proof.
  intros Hc Hs. pose proof (lookup_lt_Some _ _ _ Hs) as Hlt.
  destruct (validate_v1_exits now c sel mv) as (res & Hres & Hexit).
  destruct Hexit as [Hsel|Hsel Hinv|Hsel Hinv Hunk|srcs Hsel Hinv Hunk Hgrp Hlen
    |s ids Hsel Hinv Hunk Hgrp Hre|s ids Hsel Hinv Hunk Hgrp Hre].
  - subst sel. st_start. do 6 eexists. st_go.
    split; [reflexivity|]. split; [exact Hres|]. st_refs.
  - assert (length sel ≠ 0) as Hlen by (by destruct sel).
    st_start. do 6 eexists. st_go.
    split; [reflexivity|]. split; [exact Hres|]. st_refs.
  - assert (length sel ≠ 0) as Hlen by (by destruct sel).
    assert (¬ invalid_ids_of sel ≠ []) as Hinv' by (intros H'; by apply H').
    st_start. do 6 eexists. st_go.
    split; [reflexivity|]. split; [exact Hres|]. st_refs.
  - assert (length sel ≠ 0) as Hlen' by (by destruct sel).
    assert (¬ invalid_ids_of sel ≠ []) as Hinv' by (intros H'; by apply H').
    assert (¬ unknown_of c sel ≠ []) as Hunk' by (intros H'; by apply H').
    destruct (decide (duplicates_of sel ≠ [])) as [Hd|Hd];
      [|pose proof (dec_stable Hd) as Hd0];
      st_start; do 6 eexists; st_go; st_keys; st_fold sel;
      rewrite Hgrp; st_simpl; st_go;
      rewrite loc_dict_length;
      rewrite decide_True by (unfold odict.keys; by rewrite length_fmap);
      st_go; st_keys; erewrite seq_read_groups by reflexivity; st_go;
      rewrite loc_dict_keys;
      (split; [reflexivity|]); (split; [exact Hres|]); st_refs.
  - assert (length sel ≠ 0) as Hlen' by (by destruct sel).
    assert (¬ invalid_ids_of sel ≠ []) as Hinv' by (intros H'; by apply H').
    assert (¬ unknown_of c sel ≠ []) as Hunk' by (intros H'; by apply H').
    destruct (decide (duplicates_of sel ≠ [])) as [Hd|Hd];
      [|pose proof (dec_stable Hd) as Hd0];
      st_start; do 6 eexists; st_go; st_keys; st_fold sel;
      rewrite Hgrp;
      cbn [odict.keys odict.values fmap list_fmap fst snd loc_dict];
      st_simpl; st_go; st_keys;
      cbn [odict.keys fmap list_fmap fst]; st_go; st_keys;
      (split; [reflexivity|]); (split; [exact Hres|]); st_refs.
  - assert (length sel ≠ 0) as Hlen' by (by destruct sel).
    assert (¬ invalid_ids_of sel ≠ []) as Hinv' by (intros H'; by apply H').
    assert (¬ unknown_of c sel ≠ []) as Hunk' by (intros H'; by apply H').
    assert (¬ ¬ SOURCE_RE s) as Hre' by (intros H'; by apply H').
    destruct (decide (duplicates_of sel ≠ [])) as [Hd|Hd];
      [|pose proof (dec_stable Hd) as Hd0];
      st_start; do 6 eexists; st_go; st_keys; st_fold sel;
      rewrite Hgrp;
      cbn [odict.keys odict.values fmap list_fmap fst snd loc_dict];
      st_simpl; st_go; st_keys;
      cbn [odict.keys fmap list_fmap fst]; st_go; st_keys;
      (split; [reflexivity|]); (split; [exact Hres|]); st_refs.
Qed.

Lemma validate_v1_store_aliasing_witness :
  ∃ lr la new ao r a,
    validate_v1_store "2024-01-01T00:00:00Z" 0 1 "0.1.0" example_store
    = Return ((lr, la), example_store ++ new) ∧
    validate_v1 "2024-01-01T00:00:00Z" _fields ["model_id"; "model_id"; "pd"]
      "0.1.0" = Return (r, a) ∧
    (example_store ++ new) !! la = Some (OAudit ao) ∧
    (lr = 1%nat
     ↔ code_of a ∈ [Some "EMPTY_SELECTION"; Some "INVALID_FIELD_ID";
                    Some "FIELD_NOT_FOUND"]) ∧
    (lr ≠ 1%nat → length example_store ≤ lr)%nat ∧
    (length example_store ≤ la)%nat ∧
    (length example_store ≤ o_fields_selected ao)%nat ∧
    (length example_store ≤ o_controls ao)%nat ∧
    (length example_store ≤ o_warnings ao)%nat ∧
    NoDup [lr; la; o_fields_selected ao; o_controls ao; o_warnings ao].
Proof.
  apply (validate_v1_store_aliasing "2024-01-01T00:00:00Z" 0 1 "0.1.0"
           example_store _fields ["model_id"; "model_id"; "pd"]).
  - reflexivity.
  - reflexivity.
Defined.

(** * Properties of the loaders *)

(** ** [ascii_strip] *)

Lemma rstrip_unfold c s :
  rstrip (String c s)
  = match rstrip s with
    | "" => if isspace c then "" else String c ""
    | r => String c r
    end.
Proof. reflexivity. Qed.

Lemma rstrip_cons_nonspace c s :
  isspace c = false → rstrip (String c s) = String c (rstrip s).
Proof.
  intros Hc. rewrite rstrip_unfold. destruct (rstrip s); [by rewrite Hc|done].
Qed.

Lemma rstrip_idemp s : rstrip (rstrip s) = rstrip s.
Proof.
  induction s as [|a s IH]; [done|]. rewrite rstrip_unfold.
  destruct (rstrip s) as [|b r] eqn:Hr.
  - destruct (isspace a) eqn:Ha; [done|]. by rewrite rstrip_unfold, Ha.
  - by rewrite rstrip_unfold, IH.
Qed.

Lemma rstrip_last s w c : rstrip s = w +:+ String c "" → isspace c = false.
Proof.
  revert w. induction s as [|a s IH]; intros w.
  - intros Heq. by apply symmetry, string_app_not_nil in Heq.
  - rewrite rstrip_unfold. destruct (rstrip s) as [|b r] eqn:Hr.
    + destruct (isspace a) eqn:Ha.
      * intros Heq. by apply symmetry, string_app_not_nil in Heq.
      * destruct w as [|a' w].
        -- rewrite string_app_nil. intros Heq. congruence.
        -- rewrite string_app_cons. intros Heq. injection Heq as _ Heq.
           by apply symmetry, string_app_not_nil in Heq.
    + destruct w as [|a' w].
      * rewrite string_app_nil. intros Heq. discriminate Heq.
      * rewrite string_app_cons. intros Heq. injection Heq as _ Heq.
        by apply (IH w).
Qed.

Lemma lstrip_head s :
  lstrip s = "" ∨ ∃ c t, lstrip s = String c t ∧ isspace c = false.
Proof.
  induction s as [|a s IH]; [by left|]. cbn.
  destruct (isspace a) eqn:Ha; [done|]. right. eauto.
Qed.

Lemma ascii_strip_idemp s : ascii_strip (ascii_strip s) = ascii_strip s.
Proof.
  unfold ascii_strip.
  destruct (lstrip_head s) as [->|(c & t & -> & Hc)]; [done|].
  rewrite rstrip_cons_nonspace by done. cbn [lstrip]. rewrite Hc.
  rewrite rstrip_cons_nonspace by done. by rewrite rstrip_idemp.
Qed.

Lemma ascii_strip_no_newline s w :
  ascii_strip s ≠ w +:+ String newline "".
Proof. intros Heq. by apply rstrip_last in Heq. Qed.

Section loader_facts.
Context `{env : Loader_env}.

Lemma non_empty_str_Some v s :
  non_empty_str v = Some s ↔ v = YStr s ∧ strip s ≠ "".
Proof.
  unfold non_empty_str. destruct v; try (split; [done|by intros [? _]]).
  case_decide; split; try done.
  - intros [[= ->] ?]. done.
  - intros [= ->]. done.
  - intros [[= ->] ?]. done.
Qed.

Lemma _load_yaml_Loaded p d :
  _load_yaml p = Loaded d ↔
  ∃ text, read_text p = FileText text ∧
          (safe_load text = inr (YDict d) ∨
           safe_load text = inr YNone ∧ d = ∅).
Proof.
  unfold _load_yaml. split.
  - destruct (read_text p) as [text| |]; [|done..].
    destruct (safe_load text) as [e|[]] eqn:Hl; try done;
      intros [= <-]; exists text; split; auto.
  - intros (text & -> & [->| [-> ->]]); done.
Qed.

(** ** [load_selection] *)

Lemma load_selection_loop_Loaded p i items out sel :
  load_selection_loop p i items out = Loaded sel ↔
  ∃ raws, items = YStr <$> raws ∧ Forall (λ s, strip s ≠ "") raws ∧
          sel = out ++ (strip <$> raws).
Proof.
  revert i out. induction items as [|item items IH]; intros i out; cbn.
  - split.
    + intros [= <-]. exists []. by rewrite app_nil_r.
    + intros (raws & Hnil & _ & ->). destruct raws; [|done].
      by rewrite app_nil_r.
  - destruct (non_empty_str item) as [s|] eqn:Hitem.
    + apply non_empty_str_Some in Hitem as [-> Hs]. rewrite IH. split.
      * intros (raws & -> & Hall & ->). exists (s :: raws).
        split; [done|]. split; [by constructor|].
        by rewrite <-app_assoc.
      * intros (raws & Heq & Hall & ->). destruct raws as [|s' raws]; [done|].
        injection Heq as -> ->. apply Forall_cons in Hall as [_ Hall].
        exists raws. split; [done|]. split; [done|].
        by rewrite <-app_assoc.
    + split; [done|]. intros (raws & Heq & Hall & _).
      destruct raws as [|s' raws]; [done|]. injection Heq as -> ->.
      apply Forall_cons in Hall as [Hs _].
      assert (non_empty_str (YStr s') = Some s') as Hsome
        by (by apply non_empty_str_Some).
      congruence.
Qed.

Lemma load_selection_loop_error p i good bad rest out :
  Forall (λ s, strip s ≠ "") good →
  non_empty_str bad = None →
  load_selection_loop p i ((YStr <$> good) ++ bad :: rest) out
  = YamlLoadError ("selected_field_ids[" +:+ pretty (i + length good)
                   +:+ "] must be a non-empty string in " +:+ p).
Proof.
  intros Hgood Hbad. revert i out.
  induction Hgood as [|s good Hs _ IH]; intros i out; cbn -[non_empty_str].
  - rewrite Hbad. by rewrite Nat.add_0_r.
  - assert (non_empty_str (YStr s) = Some s) as ->
      by (by apply non_empty_str_Some).
    rewrite IH. by replace (S i + length good) with (i + S (length good))
      by lia.
Qed.

Lemma load_selection_inv p sel :
  load_selection p = Loaded sel ↔
  ∃ d raws,
    _load_yaml p = Loaded d ∧
    d !! "selected_field_ids" = Some (YList (YStr <$> raws)) ∧
    Forall (λ s, strip s ≠ "") raws ∧
    sel = strip <$> raws.
Proof.
  unfold load_selection. split.
  - destruct (_load_yaml p) as [d| |]; [|done..]. cbn.
    unfold dict_get.
    destruct (d !! "selected_field_ids") as [[]|] eqn:Hd; try done. cbn.
    intros (raws & -> & Hall & ->)%load_selection_loop_Loaded.
    by exists d, raws.
  - intros (d & raws & -> & Hd & Hall & ->). cbn. unfold dict_get.
    rewrite Hd. cbn. apply load_selection_loop_Loaded. by exists raws.
Qed.

(** X8: [load_selection] succeeds exactly when the file parses to a mapping
    whose [selected_field_ids] is a list of strings none of which is blank,
    and then returns them stripped, in order and with their repetitions (an
    empty list is accepted). *)
Theorem load_selection_Loaded p sel :
  load_selection p = Loaded sel ↔
  ∃ d raws,
    _load_yaml p = Loaded d ∧
    d !! "selected_field_ids" = Some (YList (YStr <$> raws)) ∧
    Forall (λ s, strip s ≠ "") raws ∧
    sel = strip <$> raws.
Proof. apply load_selection_inv. Qed.

(** X9: the first item of [selected_field_ids] that is not a string, or is
    blank, is the one the error message names, by its index. *)
Theorem load_selection_first_offender p d good bad rest :
  _load_yaml p = Loaded d →
  d !! "selected_field_ids" = Some (YList ((YStr <$> good) ++ bad :: rest)) →
  Forall (λ s, strip s ≠ "") good →
  non_empty_str bad = None →
  load_selection p
  = YamlLoadError ("selected_field_ids[" +:+ pretty (length good)
                   +:+ "] must be a non-empty string in " +:+ p).
Proof.
  intros Hd Hsel Hgood Hbad. unfold load_selection. rewrite Hd. cbn.
  unfold dict_get. rewrite Hsel. cbn.
  by rewrite load_selection_loop_error.
Qed.

(** ** [load_fields] *)

Lemma load_fields_item_Loaded p i item out c :
  load_fields_item p i item out = Loaded c →
  ∃ d k dt sq,
    item = YDict d ∧
    d !! "field_id" = Some (YStr k) ∧ strip k ≠ "" ∧
    d !! "datatable_id" = Some (YStr dt) ∧ strip dt ≠ "" ∧
    d !! "sql_expr" = Some (YStr sq) ∧ strip sq ≠ "" ∧
    c = <[k := mkField (strip k) (strip dt) (strip sq)
                 (strip_if_str (dict_get d "label"))]> out.
Proof.
  unfold load_fields_item. destruct item as [| | |d|]; try done.
  destruct (non_empty_str (dict_get d "field_id")) as [k|] eqn:Hk; [|done].
  destruct (non_empty_str (dict_get d "datatable_id")) as [dt|] eqn:Hdt;
    [|done].
  destruct (non_empty_str (dict_get d "sql_expr")) as [sq|] eqn:Hsq; [|done].
  destruct (negb _ && negb _); [done|]. intros [= <-].
  apply non_empty_str_Some in Hk as [Hk ?], Hdt as [Hdt ?], Hsq as [Hsq ?].
  unfold dict_get in Hk, Hdt, Hsq.
  destruct (d !! "field_id") as [?|] eqn:?; [|done].
  destruct (d !! "datatable_id") as [?|] eqn:?; [|done].
  destruct (d !! "sql_expr") as [?|] eqn:?; [|done].
  cbn in *. subst. by exists d, k, dt, sq.
Qed.

Lemma declared_id_Some item k :
  declared_id item = Some k ↔
  ∃ d, item = YDict d ∧ d !! "field_id" = Some (YStr k).
Proof.
  unfold declared_id. split.
  - destruct item as [| | |d|]; try done.
    destruct (d !! "field_id") as [[]|] eqn:Hd; try done.
    intros [= ->]. by exists d.
  - intros (d & -> & ->). done.
Qed.

(** Items that do not declare [k] leave the entry of [k] as it is. *)
Lemma load_fields_loop_other p i items out c k :
  load_fields_loop p i items out = Loaded c →
  Forall (λ item, declared_id item ≠ Some k) items →
  c !! k = out !! k.
Proof.
  revert i out. induction items as [|item items IH]; intros i out; cbn.
  - by intros [= <-] _.
  - destruct (load_fields_item p i item out) as [out'| |] eqn:Hitem; [|done..].
    cbn. intros Hloop [Hk Hrest]%Forall_cons.
    rewrite (IH _ _ Hloop Hrest).
    apply load_fields_item_Loaded in Hitem
      as (d & k' & dt & sq & -> & Hd & _ & _ & _ & _ & _ & ->).
    apply lookup_insert_ne. intros ->. apply Hk.
    apply declared_id_Some. by exists d.
Qed.

Lemma load_fields_loop_app p i items1 items2 out :
  load_fields_loop p i (items1 ++ items2) out
  = (out' ← load_fields_loop p i items1 out;
     load_fields_loop p (i + length items1) items2 out').
Proof.
  revert i out. induction items1 as [|item items1 IH]; intros i out; cbn.
  - by rewrite Nat.add_0_r.
  - destruct (load_fields_item p i item out) as [out'| |]; [|done..]. cbn.
    rewrite IH. by replace (S i + length items1)
      with (i + S (length items1)) by lia.
Qed.

(** What holds of the entries of the dictionary the loop returns. *)
Lemma load_fields_loop_entries p i items out c :
  load_fields_loop p i items out = Loaded c →
  (∀ k, is_Some (c !! k) ↔
        is_Some (out !! k) ∨ ∃ item, item ∈ items ∧ declared_id item = Some k) ∧
  (∀ k f, c !! k = Some f →
          out !! k = Some f ∨
          field_id f = strip k ∧ field_id f ≠ "" ∧
          (∃ dt, datatable_id f = strip dt ∧ strip dt ≠ "") ∧
          (∃ sq, sql_expr f = strip sq ∧ strip sq ≠ "")).
Proof.
  revert i out. induction items as [|item items IH]; intros i out; cbn.
  - intros [= <-]. split.
    + intros k. split; [by left|]. intros [?|(item & Hin & _)]; [done|].
      by apply elem_of_nil in Hin.
    + intros k f ?. by left.
  - destruct (load_fields_item p i item out) as [out'| |] eqn:Hitem; [|done..].
    cbn. intros Hloop. destruct (IH _ _ Hloop) as [IH1 IH2].
    apply load_fields_item_Loaded in Hitem
      as (d & k' & dt & sq & -> & Hd & Hk' & _ & Hdt & _ & Hsq & ->).
    split.
    + intros k. rewrite IH1. split.
      * intros [Hk|(item & Hin & Hitem)].
        -- destruct (decide (k = k')) as [->|Hne].
           ++ right. exists (YDict d). split; [left|].
              apply declared_id_Some. by exists d.
           ++ left. by rewrite lookup_insert_ne in Hk.
        -- right. exists item. split; [by right|done].
      * intros [Hk|(item & Hin & Hitem)].
        -- left. destruct (decide (k = k')) as [->|Hne].
           ++ by rewrite lookup_insert_eq.
           ++ by rewrite lookup_insert_ne.
        -- apply elem_of_cons in Hin as [->|Hin].
           ++ left. apply declared_id_Some in Hitem as (d' & [= <-] & Hd').
              rewrite Hd in Hd'. injection Hd' as ->.
              by rewrite lookup_insert_eq.
           ++ right. by exists item.
    + intros k f Hf. destruct (IH2 k f Hf) as [Hout|?]; [|by right].
      destruct (decide (k = k')) as [->|Hne].
      * rewrite lookup_insert_eq in Hout. injection Hout as <-. right. cbn.
        split; [done|]. split; [done|]. split; eauto.
      * left. by rewrite lookup_insert_ne in Hout.
Qed.

Lemma load_fields_entries p c :
  load_fields p = Loaded c →
  ∃ d raw_fields,
    _load_yaml p = Loaded d ∧
    d !! "fields" = Some (YList raw_fields) ∧
    (∀ k, is_Some (c !! k)
          ↔ ∃ item, item ∈ raw_fields ∧ declared_id item = Some k) ∧
    (∀ k f, c !! k = Some f →
            field_id f = strip k ∧ field_id f ≠ "" ∧
            (∃ dt, datatable_id f = strip dt ∧ strip dt ≠ "") ∧
            (∃ sq, sql_expr f = strip sq ∧ strip sq ≠ "")).
Proof.
  unfold load_fields. destruct (_load_yaml p) as [d| |]; [|done..]. cbn.
  unfold dict_get. destruct (d !! "fields") as [[| |raw| |]|] eqn:Hd; try done.
  cbn. intros [H1 H2]%load_fields_loop_entries.
  exists d, raw. split; [done|]. split; [done|]. split.
  - intros k. rewrite H1. rewrite lookup_empty. split.
    + intros [[? [=]]|?]; done.
    + by right.
  - intros k f Hf. destruct (H2 k f Hf) as [Hout|?]; [|done].
    by rewrite lookup_empty in Hout.
Qed.

(** X10: a catalog that [load_fields] returns has one entry per [field_id]
    declared in the file, under the id as it is written there; the [Field]
    stored under a key has the stripped key as its [field_id], and its
    [field_id], [datatable_id] and [sql_expr] are stripped and not empty. *)
Theorem load_fields_sound p c :
  load_fields p = Loaded c →
  ∃ d raw_fields,
    _load_yaml p = Loaded d ∧
    d !! "fields" = Some (YList raw_fields) ∧
    (∀ k, is_Some (c !! k)
          ↔ ∃ item, item ∈ raw_fields ∧ declared_id item = Some k) ∧
    (∀ k f, c !! k = Some f →
            field_id f = strip k ∧ field_id f ≠ "" ∧
            (∃ dt, datatable_id f = strip dt ∧ strip dt ≠ "") ∧
            (∃ sq, sql_expr f = strip sq ∧ strip sq ≠ "")).
Proof. apply load_fields_entries. Qed.

(** X11: when several items declare the same [field_id], the last one is the one
    the catalog keeps; the earlier ones are dropped without a message. *)
Theorem load_fields_last_wins p c d before item after k :
  load_fields p = Loaded c →
  _load_yaml p = Loaded d →
  d !! "fields" = Some (YList (before ++ YDict item :: after)) →
  item !! "field_id" = Some (YStr k) →
  Forall (λ it, declared_id it ≠ Some k) after →
  ∃ dt sq,
    item !! "datatable_id" = Some (YStr dt) ∧
    item !! "sql_expr" = Some (YStr sq) ∧
    c !! k = Some (mkField (strip k) (strip dt) (strip sq)
                     (strip_if_str (dict_get item "label"))).
Proof.
  unfold load_fields. intros Hload Hd Hraw Hk Hafter.
  rewrite Hd in Hload. cbn in Hload. unfold dict_get in Hload.
  rewrite Hraw in Hload. cbn in Hload.
  rewrite load_fields_loop_app in Hload.
  destruct (load_fields_loop p 0 before ∅) as [out1| |]; [|done..].
  cbn [mbind loaded_bind load_fields_loop] in Hload.
  destruct (load_fields_item p (0 + length before) (YDict item) out1)
    as [out2| |] eqn:Hitem; [|done..].
  cbn [mbind loaded_bind] in Hload. rewrite (load_fields_loop_other _ _ _ _ _ _ Hload Hafter).
  apply load_fields_item_Loaded in Hitem
    as (d' & k' & dt & sq & [= <-] & Hk' & _ & Hdt & _ & Hsq & _ & ->).
  rewrite Hk in Hk'. injection Hk' as <-.
  exists dt, sq. split; [done|]. split; [done|]. by rewrite lookup_insert_eq.
Qed.

(** X12: an empty document is read as the empty mapping: both loaders report
    their key as missing, as they do when the key is there with the value
    [null]. *)
Theorem loaders_missing_key p text :
  read_text p = FileText text →
  (safe_load text = inr YNone ∨
   ∃ d, safe_load text = inr (YDict d) ∧
        dict_get d "fields" = YNone ∧
        dict_get d "selected_field_ids" = YNone) →
  load_fields p = YamlLoadError ("Missing 'fields' key in " +:+ p) ∧
  load_selection p
  = YamlLoadError ("Missing 'selected_field_ids' key in " +:+ p).
Proof.
  intros Hread Hdata. unfold load_fields, load_selection, _load_yaml.
  rewrite Hread. destruct Hdata as [->|(d & -> & Hf & Hs)]; cbn.
  - done.
  - by rewrite Hf, Hs.
Qed.

(** X13: with an idempotent [strip], as Python's is, every id of a loaded
    selection is non-empty and is its own stripped form, while a key of the
    catalog is an id as the file writes it: an id declared with blanks
    around it is a key that no loaded selection contains, and a selected id
    that is a key is the [field_id] of the [Field] stored under it. *)
Theorem loaders_agree_on_selected pf ps c sel :
  (∀ s, strip (strip s) = strip s) →
  load_fields pf = Loaded c →
  load_selection ps = Loaded sel →
  Forall (λ fid, fid ≠ "" ∧ strip fid = fid ∧
                 ∀ f, c !! fid = Some f → field_id f = fid) sel ∧
  (∀ k, strip k ≠ k → k ∉ sel).
Proof.
  intros Hidem (d & raw & _ & _ & _ & Hfields)%load_fields_entries
    (d' & raws & _ & _ & Hraws & ->)%load_selection_inv.
  assert (Forall (λ fid, fid ≠ "" ∧ strip fid = fid) (strip <$> raws))
    as Hsel.
  { apply Forall_fmap. eapply Forall_impl; [exact Hraws|].
    intros s Hs. cbn. by rewrite Hidem. }
  split.
  - eapply Forall_impl; [exact Hsel|]. intros fid [Hne Hfix].
    split; [done|]. split; [done|]. intros f Hf.
    destruct (Hfields fid f Hf) as (-> & _). done.
  - intros k Hk Hin. rewrite Forall_forall in Hsel.
    by destruct (Hsel k Hin).
Qed.

End loader_facts.

(** The theorems above at the example files. *)

Lemma load_selection_first_offender_witness :
  @load_selection example_loader_env "bad.yml"
  = YamlLoadError ("selected_field_ids[" +:+ pretty (length ["pd"])
                   +:+ "] must be a non-empty string in " +:+ "bad.yml").
Proof.
  apply (load_selection_first_offender (env := example_loader_env) "bad.yml"
           {[ "selected_field_ids" := YList [YStr "pd"; YStr "  "; YOther] ]}
           ["pd"] (YStr "  ") [YOther]).
  - reflexivity.
  - reflexivity.
  - repeat constructor. discriminate.
  - reflexivity.
Defined.

Lemma load_fields_sound_witness :
  ∃ d raw_fields,
    @_load_yaml example_loader_env "fields.yml" = Loaded d ∧
    d !! "fields" = Some (YList raw_fields) ∧
    (∀ k, is_Some (({[ "pd" := mkField "pd" "MODELS" "m.pd_12m" None;
                       "run_date " := mkField "run_date" "MODELS" "m.run_date"
                                        (Some "Run date") ]}
                    : gmap string Field) !! k)
          ↔ ∃ item, item ∈ raw_fields ∧ declared_id item = Some k) ∧
    (∀ k f, ({[ "pd" := mkField "pd" "MODELS" "m.pd_12m" None;
                "run_date " := mkField "run_date" "MODELS" "m.run_date"
                                 (Some "Run date") ]}
             : gmap string Field) !! k = Some f →
            field_id f = ascii_strip k ∧ field_id f ≠ "" ∧
            (∃ dt, datatable_id f = ascii_strip dt ∧ ascii_strip dt ≠ "") ∧
            (∃ sq, sql_expr f = ascii_strip sq ∧ ascii_strip sq ≠ "")).
Proof.
  apply (load_fields_sound (env := example_loader_env) "fields.yml").
  vm_compute. reflexivity.
Defined.

Lemma load_fields_last_wins_witness :
  ∃ dt sq,
    ({[ "field_id" := YStr "pd"; "datatable_id" := YStr "MODELS";
        "sql_expr" := YStr "m.pd_12m" ]} : gmap string yaml)
      !! "datatable_id" = Some (YStr dt) ∧
    ({[ "field_id" := YStr "pd"; "datatable_id" := YStr "MODELS";
        "sql_expr" := YStr "m.pd_12m" ]} : gmap string yaml)
      !! "sql_expr" = Some (YStr sq) ∧
    ({[ "pd" := mkField "pd" "MODELS" "m.pd_12m" None;
        "run_date " := mkField "run_date" "MODELS" "m.run_date"
                         (Some "Run date") ]} : gmap string Field) !! "pd"
    = Some (mkField (ascii_strip "pd") (ascii_strip dt) (ascii_strip sq)
              (@strip_if_str example_loader_env
                 (dict_get {[ "field_id" := YStr "pd";
                              "datatable_id" := YStr "MODELS";
                              "sql_expr" := YStr "m.pd_12m" ]} "label"))).
Proof.
  apply (load_fields_last_wins (env := example_loader_env) "fields.yml" _
           {[ "fields" :=
              YList [YDict {[ "field_id" := YStr "pd";
                              "datatable_id" := YStr " MODELS";
                              "sql_expr" := YStr "m.pd" ]};
                     YDict {[ "field_id" := YStr "run_date ";
                              "datatable_id" := YStr "MODELS";
                              "sql_expr" := YStr "m.run_date";
                              "label" := YStr " Run date " ]};
                     YDict {[ "field_id" := YStr "pd";
                              "datatable_id" := YStr "MODELS";
                              "sql_expr" := YStr "m.pd_12m" ]}] ]}
           [YDict {[ "field_id" := YStr "pd";
                     "datatable_id" := YStr " MODELS";
                     "sql_expr" := YStr "m.pd" ]};
            YDict {[ "field_id" := YStr "run_date ";
                     "datatable_id" := YStr "MODELS";
                     "sql_expr" := YStr "m.run_date";
                     "label" := YStr " Run date " ]}]
           _ []).
  - vm_compute. reflexivity.
  - reflexivity.
  - reflexivity.
  - reflexivity.
  - constructor.
Defined.

Lemma loaders_missing_key_witness :
  @load_fields example_loader_env "empty.yml"
  = YamlLoadError ("Missing 'fields' key in " +:+ "empty.yml") ∧
  @load_selection example_loader_env "empty.yml"
  = YamlLoadError ("Missing 'selected_field_ids' key in " +:+ "empty.yml").
Proof.
  apply (loaders_missing_key (env := example_loader_env) "empty.yml" "").
  - reflexivity.
  - left. reflexivity.
Defined.

Lemma loaders_agree_on_selected_witness :
  Forall (λ fid, fid ≠ "" ∧ ascii_strip fid = fid ∧
                 ∀ f, ({[ "pd" := mkField "pd" "MODELS" "m.pd_12m" None;
                          "run_date " := mkField "run_date" "MODELS"
                                           "m.run_date" (Some "Run date") ]}
                       : gmap string Field) !! fid = Some f →
                      field_id f = fid) ["run_date"] ∧
  (∀ k, ascii_strip k ≠ k → k ∉ ["run_date"]).
Proof.
  apply (loaders_agree_on_selected (env := example_loader_env)
           "fields.yml" "unknown.yml").
  - apply ascii_strip_idemp.
  - vm_compute. reflexivity.
  - reflexivity.
Defined.

(** * Properties of [build] *)

Lemma explain_lines_allowed now mv s r dups sql :
  explain_lines (allowed now mv s r (duplicate_warnings dups)) r sql
  = ["MetaQuery V1 Validation Report";
     "==============================";
     "Decision: ALLOW";
     "Status: OK";
     "Source: " +:+ s;
     "Fields: " +:+ pretty (length r) +:+ " selected";
     "";
     "Controls:";
     "  ✓ non_empty_selection";
     "  ✓ all_fields_exist";
     "  ✓ no_duplicates";
     "  ✓ single_source";
     "  ✓ valid_source_name"]
    ++ (if decide (dups = []) then []
        else [""; "Warnings:"]
             ++ ((λ '(fid, n), "  - DUPLICATE_FIELDS: "
                               +:+ duplicate_message fid n) <$> dups))
    ++ [""; "Generated SQL:"; "--------------"; rstrip_newlines sql; ""].
Proof.
  unfold explain_lines, allowed.
  cbn [decision status source controls warnings default fmap list_fmap
       fst snd].
  rewrite !decide_True by done. rewrite app_assoc.
  do 2 f_equal.
  destruct (decide (dups = [])) as [->|Hd].
  - by rewrite decide_False by (intros Hx; by apply Hx).
  - rewrite decide_True by (by destruct dups).
    f_equal. unfold duplicate_warnings. rewrite <-list_fmap_compose.
    apply list_fmap_ext. by intros ? [fid n] _.
Qed.

Section build_facts.
Context `{env : Cli_env}.

(** The ways [build] goes, with what it has done when it ends: the prints
    and writes come in the order of the source, and the first of them that
    raises ends the program. *)
Lemma build_cases selection fields :
  (∃ msg,
     (load_fields fields = YamlLoadError msg ∨
      (∃ c, load_fields fields = Loaded c) ∧
      load_selection selection = YamlLoadError msg) ∧
     build selection fields
     = if effect_raises [] (console_print_panel msg "YAML ERROR" red)
       then ([], Uncaught)
       else ([console_print_panel msg "YAML ERROR" red], Exit 2)) ∨
  (build selection fields = ([], Uncaught) ∧
   (load_fields fields = OtherError ∨
    (∃ c, load_fields fields = Loaded c) ∧
    load_selection selection = OtherError)) ∨
  (∃ c sel r a e,
     load_fields fields = Loaded c ∧ load_selection selection = Loaded sel ∧
     validate_v1 utc_now c sel "0.1.0" = Return (r, a) ∧
     decision a = "BLOCK" ∧ error a = Some e ∧
     let w := write_text "audit.json"
                (json_dumps_audit a +:+ String newline "") in
     let p := console_print_panel
                ("ERROR: " +:+ error_code e
                 +:+ String newline "Decision: BLOCK")
                "VALIDATION" red in
     let j := console_print (json_dumps_error e) in
     build selection fields
     = if effect_raises [] w then ([], Uncaught)
       else if effect_raises [w] p then ([w], Uncaught)
       else if effect_raises [w; p] j then ([w; p], Uncaught)
       else ([w; p; j], Exit 1)) ∨
  (∃ c sel s,
     load_fields fields = Loaded c ∧ load_selection selection = Loaded sel ∧
     sel ≠ [] ∧ Forall (λ fid, FIELD_ID_RE fid) sel ∧ all_from c s sel ∧
     SOURCE_RE s ∧
     let r := first_occurrences sel in
     let a := allowed utc_now "0.1.0" s r
                (duplicate_warnings (duplicates_of sel)) in
     let sql := build_sql_v1 s r c in
     let w := write_text "audit.json"
                (json_dumps_audit a +:+ String newline "") in
     let q := write_text "query.sql" sql in
     let x := write_text "explain.txt"
                (join (String newline "") (explain_lines a r sql)) in
     let g := console_print_panel
                "OK: query.sql + audit.json + explain.txt generated"
                "MetaQuery" green in
     validate_v1 utc_now c sel "0.1.0" = Return (r, a) ∧
     build selection fields
     = if effect_raises [] w then ([], Uncaught)
       else if build_sql_v1_raises s r c then ([w], Uncaught)
       else if effect_raises [w] q then ([w], Uncaught)
       else if effect_raises [w; q] x then ([w; q], Uncaught)
       else if effect_raises [w; q; x] g then ([w; q; x], Uncaught)
       else ([w; q; x; g], Exit 0)).
Proof.
  unfold build, build_body.
  destruct (load_fields fields) as [c|msg|] eqn:Hc; cbn [mbind loaded_bind].
  2: { left. exists msg. split; [by left|].
       unfold cmd_bind, perform, stop.
       by destruct (effect_raises _ _). }
  2: { right; left. split; [done|]. by left. }
  destruct (load_selection selection) as [sel|msg|] eqn:Hsel;
    cbn [mbind loaded_bind mret loaded_ret].
  2: { left. exists msg. split; [right; eauto|].
       unfold cmd_bind, perform, stop.
       by destruct (effect_raises _ _). }
  2: { right; left. split; [done|]. right. eauto. }
  destruct (validate_v1_exits utc_now c sel "0.1.0") as ([r a] & Hrun & _).
  rewrite Hrun. destruct (decide (decision a ≠ "ALLOW")) as [Hd|Hd].
  - destruct (validate_v1_block_inv _ _ _ _ _ _ Hrun Hd) as (Hb & e & He).
    do 2 right; left. exists c, sel, r, a, e.
    do 5 (split; [done|]). rewrite He.
    unfold cmd_bind, _write_json, perform, stop. cbn [app].
    repeat (destruct (effect_raises _ _); [done|]). done.
  - apply dec_stable in Hd.
    destruct (validate_v1_allow_inv _ _ _ _ _ _ Hrun Hd)
      as (s & ? & ? & ? & ? & -> & ->).
    do 3 right. exists c, sel, s. do 6 (split; [done|]).
    cbn zeta. split; [done|]. cbn [source allowed default].
    unfold cmd_bind, _write_json, _write_text, perform, stop, cmd_ret.
    cbn [app].
    destruct (effect_raises _ _); [done|].
    destruct (build_sql_v1_raises _ _ _); [done|].
    repeat (destruct (effect_raises _ _); [done|]). done.
Qed.

(** Case analysis on the prints and writes of a run, in their order. *)
Ltac build_run H :=
  repeat lazymatch type of H with
         | (if ?b then _ else _) = _ => destruct b eqn:?
         end.

(** X14: how [build] ends and which files it has written by then.  It ends
    with exit code 2, the YAML ERROR panel and no file when a loader raises
    [YamlLoadError]; with exit code 1 and [audit.json] alone when the
    validator blocks; with exit code 0 and [audit.json], [query.sql] and
    [explain.txt], in this order, when it allows.  It ends with an exception
    when a loader lets one through (nothing is printed or written then),
    when a print or a write raises, or when [build_sql_v1] raises (after
    [audit.json] and before [query.sql]); the files written by then are the
    first ones of [audit.json], [query.sql], [explain.txt].  The validator
    itself never raises, and however [build] ends, [query.sql] is written
    only for a selection that the validator allows. *)
Theorem build_exit_codes selection fields :
  ∃ events t,
    build selection fields = (events, t) ∧
    ((t = Exit 2 ∧ files_written events = [] ∧
      ∃ msg, events = [console_print_panel msg "YAML ERROR" red] ∧
             (load_fields fields = YamlLoadError msg ∨
              (∃ c, load_fields fields = Loaded c) ∧
              load_selection selection = YamlLoadError msg)) ∨
     (t = Exit 1 ∧ files_written events = ["audit.json"] ∧
      ∃ c sel r a,
        load_fields fields = Loaded c ∧
        load_selection selection = Loaded sel ∧
        validate_v1 utc_now c sel "0.1.0" = Return (r, a) ∧
        decision a = "BLOCK") ∨
     (t = Exit 0 ∧
      files_written events = ["audit.json"; "query.sql"; "explain.txt"] ∧
      ∃ c sel r a,
        load_fields fields = Loaded c ∧
        load_selection selection = Loaded sel ∧
        validate_v1 utc_now c sel "0.1.0" = Return (r, a) ∧
        decision a = "ALLOW") ∨
     (t = Uncaught ∧
      files_written events
        `prefix_of` ["audit.json"; "query.sql"; "explain.txt"] ∧
      ((events = [] ∧
        (load_fields fields = OtherError ∨
         (∃ c, load_fields fields = Loaded c) ∧
         load_selection selection = OtherError)) ∨
       (∃ e, effect_raises events e = true) ∨
       (∃ c sel s,
          load_fields fields = Loaded c ∧
          load_selection selection = Loaded sel ∧
          all_from c s sel ∧
          build_sql_v1_raises s (first_occurrences sel) c = true ∧
          files_written events = ["audit.json"])))) ∧
    ("query.sql" ∈ files_written events →
     ∃ c sel r a,
       load_fields fields = Loaded c ∧
       load_selection selection = Loaded sel ∧
       validate_v1 utc_now c sel "0.1.0" = Return (r, a) ∧
       decision a = "ALLOW").
Proof.
  destruct (build selection fields) as [events t] eqn:Hbuild.
  exists events, t. split; [done|].
  destruct (build_cases selection fields)
    as [(msg & Hload & Hb)|[(Hb & Hload)
       |[(c & sel & r & a & e & Hc & Hsel & Hrun & Hd & He & Hb)
        |(c & sel & s & Hc & Hsel & _ & _ & Hall & _ & Hrun & Hb)]]];
    cbn zeta in Hb; rewrite Hb in Hbuild; build_run Hbuild;
    injection Hbuild as <- <-.
  - split; [|by intros ?%elem_of_nil].
    do 3 right. split; [done|]. split; [by apply prefix_nil|].
    right; left. eauto.
  - split; [|by intros ?%elem_of_nil].
    left. split; [done|]. split; [done|]. by exists msg.
  - split; [|by intros ?%elem_of_nil].
    do 3 right. split; [done|]. split; [by apply prefix_nil|]. by left.
  - split; [|by intros ?%elem_of_nil].
    do 3 right. split; [done|]. split; [by apply prefix_nil|].
    right; left. eauto.
  - split; [|cbn; intros Hq; exfalso; set_solver].
    do 3 right. split; [done|].
    split; [by exists ["query.sql"; "explain.txt"]|]. right; left. eauto.
  - split; [|cbn; intros Hq; exfalso; set_solver].
    do 3 right. split; [done|].
    split; [by exists ["query.sql"; "explain.txt"]|]. right; left. eauto.
  - split; [|cbn; intros Hq; exfalso; set_solver].
    right; left. split; [done|]. split; [done|]. by exists c, sel, r, a.
  - split; [|by intros ?%elem_of_nil].
    do 3 right. split; [done|]. split; [by apply prefix_nil|].
    right; left. eauto.
  - split; [|cbn; intros Hq; exfalso; set_solver].
    do 3 right. split; [done|].
    split; [by exists ["query.sql"; "explain.txt"]|].
    right; right. by exists c, sel, s.
  - split; [|cbn; intros Hq; exfalso; set_solver].
    do 3 right. split; [done|].
    split; [by exists ["query.sql"; "explain.txt"]|]. right; left. eauto.
  - split; [|intros _; by eexists c, sel, _, _].
    do 3 right. split; [done|].
    split; [by exists ["explain.txt"]|]. right; left. eauto.
  - split; [|intros _; by eexists c, sel, _, _].
    do 3 right. split; [done|].
    split; [by exists []|]. right; left. eauto.
  - split; [|intros _; by eexists c, sel, _, _].
    do 2 right; left. split; [done|]. split; [done|].
    by eexists c, sel, _, _.
Qed.

(** X15: when [build] ends with exit code 1, it has written the audit, printed a
    panel with the code of the error of the audit and then the error itself:
    the audit of a blocked call always carries an error, so that the
    fallback code [VALIDATION_ERROR] is never shown and the error is never
    left out. *)
Theorem build_block_report selection fields events :
  build selection fields = (events, Exit 1) →
  ∃ c sel r a e,
    load_fields fields = Loaded c ∧ load_selection selection = Loaded sel ∧
    validate_v1 utc_now c sel "0.1.0" = Return (r, a) ∧
    error a = Some e ∧
    events
    = [write_text "audit.json" (json_dumps_audit a +:+ String newline "");
       console_print_panel
         ("ERROR: " +:+ error_code e +:+ String newline "Decision: BLOCK")
         "VALIDATION" red;
       console_print (json_dumps_error e)].
Proof.
  intros Hbuild.
  destruct (build_cases selection fields)
    as [(msg & _ & Hb)|[(Hb & _)
       |[(c & sel & r & a & e & Hc & Hsel & Hrun & Hd & He & Hb)
        |(c & sel & s & _ & _ & _ & _ & _ & _ & _ & Hb)]]];
    cbn zeta in Hb; rewrite Hb in Hbuild; build_run Hbuild;
    try discriminate Hbuild.
  injection Hbuild as <-. by exists c, sel, r, a, e.
Qed.

Lemma build_allow selection fields events :
  build selection fields = (events, Exit 0) →
  ∃ c sel s,
    load_fields fields = Loaded c ∧ load_selection selection = Loaded sel ∧
    sel ≠ [] ∧ Forall (λ fid, FIELD_ID_RE fid) sel ∧ all_from c s sel ∧
    SOURCE_RE s ∧
    events
    = [write_text "audit.json"
         (json_dumps_audit
            (allowed utc_now "0.1.0" s (first_occurrences sel)
               (duplicate_warnings (duplicates_of sel)))
          +:+ String newline "");
       write_text "query.sql" (build_sql_v1 s (first_occurrences sel) c);
       write_text "explain.txt"
         (join (String newline "")
            (explain_lines
               (allowed utc_now "0.1.0" s (first_occurrences sel)
                  (duplicate_warnings (duplicates_of sel)))
               (first_occurrences sel)
               (build_sql_v1 s (first_occurrences sel) c)));
       console_print_panel
         "OK: query.sql + audit.json + explain.txt generated"
         "MetaQuery" green].
Proof.
  intros Hbuild.
  destruct (build_cases selection fields)
    as [(msg & _ & Hb)|[(Hb & _)
       |[(c & sel & r & a & e & _ & _ & _ & _ & _ & Hb)
        |(c & sel & s & Hc & Hsel & ? & ? & ? & ? & _ & Hb)]]];
    cbn zeta in Hb; rewrite Hb in Hbuild; build_run Hbuild;
    try discriminate Hbuild.
  injection Hbuild as <-. by exists c, sel, s.
Qed.

(** X16: when [build] ends with exit code 0, the text it has written to
    [query.sql] is what [build_sql_v1] returns for the catalog, a table name
    that matches [^[A-Z0-9_]+$] and a non-empty list of distinct ids each of
    which matches [^[A-Za-z0-9_]+$] and is a key of the catalog, whose
    [Field] belongs to that table, has a non-empty [sql_expr] and has the
    stripped key as its [field_id]. *)
Theorem build_sql_inputs selection fields events :
  build selection fields = (events, Exit 0) →
  ∃ c ids s,
    load_fields fields = Loaded c ∧
    write_text "query.sql" (build_sql_v1 s ids c) ∈ events ∧
    SOURCE_RE s ∧ ids ≠ [] ∧ NoDup ids ∧
    Forall (λ fid, FIELD_ID_RE fid ∧
                   ∃ f, c !! fid = Some f ∧ datatable_id f = s ∧
                        field_id f = strip fid ∧ sql_expr f ≠ "") ids.
Proof.
  intros (c & sel & s & Hc & Hsel & Hne & Hre & Hall & Hs & ->)%build_allow.
  exists c, (first_occurrences sel), s. split; [done|].
  split; [set_solver|]. split; [done|].
  split; [by rewrite first_occurrences_nil|].
  split; [apply first_occurrences_NoDup|].
  apply load_fields_entries in Hc as (d & raw & _ & _ & _ & Hfields).
  unfold all_from in Hall. rewrite Forall_forall in *.
  intros fid Hfid. apply (proj1 (first_occurrences_elem _ _)) in Hfid.
  split; [by apply Hre|]. destruct (Hall fid Hfid) as (f & Hf & Hdt).
  exists f. destruct (Hfields fid f Hf) as (Hid & _ & _ & sq & -> & Hsq).
  done.
Qed.

(** X17: if [strip] is idempotent and never leaves a final newline, as Python's
    is and does, the ids and the table name that reach [build_sql_v1] are
    non-empty words over [A-Za-z0-9_] and over [A-Z0-9_]: the final newline
    that [$] lets through cannot come out of the loaders; and each id is the
    [field_id] of the [Field] stored under it. *)
Theorem build_sql_inputs_clean selection fields events :
  (∀ s, strip (strip s) = strip s) →
  (∀ s w, strip s ≠ w +:+ String newline "") →
  build selection fields = (events, Exit 0) →
  ∃ c ids s,
    load_fields fields = Loaded c ∧
    write_text "query.sql" (build_sql_v1 s ids c) ∈ events ∧
    s ≠ "" ∧ all_in_class source_class s = true ∧
    Forall (λ fid, fid ≠ "" ∧ all_in_class field_id_class fid = true ∧
                   ∃ f, c !! fid = Some f ∧ field_id f = fid ∧
                        datatable_id f = s) ids.
Proof.
  intros Hidem Hnl
    (c & sel & s & Hc & Hsel & Hne & Hre & Hall & Hs & ->)%build_allow.
  exists c, (first_occurrences sel), s. split; [done|].
  split; [set_solver|].
  apply load_fields_entries in Hc as (d & raw & _ & _ & _ & Hfields).
  apply load_selection_inv in Hsel as (d' & raws & _ & _ & _ & ->).
  unfold all_from in Hall. rewrite Forall_forall in *.
  assert (∃ fid, fid ∈ strip <$> raws) as [fid0 Hfid0].
  { destruct (strip <$> raws) as [|x ?]; [done|]. exists x. left. }
  destruct (Hall fid0 Hfid0) as (f0 & Hf0 & Hdt0).
  destruct (Hfields fid0 f0 Hf0) as (_ & _ & (dt & Hdt & _) & _).
  apply Is_true_true, (re_match_spec source_class s eq_refl) in Hs.
  destruct Hs as (w & Hw & Hcls & [Heq|Heq]);
    [subst w|exfalso; apply (Hnl dt w); congruence].
  split; [done|]. split; [done|].
  intros fid Hfid. apply (proj1 (first_occurrences_elem _ _)) in Hfid.
  destruct (Hall fid Hfid) as (f & Hf & Hdtf).
  destruct (Hfields fid f Hf) as (Hid & _).
  apply list_elem_of_fmap in Hfid as Hraw. destruct Hraw as (raw' & -> & _).
  specialize (Hre _ Hfid).
  apply Is_true_true, (re_match_spec field_id_class _ eq_refl) in Hre.
  destruct Hre as (w' & Hw' & Hcls' & [Heq|Heq]);
    [|exfalso; by apply (Hnl raw' w')].
  rewrite Heq. split; [done|]. split; [done|]. exists f.
  rewrite <-Heq. split; [done|]. split; [|done]. by rewrite Hid, Hidem.
Qed.

(** X18: when [build] ends with exit code 0, the selection is not empty, all
    of its fields belong to one table of the catalog, whose name matches
    [^[A-Z0-9_]+$] and so is not [None], and what [build] has written and
    printed is, in this order: the audit; [query.sql], with the text of
    [build_sql_v1] for that table and the distinct ids; [explain.txt]; the
    closing panel.  [explain.txt] reports decision ALLOW, status OK, that
    table, the number of distinct ids, the five controls, each with a check
    mark, one line per repeated id if there is any, and the text of
    [query.sql] without its final newlines. *)
Theorem build_explain selection fields events :
  build selection fields = (events, Exit 0) →
  ∃ c sel s,
    load_fields fields = Loaded c ∧
    load_selection selection = Loaded sel ∧
    sel ≠ [] ∧ all_from c s sel ∧ SOURCE_RE s ∧ s ≠ "None" ∧
    events
    = [write_text "audit.json"
         (json_dumps_audit
            (allowed utc_now "0.1.0" s (first_occurrences sel)
               (duplicate_warnings (duplicates_of sel)))
          +:+ String newline "");
       write_text "query.sql" (build_sql_v1 s (first_occurrences sel) c);
       write_text "explain.txt"
         (join (String newline "")
            (["MetaQuery V1 Validation Report";
              "==============================";
              "Decision: ALLOW";
              "Status: OK";
              "Source: " +:+ s;
              "Fields: " +:+ pretty (length (first_occurrences sel))
                +:+ " selected";
              "";
              "Controls:";
              "  ✓ non_empty_selection";
              "  ✓ all_fields_exist";
              "  ✓ no_duplicates";
              "  ✓ single_source";
              "  ✓ valid_source_name"]
             ++ (if decide (duplicates_of sel = []) then []
                 else [""; "Warnings:"]
                      ++ ((λ '(fid, n), "  - DUPLICATE_FIELDS: "
                                        +:+ duplicate_message fid n)
                          <$> duplicates_of sel))
             ++ [""; "Generated SQL:"; "--------------";
                 rstrip_newlines
                   (build_sql_v1 s (first_occurrences sel) c); ""]));
       console_print_panel
         "OK: query.sql + audit.json + explain.txt generated"
         "MetaQuery" green].
Proof.
  intros (c & sel & s & Hc & Hsel & Hne & Hre & Hall & Hs & ->)%build_allow.
  exists c, sel, s. do 5 (split; [done|]).
  split; [by intros ->|]. by rewrite explain_lines_allowed.
Qed.

End build_facts.

(** The theorems above at the example files. *)

Lemma build_block_report_witness :
  ∃ c sel r a e,
    @load_fields example_loader_env "fields.yml" = Loaded c ∧
    @load_selection example_loader_env "unknown.yml" = Loaded sel ∧
    validate_v1 "2024-01-01T00:00:00Z" c sel "0.1.0" = Return (r, a) ∧
    error a = Some e ∧
    [write_text "audit.json" ("{}" +:+ String newline "");
     console_print_panel
       ("ERROR: FIELD_NOT_FOUND" +:+ String newline "Decision: BLOCK")
       "VALIDATION" red;
     console_print "{}"]
    = [write_text "audit.json"
         (@json_dumps_audit example_cli_env a +:+ String newline "");
       console_print_panel
         ("ERROR: " +:+ error_code e +:+ String newline "Decision: BLOCK")
         "VALIDATION" red;
       console_print (@json_dumps_error example_cli_env e)].
Proof.
  apply (build_block_report (env := example_cli_env)
           "unknown.yml" "fields.yml").
  vm_compute. reflexivity.
Defined.

Lemma build_sql_inputs_witness :
  ∃ c ids s,
    @load_fields example_loader_env "fields.yml" = Loaded c ∧
    write_text "query.sql" (@build_sql_v1 example_cli_env s ids c)
      ∈ (@build example_cli_env "selection.yml" "fields.yml").1 ∧
    SOURCE_RE s ∧ ids ≠ [] ∧ NoDup ids ∧
    Forall (λ fid, FIELD_ID_RE fid ∧
                   ∃ f, c !! fid = Some f ∧ datatable_id f = s ∧
                        field_id f = ascii_strip fid ∧ sql_expr f ≠ "") ids.
Proof.
  apply (build_sql_inputs (env := example_cli_env)
           "selection.yml" "fields.yml").
  vm_compute. reflexivity.
Defined.

Lemma build_sql_inputs_clean_witness :
  ∃ c ids s,
    @load_fields example_loader_env "fields.yml" = Loaded c ∧
    write_text "query.sql" (@build_sql_v1 example_cli_env s ids c)
      ∈ (@build example_cli_env "selection.yml" "fields.yml").1 ∧
    s ≠ "" ∧ all_in_class source_class s = true ∧
    Forall (λ fid, fid ≠ "" ∧ all_in_class field_id_class fid = true ∧
                   ∃ f, c !! fid = Some f ∧ field_id f = fid ∧
                        datatable_id f = s) ids.
Proof.
  apply (build_sql_inputs_clean (env := example_cli_env)
           "selection.yml" "fields.yml").
  - apply ascii_strip_idemp.
  - apply ascii_strip_no_newline.
  - vm_compute. reflexivity.
Defined.

Lemma build_explain_witness :
  ∃ c sel s,
    @load_fields example_loader_env "fields.yml" = Loaded c ∧
    @load_selection example_loader_env "selection.yml" = Loaded sel ∧
    sel ≠ [] ∧ all_from c s sel ∧ SOURCE_RE s ∧ s ≠ "None" ∧
    (@build example_cli_env "selection.yml" "fields.yml").1
    = [write_text "audit.json"
         (@json_dumps_audit example_cli_env
            (allowed "2024-01-01T00:00:00Z" "0.1.0" s (first_occurrences sel)
               (duplicate_warnings (duplicates_of sel)))
          +:+ String newline "");
       write_text "query.sql"
         (@build_sql_v1 example_cli_env s (first_occurrences sel) c);
       write_text "explain.txt"
         (join (String newline "")
            (["MetaQuery V1 Validation Report";
              "==============================";
              "Decision: ALLOW";
              "Status: OK";
              "Source: " +:+ s;
              "Fields: " +:+ pretty (length (first_occurrences sel))
                +:+ " selected";
              "";
              "Controls:";
              "  ✓ non_empty_selection";
              "  ✓ all_fields_exist";
              "  ✓ no_duplicates";
              "  ✓ single_source";
              "  ✓ valid_source_name"]
             ++ (if decide (duplicates_of sel = []) then []
                 else [""; "Warnings:"]
                      ++ ((λ '(fid, n), "  - DUPLICATE_FIELDS: "
                                        +:+ duplicate_message fid n)
                          <$> duplicates_of sel))
             ++ [""; "Generated SQL:"; "--------------";
                 rstrip_newlines
                   (@build_sql_v1 example_cli_env s (first_occurrences sel) c);
                 ""]));
       console_print_panel
         "OK: query.sql + audit.json + explain.txt generated"
         "MetaQuery" green].
Proof.
  apply (build_explain (env := example_cli_env) "selection.yml" "fields.yml").
  vm_compute. reflexivity.
Defined.

(** On the disk that is full once [audit.json] is written, the same command
    ends with an exception after that one file. *)
Example build_full_disk :
  @build example_full_disk_env "selection.yml" "fields.yml"
  = ([write_text "audit.json" ("{}" +:+ String newline "")], Uncaught).
Proof. vm_compute. reflexivity. Qed.
